(** * generate_build_file.js: dependency flattening and BUILD file emission

    A shallow embedding of [internal/npm_install/generate_build_file.js]
    and the properties of its scan of node_modules ([findPackages],
    [parsePackage], [cleanupBinPath]), of its resolver
    ([flattenDependencies]), of its printer ([printPackage]) and of its
    entry point ([main]).

    Conventions of the embedding.
    - JavaScript strings are [string]s (byte sequences); every character
      the program inspects ('/', '\', '.', '@') is ASCII.
    - The working directory is a tree of [node]s.  [JSON.parse] and
      [JSON.stringify] belong to the runtime and are parameters;
      [path.posix.join] is modelled after its documentation.
    - A package object is allocated once by [parsePackage] and is
      afterwards only referred to.  The array [pkgs] built in [main] holds
      every such object, so an object reference is the position of the
      object in [pkgs] ([ref]); [===] on objects and [indexOf] compare
      positions.
    - The only field mutated after parsing is [_dependencies]; it is the
      state threaded through [flattenDependencies].
    - A [throw] is the outcome [Throw] (or [Failed], where no fuel is
      involved); recursion of the resolver is bounded by a fuel argument,
      and running out of it is the separate outcome [OutOfFuel], shown
      unreachable with the fuel [main] is given.
    - The trees are those of files, the reading of which returns or
      throws, and of directories that can be listed: [fs.statSync] and
      [fs.readdirSync] return on every entry (there is no dangling
      link).  The values of an object-form [bin] are strings, so that
      [cleanupBinPath] is applied to strings only.  The call of
      [fs.writeFileSync] is recorded with the text handed to it; what
      the file system does with it is not part of the embedding. *)

From Stdlib Require Import Ascii String.
From stdpp Require Import gmap strings list fin_maps.

(** ** Strings *)

Module Str.

(** The one-character strings the templates need. *)
Definition dq : string := String "034"%char EmptyString.
Definition nl : string := String "010"%char EmptyString.
Definition slash : ascii := "/"%char.
Definition backslash : ascii := "\"%char.

(** [s.split(sep)] for a one-character separator: the empty string
    splits into one empty piece. *)
Fixpoint split (sep : ascii) (s : string) : list string :=
  match s with
  | EmptyString => [EmptyString]
  | String c rest =>
      if decide (c = sep) then EmptyString :: split sep rest
      else match split sep rest with
           | piece :: pieces => String c piece :: pieces
           | [] => [String c EmptyString]
           end
  end.

(** [arr.join(sep)]. *)
Definition join (sep : string) (l : list string) : string :=
  String.concat sep l.

(** [s.replace(/c/g, d)] for single characters. *)
Fixpoint replace_all (c d : ascii) (s : string) : string :=
  match s with
  | EmptyString => EmptyString
  | String a rest =>
      String (if decide (a = c) then d else a) (replace_all c d rest)
  end.

(** [s.startsWith(p)], and [s.indexOf(p) === 0]. *)
Fixpoint starts_with (p s : string) : bool :=
  match p, s with
  | EmptyString, _ => true
  | String _ _, EmptyString => false
  | String a p', String b s' =>
      if decide (a = b) then starts_with p' s' else false
  end.

(** [s.slice(n)]. *)
Fixpoint drop (n : nat) (s : string) : string :=
  match n, s with
  | 0, _ => s
  | S k, EmptyString => EmptyString
  | S k, String _ rest => drop k rest
  end.

(** [s.replace(/^p/, '')] for a literal [p]. *)
Definition strip_prefix (p s : string) : string :=
  if starts_with p s then drop (String.length p) s else s.

(** Whether [p] occurs in [s]: the truthiness of [s.match(/p/)] for a
    literal [p]. *)
Fixpoint includes (p s : string) : bool :=
  starts_with p s ||
  match s with
  | EmptyString => false
  | String _ rest => includes p rest
  end.

(** [s.charCodeAt(s.length - 1) === 47]. *)
Fixpoint ends_with_slash (s : string) : bool :=
  match s with
  | EmptyString => false
  | String c EmptyString => bool_decide (c = slash)
  | String _ rest => ends_with_slash rest
  end.

End Str.

(** ** Node's [path.posix.join]

    [path.posix] is part of the Node runtime, not of this repository.  It
    is modelled after its documentation: the non-empty arguments are
    joined by '/', and the result is normalised (empty and '.' segments
    dropped, '..' resolved against the preceding segment, a leading or a
    trailing '/' kept, the empty result written '.'). *)

Module Posix.

Definition step (allowAboveRoot : bool) (res : list string) (seg : string)
  : list string :=
  if decide (seg = "" ∨ seg = ".") then res
  else if decide (seg = "..") then
    match last res with
    | Some l =>
        if decide (l = "..")
        then (if allowAboveRoot then res ++ [".."] else res)
        else removelast res
    | None => if allowAboveRoot then [".."] else []
    end
  else res ++ [seg].

Definition normalizeString (segs : list string) (allowAboveRoot : bool)
  : list string :=
  fold_left (step allowAboveRoot) segs [].

Definition normalize (path : string) : string :=
  if decide (path = "") then "."
  else
    let isAbsolute := Str.starts_with "/" path in
    let trailingSeparator := Str.ends_with_slash path in
    let body :=
      Str.join "/" (normalizeString (Str.split Str.slash path)
                                    (negb isAbsolute)) in
    if decide (body = "") then
      (if isAbsolute then "/" else if trailingSeparator then "./" else ".")
    else
      (if isAbsolute then "/" else "") +:+ body +:+
      (if trailingSeparator then "/" else "").

Definition join (args : list string) : string :=
  match filter (λ a, a ≠ "") args with
  | [] => "."
  | parts => normalize (Str.join "/" parts)
  end.

End Posix.

(** ** Outcomes of a call: a value, an exception, or no fuel left *)

Inductive outcome (A : Type) : Type :=
| Done (a : A)
| Throw (msg : string)
| OutOfFuel.
Arguments Done {A} a.
Arguments Throw {A} msg.
Arguments OutOfFuel {A}.

Definition bind {A B} (o : outcome A) (k : A → outcome B) : outcome B :=
  match o with
  | Done a => k a
  | Throw msg => Throw msg
  | OutOfFuel => OutOfFuel
  end.

Notation "'let*' x := o 'in' k" := (bind o (λ x, k))
  (at level 10, x name, o at level 100, k at level 200).

(** [arr.map(f)] where [f] may throw: elements are visited left to
    right and the first exception ends the traversal. *)
Fixpoint mapO {A B} (f : A → outcome B) (l : list A) : outcome (list B) :=
  match l with
  | [] => Done []
  | x :: l' => let* y := f x in let* ys := mapO f l' in Done (y :: ys)
  end.

(** [arr.map(f)] / [arr.forEach(f)] where [f] updates a state. *)
Fixpoint foldO {A S} (f : S → A → outcome S) (s : S) (l : list A)
  : outcome S :=
  match l with
  | [] => Done s
  | x :: l' => let* s' := f s x in foldO f s' l'
  end.

(** Calls that need no fuel: they return or throw. *)
Inductive result (A : Type) : Type :=
| Ok (a : A)
| Failed (err : string).
Arguments Ok {A} a.
Arguments Failed {A} err.

Definition of_result {A} (r : result A) : outcome A :=
  match r with
  | Ok a => Done a
  | Failed err => Throw err
  end.

Definition rbind {A B} (r : result A) (k : A → result B) : result B :=
  match r with
  | Ok a => k a
  | Failed err => Failed err
  end.

Notation "'let+' x := r 'in' k" := (rbind r (λ x, k))
  (at level 10, x name, r at level 100, k at level 200).

(** ** Package objects *)

(** A dependency mapping of package.json: names to version ranges, in
    the order [Object.keys] enumerates them. *)
Abbreviation dict := (list (string * string)) (only parsing).

(** The [bin] field of package.json by its runtime type; [BinAbsent]
    stands for a field that is absent or [null]. *)
Inductive binField : Type :=
| BinAbsent
| BinArray (items : list string)
| BinString (path : string)
| BinObject (entries : dict).

(** The parsed content of a package.json, for the fields the program
    reads.  A mapping that is absent is [None]. *)
Record packageJson : Type := PackageJson {
  json_name : string;
  json_version : string;
  json_dependencies : option dict;
  json_peerDependencies : option dict;
  json_optionalDependencies : option dict;
  json_bin : binField
}.

(** A [Map] with string keys, in insertion order. *)
Abbreviation smap := (list (string * string)) (only parsing).

(** [m.set(k, v)]: an existing key keeps its position. *)
Fixpoint smap_set (k v : string) (m : smap) : smap :=
  match m with
  | [] => [(k, v)]
  | (k', v') :: m' =>
      if decide (k' = k) then (k, v) :: m' else (k', v') :: smap_set k v m'
  end.

Fixpoint smap_get (k : string) (m : smap) : option string :=
  match m with
  | [] => None
  | (k', v') :: m' => if decide (k' = k) then Some v' else smap_get k m'
  end.

(** The object [parsePackage] returns, without its mutable
    [_dependencies] array. *)
Record Package : Type := mkPackage {
  name : string;
  version : string;
  dependencies : option dict;
  peerDependencies : option dict;
  optionalDependencies : option dict;
  bin : binField;
  _dir : string;
  _isNested : bool;
  _executables : smap
}.

Global Instance Package_inhabited : Inhabited Package :=
  populate (mkPackage "" "" None None None BinAbsent "" false []).

(** A reference to a package object: its position in [pkgs]. *)
Abbreviation ref := nat.

(** ** [cleanupBinPath] and [parsePackage] *)

Definition cleanupBinPath (path : string) : string :=
  let path := Str.replace_all Str.backslash Str.slash path in
  if Str.starts_with "./" path then Str.drop 2 path else path.

(** The [for (let key in pkg.bin)] loop of [parsePackage]. *)
Definition set_executables (entries : dict) (m : smap) : smap :=
  fold_left (λ m kv, smap_set kv.1 (cleanupBinPath kv.2) m) entries m.

Definition parsePackage (p : string) (json : packageJson) : Package :=
  let dir := Str.strip_prefix "node_modules/" p in
  let isNested := Str.includes "/node_modules/" p in
  let executables : smap :=
    if isNested then []
    else match json_bin json with
         | BinArray _ => []
         | BinString s => smap_set dir (cleanupBinPath s) []
         | BinObject entries => set_executables entries []
         | BinAbsent => []
         end in
  {| name := json_name json;
     version := json_version json;
     dependencies := json_dependencies json;
     peerDependencies := json_peerDependencies json;
     optionalDependencies := json_optionalDependencies json;
     bin := json_bin json;
     _dir := dir;
     _isNested := isNested;
     _executables := executables |}.

(** ** The files on disk: [isPackage], [findPackages], [findScopes] *)

(** What a path names: a file, the reading of which returns its content
    or throws, or a directory with its entries in the order
    [fs.readdirSync] lists them. *)
#[warnings="-register-all"] Inductive node : Type :=
| File (content : result string)
| Dir (listing : list (string * node)).

(** The entry with a given name in a directory. *)
Fixpoint entry (f : string) (listing : list (string * node)) : option node :=
  match listing with
  | [] => None
  | (f', n) :: rest => if decide (f' = f) then Some n else entry f rest
  end.

(** [fs.statSync(p).isDirectory()], on what [p] names. *)
Definition isDirectory (n : node) : bool :=
  match n with
  | Dir _ => true
  | File _ => false
  end.

(** [isPackage(p)], on what [p] names. *)
Definition isPackage (n : node) : bool :=
  match n with
  | Dir listing =>
      match entry "package.json" listing with
      | Some (File _) => true
      | _ => false
      end
  | File _ => false
  end.

(** [fs.readFileSync(path.posix.join(p, f))], on what [p] names. *)
Definition readIn (f : string) (here : node) : result string :=
  match here with
  | Dir listing =>
      match entry f listing with
      | Some (File content) => content
      | Some (Dir _) => Failed "EISDIR: illegal operation on a directory, read"
      | None => Failed "ENOENT: no such file or directory"
      end
  | File _ => Failed "ENOTDIR: not a directory"
  end.

Section Scan.

(** [JSON.parse] of the runtime, followed by the reading of the fields
    of the result: it throws on a text that is not a JSON object. *)
Variable JSON_parse : string → result packageJson.

(** [parsePackage(p)] from its first statement on: [content] is what
    reading [p/package.json] gives. *)
Definition parsePackageFile (p : string) (content : result string)
  : result Package :=
  let+ text := content in
  let+ json := JSON_parse text in
  Ok (parsePackage p json).

Section Listing.

(** The recursive call of [findPackages], and its argument [p]. *)
Variable findPackages : string → node → result (list Package).
Variable p : string.

(** [findPackages(path.posix.join(f, 'node_modules'))] for a package
    directory [f] with the entries [inside]. *)
Fixpoint nestedPackages (f : string) (inside : list (string * node))
  : result (list Package) :=
  match inside with
  | [] => Ok []
  | (n, e) :: rest =>
      if decide (n = "node_modules")
      then findPackages (Posix.join [f; "node_modules"]) e
      else nestedPackages f rest
  end.

(** The same on what [f] names. *)
Definition nestedIn (f : string) (here : node) : result (list Package) :=
  match here with
  | Dir inside => nestedPackages f inside
  | File _ => Ok []
  end.

(** The first half of [findPackages]: every plain entry of the listing
    that is a package, followed by the packages nested in it. *)
Fixpoint packagesOf (listing : list (string * node))
  : result (list Package) :=
  match listing with
  | [] => Ok []
  | (f, child) :: rest =>
      if negb (Str.starts_with "@" f) && isPackage child then
        let f := Posix.join [p; f] in
        let+ pkg := parsePackageFile f (readIn "package.json" child) in
        let+ nested := nestedIn f child in
        let+ others := packagesOf rest in
        Ok (pkg :: nested ++ others)
      else packagesOf rest
  end.

(** The second half: the packages under every scope directory. *)
Fixpoint scopesOf (listing : list (string * node))
  : result (list Package) :=
  match listing with
  | [] => Ok []
  | (f, child) :: rest =>
      if Str.starts_with "@" f && isDirectory child then
        let+ found := findPackages (Posix.join [p; f]) child in
        let+ others := scopesOf rest in
        Ok (found ++ others)
      else scopesOf rest
  end.

End Listing.

(** [findPackages(p)], on what [p] names. *)
Fixpoint findPackagesIn (p : string) (here : node) {struct here}
  : result (list Package) :=
  match here with
  | File _ => Ok []
  | Dir listing =>
      let+ ofPackages := packagesOf findPackagesIn p listing in
      let+ ofScopes := scopesOf findPackagesIn p listing in
      Ok (ofPackages ++ ofScopes)
  end.

(** [findPackages()], in the working directory [cwd]. *)
Definition findPackages (cwd : list (string * node))
  : result (list Package) :=
  match entry "node_modules" cwd with
  | Some here => findPackagesIn "node_modules" here
  | None => Ok []
  end.

End Scan.

(** [findScopes()], in the working directory [cwd]. *)
Definition findScopes (cwd : list (string * node)) : list string :=
  match entry "node_modules" cwd with
  | Some (Dir listing) =>
      (λ f, Str.strip_prefix "node_modules/" (Posix.join ["node_modules"; f]))
        <$> (filter (λ fn : string * node,
                       Str.starts_with "@" fn.1 = true ∧
                       isDirectory fn.2 = true) listing).*1
  | _ => []
  end.

(** [fs.readFileSync(p)] for a name [p] in the working directory. *)
Definition readFileSync (p : string) (cwd : list (string * node))
  : result string :=
  readIn p (Dir cwd).

(** ** [flattenDependencies] *)

(** [Object.keys(targetDeps || {})]. *)
Definition keys (targetDeps : option dict) : list string :=
  (default [] targetDeps).*1.

Section Resolver.

(** The objects of the run, and the index [pkgsMap] of [main]. *)
Variable pkgs : list Package.
Variable pkgsMap : gmap string ref.

Definition obj (r : ref) : Package := pkgs !!! r.

(** The [while (dirSegments.length)] loop.  [dirSegments] is the prefix
    of length [n] of [segs]; [pop()] makes it one shorter. *)
Fixpoint lookupNested (segs : list string) (targetDep : string) (n : nat)
  : option ref :=
  match n with
  | 0 => None
  | S n' =>
      let dirSegments := take n segs in
      let maybe := Posix.join (dirSegments ++ ["node_modules"; targetDep]) in
      match pkgsMap !! maybe with
      | Some found => Some found
      | None => lookupNested segs targetDep n'
      end
  end.

Definition missing_dep_message (targetDep dir : string) : string :=
  "Could not find required dep " +:+ targetDep +:+ " of " +:+ dir.

(** The callback of the first [.map] of [findDeps]; [null] is [None]. *)
Definition lookupDep (dep : ref) (required : bool) (targetDep : string)
  : outcome (option ref) :=
  let dirSegments := Str.split Str.slash (_dir (obj dep)) in
  match lookupNested dirSegments targetDep (length dirSegments) with
  | Some found => Done (Some found)
  | None =>
      match pkgsMap !! targetDep with
      | Some found => Done (Some found)
      | None =>
          if required
          then Throw (missing_dep_message targetDep (_dir (obj dep)))
          else Done None
      end
  end.

(** [findDeps(targetDeps, required)]: every name is looked up first,
    the [null]s are filtered out, and then the found packages are
    flattened one after the other.  [flatten] is the recursive call. *)
Definition findDeps (flatten : list ref → ref → outcome (list ref))
    (dep : ref) (targetDeps : option dict) (required : bool)
    (deps : list ref) : outcome (list ref) :=
  let* found := mapO (lookupDep dep required) (keys targetDeps) in
  foldO flatten deps (omap id found).

(** [flattenDependencies(pkg, dep, pkgsMap)], on the array
    [deps = pkg._dependencies]. *)
Fixpoint flattenDependencies (fuel : nat) (deps : list ref) (dep : ref)
  : outcome (list ref) :=
  match fuel with
  | 0 => OutOfFuel
  | S fuel' =>
      if decide (dep ∈ deps) then Done deps
      else
        let deps := deps ++ [dep] in
        let flatten := flattenDependencies fuel' in
        let* deps := findDeps flatten dep (dependencies (obj dep)) true deps in
        let* deps := findDeps flatten dep (peerDependencies (obj dep)) true deps in
        findDeps flatten dep (optionalDependencies (obj dep)) false deps
  end.

End Resolver.

(** [pkgs.forEach(pkg => pkgsMap.set(pkg._dir, pkg))]. *)
Definition buildMap (pkgs : list Package) : gmap string ref :=
  fold_left (λ m ipkg, <[_dir ipkg.2 := ipkg.1]> m) (imap pair pkgs) ∅.

(** Fuel that always suffices: one level of recursion per object. *)
Definition enough (pkgs : list Package) : nat := S (length pkgs).

(** [flattenDependencies(pkg, pkg, pkgsMap)] on a [pkg] whose
    [_dependencies] is [deps]. *)
Definition resolveFrom (pkgs : list Package) (deps : list ref) (pkg : ref)
  : outcome (list ref) :=
  flattenDependencies pkgs (buildMap pkgs) (enough pkgs) deps pkg.

(** The same as [main] calls it, on a freshly parsed [pkg], whose
    [_dependencies] is empty. *)
Definition resolve (pkgs : list Package) (pkg : ref) : outcome (list ref) :=
  resolveFrom pkgs [] pkg.

(** ** [printJson], [printPackage], [printScope] *)

Definition lines (l : list string) : string := Str.join Str.nl l.

(** The template [":${dir}__files",]. *)
Definition files_entry (dir : string) : string :=
  Str.dq +:+ ":" +:+ dir +:+ "__files" +:+ Str.dq +:+ ",".

(** The text of the constant [BUILD_FILE_HEADER], line by line. *)
Definition BUILD_FILE_HEADER : string :=
  lines
  [ "# Generated file from yarn_install rule.";
    "# See $(bazel info output_base)/external/build_bazel_rules_nodejs/internal/npm_install/generate_build_file.js";
    "";
    "# All rules in other repositories can use these targets";
    "package(default_visibility = [" +:+ Str.dq +:+ "//visibility:public" +:+ Str.dq +:+ "])";
    "";
    "load(" +:+ Str.dq +:+ "@build_bazel_rules_nodejs//:defs.bzl" +:+ Str.dq +:+ ", " +:+ Str.dq +:+ "nodejs_binary" +:+ Str.dq +:+ ")";
    "";
    "# The entire node_modules directory in one catch-all filegroup.";
    "# NB: Using this target may have bad performance implications if";
    "# there are many files in filegroup.";
    "# See https://github.com/bazelbuild/bazel/issues/5153.";
    "filegroup(";
    "    name = " +:+ Str.dq +:+ "node_modules" +:+ Str.dq +:+ ",";
    "    srcs = glob(";
    "        include = [" +:+ Str.dq +:+ "node_modules/**/*" +:+ Str.dq +:+ "],";
    "        exclude = [";
    "          # Files under test & docs may contain file names that";
    "          # are not legal Bazel labels (e.g.,";
    "          # node_modules/ecstatic/test/public/中文/檔案.html)";
    "          " +:+ Str.dq +:+ "node_modules/**/test/**" +:+ Str.dq +:+ ",";
    "          " +:+ Str.dq +:+ "node_modules/**/docs/**" +:+ Str.dq +:+ ",";
    "          # Files with spaces in the name are not legal Bazel labels";
    "          " +:+ Str.dq +:+ "node_modules/**/* */**" +:+ Str.dq +:+ ",";
    "          " +:+ Str.dq +:+ "node_modules/**/* *" +:+ Str.dq +:+ ",";
    "        ],";
    "    ),";
    ")";
    "";
    "# A lite version of the node_modules filegroup that includes";
    "# only js, d.ts and json files as well as the .bin folder. This can";
    "# be used in some cases to improve performance by reducing the number";
    "# of runfiles. The recommended approach to reducing performance";
    "# is to use fine grained deps such as [" +:+ Str.dq +:+ "@npm//:a" +:+ Str.dq +:+ ", " +:+ Str.dq +:+ "@npm://b" +:+ Str.dq +:+ ", ...].";
    "# There are cases where the node_modules_lite filegroup will";
    "# not include files with no extension that are needed. The feature request";
    "# https://github.com/bazelbuild/bazel/issues/5769 would allow this";
    "# filegroup to include those files.";
    "filegroup(";
    "    name = " +:+ Str.dq +:+ "node_modules_lite" +:+ Str.dq +:+ ",";
    "    srcs = glob(";
    "        include = [";
    "          " +:+ Str.dq +:+ "node_modules/**/*.js" +:+ Str.dq +:+ ",";
    "          " +:+ Str.dq +:+ "node_modules/**/*.d.ts" +:+ Str.dq +:+ ",";
    "          " +:+ Str.dq +:+ "node_modules/**/*.json" +:+ Str.dq +:+ ",";
    "          " +:+ Str.dq +:+ "node_modules/.bin/*" +:+ Str.dq +:+ ",";
    "        ],";
    "        exclude = [";
    "          # Files under test & docs may contain file names that";
    "          # are not legal Bazel labels (e.g.,";
    "          # node_modules/ecstatic/test/public/中文/檔案.html)";
    "          " +:+ Str.dq +:+ "node_modules/**/test/**" +:+ Str.dq +:+ ",";
    "          " +:+ Str.dq +:+ "node_modules/**/docs/**" +:+ Str.dq +:+ ",";
    "          # Files with spaces in the name are not legal Bazel labels";
    "          " +:+ Str.dq +:+ "node_modules/**/* */**" +:+ Str.dq +:+ ",";
    "          " +:+ Str.dq +:+ "node_modules/**/* *" +:+ Str.dq +:+ ",";
    "        ],";
    "    ),";
    ")";
    "";
    "" ].

Section Emit.

(** [JSON.stringify(cloned, null, 2)] of the runtime, applied to a
    package object whose [_dependencies] have been replaced by their
    directories. *)
Variable JSON_stringify : Package → list string → string.

Variable pkgs : list Package.

Definition printJson (pkg : ref) (deps : list ref) : string :=
  let cloned_dependencies := (λ dep, _dir (obj pkgs dep)) <$> deps in
  Str.join Str.nl
    ((λ line, "# " +:+ line) <$>
     Str.split "010"%char (JSON_stringify (obj pkgs pkg) cloned_dependencies)).

(** The entries that follow the package's own in [srcs] of the first
    [filegroup]: [pkg._dependencies.filter(dep => dep != pkg)
    .filter(dep => !dep._isNested).map(dep => ...)]. *)
Definition dependency_entries (pkg : ref) (deps : list ref) : list string :=
  (λ dep, files_entry (_dir (obj pkgs dep))) <$>
  filter (λ dep, _isNested (obj pkgs dep) = false)
         (filter (λ dep, dep ≠ pkg) deps).

(** [srcs] of the first [filegroup], comments left out. *)
Definition aggregate_srcs (pkg : ref) (deps : list ref) : list string :=
  files_entry (_dir (obj pkgs pkg)) :: dependency_entries pkg deps.

Definition glob_excludes (dir : string) : list string :=
  [ "        exclude = [";
    "          # Files under test & docs may contain file names that";
    "          # are not legal Bazel labels (e.g.,";
    "          # node_modules/ecstatic/test/public/中文/檔案.html)";
    "          " +:+ Str.dq +:+ "node_modules/" +:+ dir +:+ "/test/**" +:+ Str.dq +:+ ",";
    "          " +:+ Str.dq +:+ "node_modules/" +:+ dir +:+ "/docs/**" +:+ Str.dq +:+ ",";
    "          # Files with spaces in the name are not legal Bazel labels";
    "          " +:+ Str.dq +:+ "node_modules/" +:+ dir +:+ "/**/* */**" +:+ Str.dq +:+ ",";
    "          " +:+ Str.dq +:+ "node_modules/" +:+ dir +:+ "/**/* *" +:+ Str.dq +:+ ",";
    "        ],";
    "    ),";
    "    tags = [" +:+ Str.dq +:+ "NODE_MODULE_MARKER" +:+ Str.dq +:+ "],";
    ")" ].

Definition glob_filegroup (dir suffix pattern : string) : list string :=
  [ "filegroup(";
    "    name = " +:+ Str.dq +:+ dir +:+ suffix +:+ Str.dq +:+ ",";
    "    srcs = glob(";
    "        include = [" +:+ Str.dq +:+ "node_modules/" +:+ dir +:+ pattern
      +:+ Str.dq +:+ "]," ] ++ glob_excludes dir.

Definition printExecutable (dir : string) (entry : string * string) : string :=
  lines
    [ "# Wire up the `bin` entry `" +:+ entry.1 +:+ "`";
      "nodejs_binary(";
      "    name = " +:+ Str.dq +:+ dir +:+ "/" +:+ entry.1 +:+ Str.dq +:+ ",";
      "    entry_point = " +:+ Str.dq +:+ dir +:+ "/" +:+ entry.2 +:+ Str.dq +:+ ",";
      "    install_source_map_support = False,";
      "    data = [" +:+ Str.dq +:+ ":" +:+ dir +:+ Str.dq +:+ "],";
      ")";
      "";
      "" ].

Definition printPackage (pkg : ref) (deps : list ref) : string :=
  let dir := _dir (obj pkgs pkg) in
  lines
    ([ "";
       "# Generated target for npm package " +:+ Str.dq +:+ dir +:+ Str.dq;
       printJson pkg deps;
       "filegroup(";
       "    name = " +:+ Str.dq +:+ dir +:+ Str.dq +:+ ",";
       "    srcs = [";
       "        # " +:+ dir +:+ " package contents (and contents of nested node_modules)";
       "        " +:+ files_entry dir;
       "        # direct or transitive dependencies hoisted to root by the package manager";
       "        " +:+ Str.join (Str.nl +:+ "        ") (dependency_entries pkg deps);
       "    ],";
       "    tags = [" +:+ Str.dq +:+ "NODE_MODULE_MARKER" +:+ Str.dq +:+ "],";
       ")";
       "" ]
     ++ glob_filegroup dir "__files" "/**/*" ++ [ "" ]
     ++ glob_filegroup dir "__typings" "/**/*.d.ts" ++ [ "" ])
  +:+ Str.join "" (printExecutable dir <$> _executables (obj pkgs pkg)).

Definition printScope (scope : string) : string :=
  let scopePkgs :=
    filter (λ pkg : Package,
              _isNested pkg = false ∧
              Str.starts_with (scope +:+ "/") (_dir pkg) = true) pkgs in
  lines
    [ "";
      "# Generated target for npm scope " +:+ scope;
      "filegroup(";
      "    name = " +:+ Str.dq +:+ scope +:+ Str.dq +:+ ",";
      "    srcs = [";
      "        " +:+ Str.join (Str.nl +:+ "        ")
                     ((λ pkg, Str.dq +:+ ":" +:+ _dir pkg +:+ Str.dq +:+ ",")
                        <$> scopePkgs);
      "    ],";
      "    tags = [" +:+ Str.dq +:+ "NODE_MODULE_MARKER" +:+ Str.dq +:+ "],";
      ")";
      "";
      "" ].

End Emit.

(** ** [main] *)

(** A call of [fs.writeFileSync(file, data)]. *)
Abbreviation write := (string * string)%type (only parsing).

(** Computations of [main]: they end in an [outcome] and add to the log
    of the writes made so far. *)
Definition io (A : Type) : Type := list write → outcome A * list write.

Definition io_lift {A} (o : outcome A) : io A := λ log, (o, log).

Definition io_bind {A B} (c : io A) (k : A → io B) : io B :=
  λ log,
    match c log with
    | (Done a, log') => k a log'
    | (Throw msg, log') => (Throw msg, log')
    | (OutOfFuel, log') => (OutOfFuel, log')
    end.

Definition writeFileSync (file data : string) : io unit :=
  λ log, (Done (), log ++ [(file, data)]).

Notation "'io*' x := c 'in' k" := (io_bind c (λ x, k))
  (at level 10, x name, c at level 100, k at level 200).

(** [pkgs.forEach(pkg => flattenDependencies(pkg, pkg, pkgsMap))] on
    objects whose [_dependencies] arrays are [state], in the order of
    [pkgs]: the arrays afterwards. *)
Definition flattenAllFrom (pkgs : list Package) (state : list (list ref))
  : outcome (list (list ref)) :=
  mapO (λ pkg, resolveFrom pkgs (state !!! pkg) pkg) (seq 0 (length pkgs)).

(** The same on freshly parsed objects, as in [main]. *)
Definition flattenAll (pkgs : list Package) : outcome (list (list ref)) :=
  flattenAllFrom pkgs ((λ _, []) <$> pkgs).

Section Main.

Variable JSON_parse : string → result packageJson.
Variable JSON_stringify : Package → list string → string.

(** [buildFile] before the [try] block. *)
Definition generated (pkgs : list Package) (resolved : list (list ref))
    (scopes : list string) : string :=
  let printed :=
    (λ pkg, printPackage JSON_stringify pkgs pkg (resolved !!! pkg)) <$>
    filter (λ pkg, _isNested (obj pkgs pkg) = false) (seq 0 (length pkgs)) in
  BUILD_FILE_HEADER +:+ Str.join "" printed
    +:+ Str.join "" (printScope pkgs <$> scopes).

(** The [try { ... } catch (e) { }] block. *)
Definition append_manual (buildFile : string) (manual : result string)
  : string :=
  match manual with
  | Ok manualContents => (buildFile +:+ Str.nl +:+ Str.nl) +:+ manualContents
  | Failed _ => buildFile
  end.

(** [main()], in the working directory [cwd]. *)
Definition main (cwd : list (string * node)) : io unit :=
  io* pkgs := io_lift (of_result (findPackages JSON_parse cwd)) in
  let scopes := findScopes cwd in
  io* resolved := io_lift (flattenAll pkgs) in
  let buildFile := generated pkgs resolved scopes in
  let buildFile :=
    append_manual buildFile (readFileSync "manual_build_file_contents" cwd) in
  writeFileSync "BUILD.bazel" buildFile.

(** A run of the program: [main] started with nothing written. *)
Definition run (cwd : list (string * node)) : outcome unit * list write :=
  main cwd [].

End Main.

(** * Vocabulary of the statements *)

(** The names declared by a package, in any of the three mappings. *)
Definition declares (p : Package) (X : string) : Prop :=
  X ∈ keys (dependencies p) ∨ X ∈ keys (peerDependencies p) ∨
  X ∈ keys (optionalDependencies p).

(** [X] is a key of [dependencies] or of [peerDependencies]. *)
Definition requires (p : Package) (X : string) : Prop :=
  X ∈ keys (dependencies p) ∨ X ∈ keys (peerDependencies p).

(** A package whose only declared name is [X], as a required
    dependency. *)
Definition only_declares (p : Package) (X : string) : Prop :=
  keys (dependencies p) = [X] ∧ keys (peerDependencies p) = [] ∧
  keys (optionalDependencies p) = [].

(** Directories identify packages: no two objects of the run have the
    same [_dir] (they are distinct paths of one tree). *)
Definition unique_dirs (pkgs : list Package) : Prop := NoDup (_dir <$> pkgs).

(** How often [x] occurs in [l]. *)
Definition occurrences {A} `{EqDecision A} (x : A) (l : list A) : nat :=
  length (filter (λ y, y = x) l).

(** The packages among the first [N] that are not yet in
    [_dependencies]: each level of recursion removes one. *)
Definition unvisited (N : nat) (deps : list ref) : nat :=
  size (set_seq 0 N ∖ list_to_set deps : gset nat).

(** The candidate paths for a name [X] required from directory [dir],
    as the specification lists them: [<segments>/node_modules/X] for the
    segments of [dir], then with the last segment dropped, and so on
    down to one segment. *)
Definition candidate_paths (dir X : string) : list string :=
  let segments := Str.split Str.slash dir in
  (λ n, Posix.join (take n segments ++ ["node_modules"; X])) <$>
  reverse (seq 1 (length segments)).

(** A name of a directory entry: not empty, not [.] or [..], and
    without [/]. *)
Definition plain (seg : string) : Prop :=
  seg ≠ "" ∧ seg ≠ "." ∧ seg ≠ ".." ∧ Str.split Str.slash seg = [seg].

(** A relative path in normal form, such as [a/node_modules/b] or
    [@s/x]: its pieces are plain names. *)
Definition plain_path (path : string) : Prop :=
  Forall plain (Str.split Str.slash path).

(** The candidate paths written out: [<segments>/node_modules/X]. *)
Definition literal_candidates (dir X : string) : list string :=
  let segments := Str.split Str.slash dir in
  (λ n, Str.join "/" (take n segments) +:+ "/node_modules/" +:+ X) <$>
  reverse (seq 1 (length segments)).

(** Entries named as a file system names them: in a directory no
    name twice and every name plain, and so in every directory below. *)
Fixpoint well_formed (n : node) : Prop :=
  match n with
  | File _ => True
  | Dir listing =>
      NoDup listing.*1 ∧
      (fix entries (l : list (string * node)) : Prop :=
         match l with
         | [] => True
         | (f, child) :: l' => plain f ∧ well_formed child ∧ entries l'
         end) listing
  end.

(** The path [node_modules/<base>] of the directory reached from
    node_modules by the names [base]. *)
Definition path_of (base : list string) : string :=
  Str.join "/" ("node_modules" :: base).

(** The directories of [pkgs] are the paths of the distinct lists [rs]
    of plain names, each of which continues [base] by a name satisfying
    [heads]. *)
Definition placed (base : list string) (heads : string → Prop)
    (pkgs : list Package) (rs : list (list string)) : Prop :=
  _dir <$> pkgs = Str.join "/" <$> rs ∧ NoDup rs ∧
  Forall (λ r, Forall plain r ∧ ∃ f rest, r = base ++ f :: rest ∧ heads f) rs.

(** The scan of a well-formed directory places what it finds. *)
Definition scan_placed (JSON_parse : string → result packageJson)
    (here : node) : Prop :=
  well_formed here →
  ∀ base pkgs, Forall plain base →
    findPackagesIn JSON_parse (path_of base) here = Ok pkgs →
    ∃ rs, placed base (λ _, True) pkgs rs.

Definition entries_placed (JSON_parse : string → result packageJson)
    (here : node) : Prop :=
  match here with
  | Dir inside => Forall (λ fn, scan_placed JSON_parse fn.2) inside
  | File _ => True
  end.

(** The package of the first path that is in the index. *)
Definition first_present (pkgsMap : gmap string ref) (paths : list string)
  : option ref :=
  head (omap (λ path, pkgsMap !! path) paths).

(** [X] is found neither under an ancestor of [dir] nor at the root. *)
Definition unresolvable (pkgsMap : gmap string ref) (dir X : string) : Prop :=
  first_present pkgsMap (candidate_paths dir X ++ [X]) = None.

(** The lines of the attribute [srcs = [...]] of an aggregate target
    for [dir] whose entries are [srcs], as [printPackage] lays them
    out. *)
Definition srcs_attribute (dir : string) (srcs : list string) : list string :=
  [ "    srcs = [";
    "        # " +:+ dir +:+ " package contents (and contents of nested node_modules)";
    "        " +:+ default "" (head srcs);
    "        # direct or transitive dependencies hoisted to root by the package manager";
    "        " +:+ Str.join (Str.nl +:+ "        ") (tail srcs);
    "    ]," ].

(** The scan of the directory [here], named [p], reads a package.json
    that cannot be read or parsed: that of a package of the directory,
    or one met under the node_modules of such a package, or under a
    scope directory. *)
Inductive meets_malformed (JSON_parse : string → result packageJson)
  : string → node → Prop :=
| malformed_package p listing f child err :
    (f, child) ∈ listing →
    Str.starts_with "@" f = false → isPackage child = true →
    parsePackageFile JSON_parse (Posix.join [p; f])
                     (readIn "package.json" child) = Failed err →
    meets_malformed JSON_parse p (Dir listing)
| malformed_nested p listing f inside nested :
    (f, Dir inside) ∈ listing →
    Str.starts_with "@" f = false → isPackage (Dir inside) = true →
    entry "node_modules" inside = Some nested →
    meets_malformed JSON_parse
      (Posix.join [Posix.join [p; f]; "node_modules"]) nested →
    meets_malformed JSON_parse p (Dir listing)
| malformed_scoped p listing f child :
    (f, child) ∈ listing →
    Str.starts_with "@" f = true → isDirectory child = true →
    meets_malformed JSON_parse (Posix.join [p; f]) child →
    meets_malformed JSON_parse p (Dir listing).

(** The package with the name [X] taken out of its
    [optionalDependencies]. *)
Definition without_optional (X : string) (p : Package) : Package :=
  {| name := name p;
     version := version p;
     dependencies := dependencies p;
     peerDependencies := peerDependencies p;
     optionalDependencies :=
       filter (λ kv : string * string, kv.1 ≠ X) <$> optionalDependencies p;
     bin := bin p;
     _dir := _dir p;
     _isNested := _isNested p;
     _executables := _executables p |}.

(** A path as the specification normalises it: every backslash
    replaced by a forward slash, then one leading [./] removed. *)
Definition normalized_path (s : string) : string :=
  let replaced := Str.replace_all Str.backslash Str.slash s in
  match replaced with
  | String "."%char (String "/"%char rest) => rest
  | _ => replaced
  end.

(** [dep] declares a name that the lookup resolves to the package
    [r]. *)
Definition depends_on (pkgs : list Package) (pkgsMap : gmap string ref)
    (dep r : ref) : Prop :=
  ∃ X required, declares (obj pkgs dep) X ∧
                lookupDep pkgs pkgsMap dep required X = Done (Some r).

(** The package at position [i] of [deps] was found for a name
    declared by a package at an earlier position. *)
Definition brought_in (pkgs : list Package) (pkgsMap : gmap string ref)
    (deps : list ref) (i : nat) : Prop :=
  ∃ (j : nat) (d r : ref),
    j < i ∧ deps !! j = Some d ∧ deps !! i = Some r ∧
    depends_on pkgs pkgsMap d r.

(** The scan of the directory [here], named [p], comes upon the package
    [pkg]: that of a package directory among the entries, or one under
    the node_modules of such a directory, or one under a scope
    directory. *)
Inductive finds (JSON_parse : string → result packageJson)
  : string → node → Package → Prop :=
| finds_package p listing f child pkg :
    (f, child) ∈ listing →
    Str.starts_with "@" f = false → isPackage child = true →
    parsePackageFile JSON_parse (Posix.join [p; f])
                     (readIn "package.json" child) = Ok pkg →
    finds JSON_parse p (Dir listing) pkg
| finds_nested p listing f inside nested pkg :
    (f, Dir inside) ∈ listing →
    Str.starts_with "@" f = false → isPackage (Dir inside) = true →
    entry "node_modules" inside = Some nested →
    finds JSON_parse
      (Posix.join [Posix.join [p; f]; "node_modules"]) nested pkg →
    finds JSON_parse p (Dir listing) pkg
| finds_scoped p listing f child pkg :
    (f, child) ∈ listing →
    Str.starts_with "@" f = true → isDirectory child = true →
    finds JSON_parse (Posix.join [p; f]) child pkg →
    finds JSON_parse p (Dir listing) pkg.

(** A property of a directory and of each of its entries. *)
Definition and_entries (P : node → Prop) (here : node) : Prop :=
  P here ∧
  match here with
  | Dir inside => Forall (λ fn, P fn.2) inside
  | File _ => True
  end.

(** The pieces of a directory contain [node_modules] before the
    last. *)
Definition inner_node_modules (pieces : list string) : Prop :=
  ∃ before after, after ≠ [] ∧ pieces = before ++ "node_modules" :: after.

(** [scopePkgs] of [printScope]: [pkgs.filter(pkg => !pkg._isNested &&
    pkg._dir.startsWith(`${scope}/`))]. *)
Definition scopePkgs (pkgs : list Package) (scope : string) : list Package :=
  filter (λ pkg : Package,
            _isNested pkg = false ∧
            Str.starts_with (scope +:+ "/") (_dir pkg) = true) pkgs.

(** The template [":${pkg._dir}",] of [printScope]. *)
Definition scope_entry (dir : string) : string :=
  Str.dq +:+ ":" +:+ dir +:+ Str.dq +:+ ",".

(** The names of the scope directories among the entries of
    node_modules. *)
Definition scope_names (listing : list (string * node)) : list string :=
  (filter (λ fn : string * node,
             Str.starts_with "@" fn.1 = true ∧ isDirectory fn.2 = true)
          listing).*1.

(** * Sample install trees *)

Module Samples.

(** A package.json with the given name and dependency names, every
    version range being [*]. *)
Definition manifest (pkg_name : string) (deps peers optional : list string)
    (bin : binField) : packageJson :=
  let ranges := fmap (λ X : string, (X, "*")) in
  {| json_name := pkg_name;
     json_version := "1.0.0";
     json_dependencies := Some (ranges deps);
     json_peerDependencies := Some (ranges peers);
     json_optionalDependencies := Some (ranges optional);
     json_bin := bin |}.

(** The package object for a directory [dir] under node_modules. *)
Definition package (dir : string) (deps peers optional : list string)
  : Package :=
  parsePackage ("node_modules/" +:+ dir)
               (manifest dir deps peers optional BinAbsent).

(** [a] and [b] depend on each other. *)
Definition cycle_tree : list Package :=
  [ package "a" ["b"] [] []; package "b" ["a"] [] [] ].

(** [a] has a private copy of [x]; another [x] is hoisted to the
    root. *)
Definition shadow_tree : list Package :=
  [ package "a" ["x"] [] [];
    package "a/node_modules/x" [] [] [];
    package "x" [] [] [] ].

(** [a] requires [y] and optionally wants [z]; neither is installed. *)
Definition broken_tree : list Package :=
  [ package "a" ["x"; "y"] [] ["z"]; package "x" [] [] [] ].

(** The end-to-end example of the specification. *)
Definition left_right : list Package :=
  [ package "left" ["right"] [] []; package "right" [] [] [] ].

(** Package [bar] installed under the alias [foo], with one
    executable. *)
Definition aliased : packageJson :=
  manifest "bar" [] [] [] (BinString "./cli.js").

Definition stringify_stub (pkg : Package) (dirs : list string) : string :=
  "{}".

(** A stand-in for [JSON.parse]: the texts it accepts are those of this
    table. *)
Definition manifests : list (string * packageJson) :=
  [ ("{a: x, y, z?}", manifest "a" ["x"; "y"] [] ["z"] BinAbsent);
    ("{a: x}", manifest "a" ["x"] [] [] BinAbsent);
    ("{a/node_modules/x}", manifest "a/node_modules/x" [] [] [] BinAbsent);
    ("{x}", manifest "x" [] [] [] BinAbsent);
    ("{left: right}", manifest "left" ["right"] [] [] BinAbsent);
    ("{right}", manifest "right" [] [] [] BinAbsent) ].

Definition parse_stub (text : string) : result packageJson :=
  match list_find (λ entry : string * packageJson, entry.1 = text) manifests with
  | Some (_, (_, json)) => Ok json
  | None => Failed "SyntaxError: Unexpected token in JSON"
  end.

(** A package directory: its package.json and what else is in it. *)
Definition package_dir (text : string) (others : list (string * node))
  : node :=
  Dir (("package.json", File (Ok text)) :: others).

(** [broken_tree] on disk, without a manual fragment. *)
Definition broken_disk : list (string * node) :=
  [ ("node_modules",
     Dir [ ("a", package_dir "{a: x, y, z?}" []);
           ("x", package_dir "{x}" []) ]) ].

(** [shadow_tree] on disk, with a stray file and an empty scope. *)
Definition shadow_disk : list (string * node) :=
  [ ("node_modules",
     Dir [ (".yarn-integrity", File (Ok ""));
           ("@s", Dir []);
           ("a", package_dir "{a: x}"
                   [ ("node_modules",
                      Dir [ ("x", package_dir "{a/node_modules/x}" []) ]) ]);
           ("x", package_dir "{x}" []) ]) ].

(** [left_right] on disk, with a manual fragment that cannot be
    read. *)
Definition unreadable_disk : list (string * node) :=
  [ ("node_modules",
     Dir [ ("left", package_dir "{left: right}" []);
           ("right", package_dir "{right}" []) ]);
    ("manual_build_file_contents",
     File (Failed "EACCES: permission denied")) ].

(** A package whose package.json is cut short. *)
Definition malformed_disk : list (string * node) :=
  [ ("node_modules",
     Dir [ ("right", package_dir "{right}" []);
           ("left", package_dir "{" []) ]) ].

(** [a] requires [x] and [y]; neither is installed. *)
Definition both_missing : list Package := [ package "a" ["x"; "y"] [] [] ].

(** [a] requires [b] and, as a peer, [p], which is not installed; [b]
    requires [q], which is not installed either. *)
Definition deep_missing : list Package :=
  [ package "a" ["b"] ["p"] []; package "b" ["q"] [] [] ].

(** [a] requires [b] and, as a peer, [p], which is not installed. *)
Definition peer_missing : list Package :=
  [ package "a" ["b"] ["p"] []; package "b" [] [] [] ].

(** A stand-in for [JSON.parse] that accepts every text, as the
    package.json of a package of that name without dependencies. *)
Definition parse_name (text : string) : result packageJson :=
  Ok (manifest text [] [] [] BinAbsent).

(** Two packages under the scope [@s] and one beside it. *)
Definition scoped_disk : list (string * node) :=
  [ ("node_modules",
     Dir [ ("@s", Dir [ ("a", package_dir "@s/a" []);
                        ("b", package_dir "@s/b" []) ]);
           ("c", package_dir "c" []) ]) ].

(** What the scan of [scoped_disk] returns: the packages beside the
    scopes first. *)
Definition scoped_tree : list Package :=
  [ package "c" [] [] []; package "@s/a" [] [] []; package "@s/b" [] [] [] ].

End Samples.

(** * Properties *)

(** ** Sequencing *)

Lemma bind_Done {A B} (o : outcome A) (k : A → outcome B) (b : B) :
  bind o k = Done b ↔ ∃ a, o = Done a ∧ k a = Done b.
Proof.
  destruct o; simpl; (split; [intros H | intros H; decompose [ex and or] H]);
    try discriminate; simplify_eq; eauto.
Qed.

Lemma bind_Throw {A B} (o : outcome A) (k : A → outcome B) (msg : string) :
  bind o k = Throw msg ↔ o = Throw msg ∨ ∃ a, o = Done a ∧ k a = Throw msg.
Proof.
  destruct o; simpl; (split; [intros H | intros H; decompose [ex and or] H]);
    try discriminate; simplify_eq; eauto.
Qed.

Lemma bind_OutOfFuel {A B} (o : outcome A) (k : A → outcome B) :
  bind o k = OutOfFuel ↔ o = OutOfFuel ∨ ∃ a, o = Done a ∧ k a = OutOfFuel.
Proof.
  destruct o; simpl; (split; [intros H | intros H; decompose [ex and or] H]);
    try discriminate; simplify_eq; eauto.
Qed.

Lemma foldO_ext {A S} (f g : S → A → outcome S) (s : S) (l : list A) :
  (∀ s' x, x ∈ l → f s' x = g s' x) → foldO f s l = foldO g s l.
Proof.
  revert s. induction l as [|x l IH]; intros s Hfg; simpl; [done|].
  rewrite Hfg by left. destruct (g s x); simpl; [|done..].
  apply IH. intros; apply Hfg. by right.
Qed.

(** A relation between states that every step respects is respected by
    the whole traversal. *)
Lemma foldO_rel {A S} (R : S → S → Prop) (f : S → A → outcome S) l :
  (∀ s, R s s) →
  (∀ s1 s2 s3, R s1 s2 → R s2 s3 → R s1 s3) →
  (∀ s x s', x ∈ l → f s x = Done s' → R s s') →
  ∀ s s', foldO f s l = Done s' → R s s'.
Proof.
  intros Hrefl Htrans. induction l as [|x l IH]; intros Hf s s' Hfold; simpl in *.
  - by simplify_eq.
  - apply bind_Done in Hfold as (s1 & Hx & Hrest).
    eapply Htrans; [eapply Hf; [left|done]|].
    eapply IH; [|done]. intros; eapply Hf; [by right|done].
Qed.

(** The traversal does not run out of fuel when no step does, from any
    state it can reach. *)
Lemma foldO_fuel {A S} (I : S → Prop) (f : S → A → outcome S) l :
  (∀ s x s', x ∈ l → I s → f s x = Done s' → I s') →
  (∀ s x, x ∈ l → I s → f s x ≠ OutOfFuel) →
  ∀ s, I s → foldO f s l ≠ OutOfFuel.
Proof.
  induction l as [|x l IH]; intros Hpres Hfuel s Hs; simpl; [done|].
  intros [Hx | (s1 & Hx & Hrest)]%bind_OutOfFuel.
  - by eapply Hfuel; [left|..].
  - eapply IH; [..|exact Hrest]; eauto using list_elem_of_further.
    eapply Hpres; [left|done..].
Qed.

Lemma mapO_Done {A B} (f : A → outcome B) l ys :
  mapO f l = Done ys → Forall2 (λ x y, f x = Done y) l ys.
Proof.
  revert ys. induction l as [|x l IH]; intros ys H; simpl in *.
  - simplify_eq. constructor.
  - apply bind_Done in H as (y & Hy & H).
    apply bind_Done in H as (ys' & Hys & H). simplify_eq.
    constructor; auto.
Qed.

Lemma mapO_Throw {A B} (f : A → outcome B) l msg :
  mapO f l = Throw msg → ∃ x, x ∈ l ∧ f x = Throw msg.
Proof.
  induction l as [|x l IH]; simpl; [done|].
  intros [Hx | (y & Hy & H)]%bind_Throw.
  - exists x. split; [left|done].
  - apply bind_Throw in H as [H | (ys & _ & H)]; [|done].
    destruct (IH H) as (x' & ? & ?). exists x'. split; [by right|done].
Qed.

Lemma mapO_fuel {A B} (f : A → outcome B) l :
  (∀ x, x ∈ l → f x ≠ OutOfFuel) → mapO f l ≠ OutOfFuel.
Proof.
  induction l as [|x l IH]; intros Hf; simpl; [done|].
  intros [Hx | (y & Hy & H)]%bind_OutOfFuel.
  - by eapply Hf; [left|].
  - apply bind_OutOfFuel in H as [H | (ys & _ & H)]; [|done].
    eapply IH; [|done]. intros; apply Hf. by right.
Qed.

(** An element that throws, after elements that all return, makes the
    traversal throw the same exception. *)
Lemma mapO_first_Throw {A B} (f : A → outcome B) l1 x l2 msg :
  (∀ y, y ∈ l1 → ∃ b, f y = Done b) → f x = Throw msg →
  mapO f (l1 ++ x :: l2) = Throw msg.
Proof.
  induction l1 as [|y l1 IH]; intros Hl1 Hx; simpl.
  - by rewrite Hx.
  - destruct (Hl1 y) as [b ->]; [left|]. simpl.
    rewrite IH; [done| |done]. intros; apply Hl1. by right.
Qed.

(** ** The resolver *)

Section ResolverFacts.

Variable pkgs : list Package.
Variable pkgsMap : gmap string ref.

Local Abbreviation flatten := (flattenDependencies pkgs pkgsMap).
Local Abbreviation lookup_dep := (lookupDep pkgs pkgsMap).

Lemma lookupNested_Some segs X n r :
  lookupNested pkgsMap segs X n = Some r → ∃ d, pkgsMap !! d = Some r.
Proof.
  induction n as [|n IH]; simpl; [done|].
  destruct (pkgsMap !! _) eqn:E; [|done]. intros [= <-]. eauto.
Qed.

(** A package that a name resolves to is one of the index. *)
Lemma lookupDep_indexed dep required X r :
  lookup_dep dep required X = Done (Some r) → ∃ d, pkgsMap !! d = Some r.
Proof.
  unfold lookupDep.
  destruct (lookupNested _ _ _ _) eqn:E.
  - intros [= <-]. eauto using lookupNested_Some.
  - destruct (pkgsMap !! X) eqn:E'; [intros [= <-]; eauto|].
    by destruct required.
Qed.

Lemma lookupDep_fuel dep required X : lookup_dep dep required X ≠ OutOfFuel.
Proof.
  unfold lookupDep. destruct (lookupNested _ _ _ _); [done|].
  destruct (pkgsMap !! X); [done|]. by destruct required.
Qed.

Lemma findDeps_Done f dep td required deps deps' :
  findDeps pkgs pkgsMap f dep td required deps = Done deps' ↔
  ∃ found, mapO (lookup_dep dep required) (keys td) = Done found ∧
           foldO f deps (omap id found) = Done deps'.
Proof. apply bind_Done. Qed.

(** The packages [findDeps] flattens are packages of the index. *)
Lemma found_indexed dep required ks found r :
  mapO (lookup_dep dep required) ks = Done found →
  r ∈ omap id found → ∃ d, pkgsMap !! d = Some r.
Proof.
  intros Hall%mapO_Done Hr.
  apply list_elem_of_omap in Hr as (o & Ho & Hid). simpl in Hid. subst o.
  apply list_elem_of_lookup in Ho as [i Hi].
  destruct (Forall2_lookup_r _ _ _ _ _ Hall Hi) as (X & _ & HX).
  eauto using lookupDep_indexed.
Qed.

(** Every name that resolves contributes its package to what
    [findDeps] flattens. *)
Lemma found_complete dep required ks found X r :
  mapO (lookup_dep dep required) ks = Done found →
  X ∈ ks → lookup_dep dep required X = Done (Some r) →
  r ∈ omap id found.
Proof.
  intros Hall%mapO_Done HX Hr.
  apply list_elem_of_lookup in HX as [i Hi].
  destruct (Forall2_lookup_l _ _ _ _ _ Hall Hi) as (o & Ho & HXo).
  rewrite Hr in HXo. simplify_eq.
  apply list_elem_of_omap. exists (Some r). split; [|done].
  by eapply list_elem_of_lookup_2.
Qed.

(** What [findDeps] flattens was found for one of the names. *)
Lemma found_declared dep required ks found (r : ref) :
  mapO (lookup_dep dep required) ks = Done found →
  r ∈ omap id found →
  ∃ X, X ∈ ks ∧ lookup_dep dep required X = Done (Some r).
Proof.
  intros Hall%mapO_Done Hr.
  apply list_elem_of_omap in Hr as (o & Ho & Hid). simpl in Hid. subst o.
  apply list_elem_of_lookup in Ho as [i Hi].
  destruct (Forall2_lookup_r _ _ _ _ _ Hall Hi) as (X & HX & HXr).
  exists X. split; [by eapply list_elem_of_lookup_2|done].
Qed.

(** A relation on [_dependencies] that holds across every [push] of an
    acceptable package holds across every call. *)
Lemma flatten_rel (R : list ref → list ref → Prop) (Q : ref → Prop) :
  (∀ s, R s s) →
  (∀ s1 s2 s3, R s1 s2 → R s2 s3 → R s1 s3) →
  (∀ deps dep, Q dep → dep ∉ deps → R deps (deps ++ [dep])) →
  (∀ d r, pkgsMap !! d = Some r → Q r) →
  ∀ fuel deps dep deps',
    Q dep → flatten fuel deps dep = Done deps' → R deps deps'.
Proof.
  intros Hrefl Htrans Hpush HQ. induction fuel as [|fuel IH]; [done|].
  intros deps dep deps' Hdep. simpl.
  destruct (decide (dep ∈ deps)) as [Hin|Hin]; [by intros [= <-]|].
  assert (∀ td required s s',
    findDeps pkgs pkgsMap (flatten fuel) dep td required s = Done s' → R s s')
    as Hfind.
  { intros td required s s' (found & Hfound & Hfold)%findDeps_Done.
    eapply (foldO_rel R); [done..| |exact Hfold].
    intros s1 r s2 Hr. apply IH.
    destruct (found_indexed _ _ _ _ _ Hfound Hr) as [d Hd]. eauto. }
  intros (s1 & H1 & (s2 & H2 & H3)%bind_Done)%bind_Done.
  eapply Htrans; [by apply Hpush|].
  eapply Htrans; [by eapply Hfind|].
  eapply Htrans; by eapply Hfind.
Qed.

(** [_dependencies] only grows, at its end. *)
Lemma flatten_prefix fuel deps dep deps' :
  flatten fuel deps dep = Done deps' → deps `prefix_of` deps'.
Proof.
  apply (flatten_rel prefix (λ _, True)); try done.
  - by intros ??? ?; etrans.
  - intros. by apply prefix_app_r.
Qed.

Lemma flatten_NoDup fuel deps dep deps' :
  NoDup deps → flatten fuel deps dep = Done deps' → NoDup deps'.
Proof.
  intros Hnd Hflat. revert Hflat Hnd.
  apply (flatten_rel (λ s s', NoDup s → NoDup s') (λ _, True)); try done.
  - auto.
  - intros s r _ Hr Hs. apply NoDup_app. repeat split; [done| |apply NoDup_singleton].
    intros x Hx ->%list_elem_of_singleton. done.
Qed.

Lemma flatten_Forall (Q : ref → Prop) fuel deps dep deps' :
  (∀ d r, pkgsMap !! d = Some r → Q r) →
  Q dep → Forall Q deps → flatten fuel deps dep = Done deps' → Forall Q deps'.
Proof.
  intros HQ Hdep Hdeps Hflat. revert Hflat Hdeps.
  apply (flatten_rel (λ s s', Forall Q s → Forall Q s') Q); try done.
  - auto.
  - intros s r Hr _ Hs. apply Forall_app. split; [done|]. by constructor.
Qed.

End ResolverFacts.

(** ** Termination of the resolver *)

(** Visiting more leaves less to visit. *)
Lemma unvisited_subseteq N (deps deps' : list ref) :
  (∀ r, r ∈ deps → r ∈ deps') →
  (set_seq 0 N ∖ list_to_set deps' : gset nat)
  ⊆ set_seq 0 N ∖ list_to_set deps.
Proof.
  intros Hsub r. rewrite !elem_of_difference, !elem_of_list_to_set.
  intros [Hr Hnotin]. split; [done|]. intros Hin. by apply Hnotin, Hsub.
Qed.

Lemma unvisited_push N deps (dep : ref) :
  dep < N → dep ∉ deps → unvisited N (deps ++ [dep]) < unvisited N deps.
Proof.
  intros Hlt Hnotin. apply subset_size. split.
  - apply unvisited_subseteq. intros r Hr. apply elem_of_app. by left.
  - intros Hsub. specialize (Hsub dep).
    rewrite !elem_of_difference, !elem_of_list_to_set, elem_of_set_seq in Hsub.
    destruct Hsub as [_ Hn]; [split; [lia|done]|].
    apply Hn, elem_of_app. right. by apply list_elem_of_singleton.
Qed.

Lemma unvisited_mono N deps deps' :
  deps `prefix_of` deps' → unvisited N deps' ≤ unvisited N deps.
Proof.
  intros [k ->]. apply subseteq_size, unvisited_subseteq.
  intros r Hr. apply elem_of_app. by left.
Qed.

Lemma unvisited_nil N : unvisited N [] = N.
Proof.
  unfold unvisited. rewrite list_to_set_nil, difference_empty_L.
  apply size_set_seq.
Qed.

Section ResolverTermination.

Variable pkgs : list Package.
Variable pkgsMap : gmap string ref.

Local Abbreviation flatten := (flattenDependencies pkgs pkgsMap).
Local Abbreviation lookup_dep := (lookupDep pkgs pkgsMap).

(** With more fuel than packages left to visit, a call returns or
    throws. *)
Lemma flatten_fuel N :
  (∀ d r, pkgsMap !! d = Some r → r < N) →
  ∀ fuel deps (dep : ref),
    dep < N → unvisited N deps < fuel → flatten fuel deps dep ≠ OutOfFuel.
Proof.
  intros Hmap. induction fuel as [|fuel IH]; intros deps dep Hdep Hfuel; [lia|].
  simpl. destruct (decide (dep ∈ deps)) as [Hin|Hin]; simpl; [done|].
  pose proof (unvisited_push N deps dep Hdep Hin) as Hlt.
  assert (∀ td required s,
    deps ++ [dep] `prefix_of` s →
    findDeps pkgs pkgsMap (flatten fuel) dep td required s ≠ OutOfFuel)
    as Hfind.
  { intros td required s Hs [Hk | (found & Hfound & Hfold)]%bind_OutOfFuel.
    - revert Hk. apply mapO_fuel. intros; apply lookupDep_fuel.
    - revert Hfold.
      apply (foldO_fuel (λ s, deps ++ [dep] `prefix_of` s)); [| |done].
      + intros s1 r s2 _ Hs1 Hr. simpl in *.
        etrans; [exact Hs1|]. by eapply flatten_prefix.
      + intros s1 r Hr Hs1. simpl in Hs1. apply IH.
        * destruct (found_indexed _ _ _ _ _ _ _ Hfound Hr) as [d Hd]. eauto.
        * pose proof (unvisited_mono N _ _ Hs1). lia. }
  assert (∀ td required s s',
    findDeps pkgs pkgsMap (flatten fuel) dep td required s = Done s' →
    s `prefix_of` s') as Hgrow.
  { intros td required s s' (found & Hfound & Hfold)%findDeps_Done.
    eapply (foldO_rel prefix); [done|by intros ??? ?; etrans| |exact Hfold].
    intros; by eapply flatten_prefix. }
  intros [H1 | (s1 & H1 & [H2 | (s2 & H2 & H3)]%bind_OutOfFuel)]%bind_OutOfFuel.
  - by eapply Hfind.
  - eapply Hfind; [|done]. by eapply Hgrow.
  - eapply Hfind; [|done]. etrans; by eapply Hgrow.
Qed.

Lemma foldO_more {A S} (f g : S → A → outcome S) l :
  (∀ s x o, f s x = o → o ≠ OutOfFuel → g s x = o) →
  ∀ s o, foldO f s l = o → o ≠ OutOfFuel → foldO g s l = o.
Proof.
  intros Hfg. induction l as [|x l IH]; intros s o; simpl; [done|].
  destruct (f s x) as [s1| |] eqn:E; simpl; intros <- Ho.
  - rewrite (Hfg _ _ _ E) by done. simpl. by apply IH.
  - by rewrite (Hfg _ _ _ E).
  - done.
Qed.

(** A call that returns or throws does the same with more fuel. *)
Lemma flatten_more fuel :
  ∀ fuel' deps dep o,
    fuel ≤ fuel' → flatten fuel deps dep = o → o ≠ OutOfFuel →
    flatten fuel' deps dep = o.
Proof.
  induction fuel as [|fuel IH]; intros fuel' deps dep o Hle; simpl.
  { by intros <-. }
  destruct fuel' as [|fuel']; [lia|]. simpl.
  destruct (decide (dep ∈ deps)); [done|].
  assert (∀ td required s o',
    findDeps pkgs pkgsMap (flatten fuel) dep td required s = o' →
    o' ≠ OutOfFuel →
    findDeps pkgs pkgsMap (flatten fuel') dep td required s = o') as Hfind.
  { intros td required s o'. unfold findDeps.
    destruct (mapO _ _) as [found| |]; simpl; [|done..].
    apply foldO_more. intros s1 r o1. apply IH. lia. }
  destruct (findDeps _ _ (flatten fuel) _ (dependencies _) _ _)
    as [s1| |] eqn:E1; simpl.
  2,3: intros <- Ho; by rewrite (Hfind _ _ _ _ E1).
  rewrite (Hfind _ _ _ _ E1) by done. simpl.
  destruct (findDeps _ _ (flatten fuel) _ (peerDependencies _) _ _)
    as [s2| |] eqn:E2; simpl.
  2,3: intros <- Ho; by rewrite (Hfind _ _ _ _ E2).
  rewrite (Hfind _ _ _ _ E2) by done. simpl.
  apply Hfind.
Qed.

End ResolverTermination.

(** ** The index and the pass over all packages *)

Lemma buildMap_fold (l : list (ref * Package)) (m : gmap string ref) d r :
  fold_left (λ m ipkg, <[_dir ipkg.2 := ipkg.1]> m) l m !! d = Some r →
  m !! d = Some r ∨ ∃ p, (r, p) ∈ l ∧ _dir p = d.
Proof.
  revert m. induction l as [|[i p] l IH]; intros m; simpl; [by left|].
  intros [Hm | (p' & Hp' & Hd)]%IH.
  - destruct (decide (_dir p = d)) as [<-|Hne].
    + rewrite lookup_insert_eq in Hm. simplify_eq. right. exists p. split; [left|done].
    + rewrite lookup_insert_ne in Hm by done. by left.
  - right. exists p'. split; [by right|done].
Qed.

(** The index maps a directory to a package that has it. *)
Lemma buildMap_lookup pkgs d r :
  buildMap pkgs !! d = Some r → ∃ p, pkgs !! r = Some p ∧ _dir p = d.
Proof.
  intros [Hm | (p & Hp & Hd)]%buildMap_fold; [by rewrite lookup_empty in Hm|].
  apply elem_of_lookup_imap in Hp as (i & p' & [= -> ->] & Hi). eauto.
Qed.

Lemma buildMap_valid pkgs d r : buildMap pkgs !! d = Some r → r < length pkgs.
Proof.
  intros (p & Hp & _)%buildMap_lookup. by eapply lookup_lt_Some.
Qed.

Lemma buildMap_dir pkgs d r : buildMap pkgs !! d = Some r → _dir (obj pkgs r) = d.
Proof.
  intros (p & Hp & <-)%buildMap_lookup. unfold obj.
  by rewrite (list_lookup_total_correct _ _ _ Hp).
Qed.

Lemma mapO_Done_iff {A B} (f : A → outcome B) l ys :
  mapO f l = Done ys ↔ Forall2 (λ x y, f x = Done y) l ys.
Proof.
  split; [apply mapO_Done|].
  induction 1 as [|x y l ys Hx _ IH]; simpl; [done|].
  by rewrite Hx, IH.
Qed.

Lemma flattenAllFrom_Done pkgs state resolved :
  flattenAllFrom pkgs state = Done resolved ↔
  length resolved = length pkgs ∧
  ∀ pkg deps, resolved !! pkg = Some deps →
              resolveFrom pkgs (state !!! pkg) pkg = Done deps.
Proof.
  unfold flattenAllFrom. rewrite mapO_Done_iff. split.
  - intros H. split.
    + apply Forall2_length in H. by rewrite length_seq in H.
    + intros pkg deps Hdeps.
      destruct (Forall2_lookup_r _ _ _ _ _ H Hdeps) as (x & Hx & Hr).
      apply lookup_seq in Hx as [-> _]. done.
  - intros [Hlen H]. apply Forall2_lookup. intros i.
    destruct (resolved !! i) as [deps|] eqn:Hdeps.
    + assert (seq 0 (length pkgs) !! i = Some i) as ->.
      { apply lookup_lt_Some in Hdeps. rewrite lookup_seq. split; [done|lia]. }
      constructor. auto.
    + apply lookup_ge_None in Hdeps.
      rewrite (proj2 (lookup_ge_None _ _)); [constructor|].
      rewrite length_seq. lia.
Qed.

Lemma flattenAll_Done pkgs resolved :
  flattenAll pkgs = Done resolved ↔
  length resolved = length pkgs ∧
  ∀ pkg deps, resolved !! pkg = Some deps → resolve pkgs pkg = Done deps.
Proof.
  unfold flattenAll. rewrite flattenAllFrom_Done.
  assert (∀ pkg : ref, pkg < length pkgs →
    ((λ _ : Package, @nil ref) <$> pkgs) !!! pkg = []) as Hinit.
  { intros pkg Hpkg. rewrite list_lookup_total_fmap; [done|apply _|done]. }
  split; intros [Hlen H]; (split; [done|]); intros pkg deps Hdeps;
    specialize (H pkg deps Hdeps); unfold resolve;
    rewrite Hinit in *; try done;
    apply lookup_lt_Some in Hdeps; lia.
Qed.

(** ** What a call leaves in [_dependencies] *)

Section ResolverResults.

Variable pkgs : list Package.
Variable pkgsMap : gmap string ref.

Local Abbreviation flatten := (flattenDependencies pkgs pkgsMap).
Local Abbreviation lookup_dep := (lookupDep pkgs pkgsMap).

Lemma findDeps_prefix fuel dep td required s s' :
  findDeps pkgs pkgsMap (flatten fuel) dep td required s = Done s' →
  s `prefix_of` s'.
Proof.
  intros (found & Hfound & Hfold)%findDeps_Done.
  eapply (foldO_rel prefix); [done|by intros ??? ?; etrans| |exact Hfold].
  intros; by eapply flatten_prefix.
Qed.

(** A package not yet visited is pushed right after what is there. *)
Lemma flatten_push fuel deps (dep : ref) deps' :
  dep ∉ deps → flatten fuel deps dep = Done deps' →
  deps ++ [dep] `prefix_of` deps'.
Proof.
  destruct fuel as [|fuel]; [done|]. simpl. intros Hin.
  case_decide; [done|].
  intros (s1 & H1 & (s2 & H2 & H3)%bind_Done)%bind_Done.
  etrans; [by eapply findDeps_prefix|]. etrans; by eapply findDeps_prefix.
Qed.

(** The package flattened is in [_dependencies] afterwards. *)
Lemma flatten_elem fuel deps (dep : ref) deps' :
  flatten fuel deps dep = Done deps' → dep ∈ deps'.
Proof.
  intros Hflat. destruct (decide (dep ∈ deps)) as [Hin|Hin].
  - apply flatten_prefix in Hflat as [k ->]. apply elem_of_app. by left.
  - apply flatten_push in Hflat as [k ->]; [|done].
    apply elem_of_app. left. apply elem_of_app. right.
    by apply list_elem_of_singleton.
Qed.

(** A package already visited ends the call at once. *)
Lemma flatten_visited fuel deps (dep : ref) :
  dep ∈ deps → flatten (S fuel) deps dep = Done deps.
Proof. intros Hin. simpl. by case_decide. Qed.

Lemma foldO_flatten_elem fuel found s s' (r : ref) :
  foldO (flatten fuel) s found = Done s' → r ∈ found → r ∈ s'.
Proof.
  revert s. induction found as [|x found IH]; intros s; simpl.
  { by intros _ ?%elem_of_nil. }
  intros (s1 & Hx & Hrest)%bind_Done [->|Hr]%elem_of_cons; [|by eapply IH].
  assert (s1 `prefix_of` s') as [k ->].
  { eapply (foldO_rel prefix); [done|by intros ??? ?; etrans| |exact Hrest].
    intros; by eapply flatten_prefix. }
  apply elem_of_app. left. by eapply flatten_elem.
Qed.

Lemma findDeps_elem fuel dep td required s s' X (r : ref) :
  findDeps pkgs pkgsMap (flatten fuel) dep td required s = Done s' →
  X ∈ keys td → lookup_dep dep required X = Done (Some r) → r ∈ s'.
Proof.
  intros (found & Hfound & Hfold)%findDeps_Done HX Hr.
  eapply foldO_flatten_elem; [done|]. by eapply found_complete.
Qed.

(** Whether a name is required matters only when it is not found. *)
Lemma lookupDep_found dep required required' X (r : ref) :
  lookup_dep dep required X = Done (Some r) →
  lookup_dep dep required' X = Done (Some r).
Proof.
  unfold lookupDep. destruct (lookupNested _ _ _ _); [done|].
  destruct (pkgsMap !! X); [done|]. by destruct required.
Qed.

(** The package found for a declared name of a package newly visited is
    in [_dependencies] when the call returns. *)
Lemma flatten_direct fuel deps (dep : ref) deps' X required (r : ref) :
  dep ∉ deps → flatten fuel deps dep = Done deps' →
  declares (obj pkgs dep) X → lookup_dep dep required X = Done (Some r) →
  r ∈ deps'.
Proof.
  destruct fuel as [|fuel]; [done|]. simpl. intros Hin.
  case_decide; [done|].
  intros (s1 & H1 & (s2 & H2 & H3)%bind_Done)%bind_Done HX Hr.
  pose proof (findDeps_prefix _ _ _ _ _ _ H2) as [k2 ->].
  pose proof (findDeps_prefix _ _ _ _ _ _ H3) as [k3 ->].
  destruct HX as [HX|[HX|HX]].
  - do 2 (apply elem_of_app; left).
    eapply findDeps_elem; [exact H1|done|by eapply lookupDep_found].
  - apply elem_of_app; left.
    eapply findDeps_elem; [exact H2|done|by eapply lookupDep_found].
  - eapply findDeps_elem; [exact H3|done|by eapply lookupDep_found].
Qed.

End ResolverResults.

(** [flattenDependencies] with the fuel of [resolveFrom] never lacks
    fuel, whatever is already in [_dependencies]. *)
Lemma resolveFrom_fuel pkgs deps (pkg : ref) :
  pkg < length pkgs → resolveFrom pkgs deps pkg ≠ OutOfFuel.
Proof.
  intros Hpkg. apply (flatten_fuel pkgs (buildMap pkgs) (length pkgs));
    [apply buildMap_valid|done|].
  unfold enough, unvisited.
  assert (size (set_seq 0 (length pkgs) ∖ list_to_set deps : gset nat)
          ≤ size (set_seq 0 (length pkgs) : gset nat)) as Hle.
  { apply subseteq_size. intros r [Hr _]%elem_of_difference. exact Hr. }
  rewrite size_set_seq in Hle. lia.
Qed.

Lemma resolveFrom_more pkgs deps (pkg : ref) fuel :
  pkg < length pkgs → enough pkgs ≤ fuel →
  flattenDependencies pkgs (buildMap pkgs) fuel deps pkg
  = resolveFrom pkgs deps pkg.
Proof.
  intros Hpkg Hfuel. eapply flatten_more; [done..|by apply resolveFrom_fuel].
Qed.

Lemma flattenAllFrom_fuel pkgs state : flattenAllFrom pkgs state ≠ OutOfFuel.
Proof.
  apply mapO_fuel. intros pkg [_ Hpkg]%elem_of_seq.
  apply resolveFrom_fuel. lia.
Qed.

(** ** Paths in normal form *)

Example posix_join_plain :
  Posix.join ["a"; "node_modules"; "b"] = "a/node_modules/b".
Proof. reflexivity. Qed.

Example posix_join_scoped :
  Posix.join ["@s"; "a"; "node_modules"; "@t/b"] = "@s/a/node_modules/@t/b".
Proof. reflexivity. Qed.

Example posix_join_dots :
  Posix.join ["a"; "node_modules"; "../x/./y/"] = "a/x/y/".
Proof. reflexivity. Qed.

Example posix_join_empty : Posix.join [""; ""] = ".".
Proof. reflexivity. Qed.

Lemma string_app_cons c s t : String c s +:+ t = String c (s +:+ t).
Proof. done. Qed.

Lemma string_app_nil_r s : s +:+ "" = s.
Proof. induction s as [|c s IH]; [done|]. by rewrite string_app_cons, IH. Qed.

Lemma string_app_assoc s t u : (s +:+ t) +:+ u = s +:+ (t +:+ u).
Proof. induction s as [|c s IH]; [done|]. by rewrite !string_app_cons, IH. Qed.

Lemma split_cons_slash s :
  Str.split Str.slash (String Str.slash s) = "" :: Str.split Str.slash s.
Proof. done. Qed.

Lemma split_cons sep c rest :
  Str.split sep (String c rest) =
  if decide (c = sep) then "" :: Str.split sep rest
  else match Str.split sep rest with
       | piece :: pieces => String c piece :: pieces
       | [] => [String c ""]
       end.
Proof. done. Qed.

Lemma split_not_nil sep s : Str.split sep s ≠ [].
Proof.
  destruct s as [|c s]; simpl; [done|].
  case_decide; [done|]. by destruct (Str.split sep s).
Qed.

Lemma join_cons sep x y l :
  Str.join sep (x :: y :: l) = x +:+ sep +:+ Str.join sep (y :: l).
Proof. done. Qed.

Lemma join_split s : Str.join "/" (Str.split Str.slash s) = s.
Proof.
  induction s as [|c s IH]; [done|]. simpl.
  pose proof (split_not_nil Str.slash s) as Hne.
  destruct (Str.split Str.slash s) as [|piece pieces] eqn:E; [done|].
  case_decide as Hc.
  - subst c. by rewrite join_cons, IH.
  - destruct pieces as [|piece' pieces].
    + simpl in *. by rewrite IH.
    + rewrite join_cons, string_app_cons, <- join_cons. by rewrite IH.
Qed.

Lemma split_app_slash a b :
  Str.split Str.slash (a +:+ "/" +:+ b)
  = Str.split Str.slash a ++ Str.split Str.slash b.
Proof.
  induction a as [|c a IH].
  - change ("" +:+ "/" +:+ b) with (String Str.slash b).
    by rewrite split_cons_slash.
  - rewrite string_app_cons. simpl. rewrite IH.
    pose proof (split_not_nil Str.slash a) as Hne.
    case_decide; [done|].
    by destruct (Str.split Str.slash a).
Qed.

Lemma split_join parts :
  parts ≠ [] →
  Str.split Str.slash (Str.join "/" parts)
  = concat (Str.split Str.slash <$> parts).
Proof.
  induction parts as [|x [|y parts] IH]; intros Hne; [done| |].
  - simpl. by rewrite app_nil_r.
  - rewrite join_cons, split_app_slash, IH by done. done.
Qed.

Lemma join_app l1 l2 :
  l1 ≠ [] → l2 ≠ [] →
  Str.join "/" (l1 ++ l2) = Str.join "/" l1 +:+ "/" +:+ Str.join "/" l2.
Proof.
  induction l1 as [|x [|y l1] IH]; intros H1 H2; [done| |].
  - destruct l2; [done|]. done.
  - change ((x :: y :: l1) ++ l2) with (x :: (y :: l1) ++ l2).
    change ((y :: l1) ++ l2) with (y :: l1 ++ l2) at 1.
    rewrite join_cons. change (y :: l1 ++ l2) with ((y :: l1) ++ l2).
    rewrite IH by done. rewrite join_cons.
    by rewrite !string_app_assoc.
Qed.

Lemma normalizeString_plain pieces acc :
  Forall plain pieces →
  fold_left (Posix.step true) pieces acc = acc ++ pieces.
Proof.
  intros H. revert acc. induction H as [|p pieces (H1 & H2 & H3 & _) _ IH];
    intros acc; simpl; [by rewrite app_nil_r|].
  unfold Posix.step at 2. rewrite decide_False by (intros [|]; done).
  rewrite decide_False by done. by rewrite IH, <- app_assoc.
Qed.

Lemma starts_with_slash_split s :
  Str.starts_with "/" s = true → ∃ rest, Str.split Str.slash s = "" :: rest.
Proof.
  destruct s as [|c s]; [done|]. cbn [Str.starts_with].
  case_decide as Hc; [|done]. intros _. subst c.
  rewrite split_cons_slash. eauto.
Qed.

Lemma ends_with_slash_split s :
  Str.ends_with_slash s = true → last (Str.split Str.slash s) = Some "".
Proof.
  induction s as [|c s IH]; [done|].
  destruct s as [|c' s].
  - cbn [Str.ends_with_slash]. intros Hc%bool_decide_eq_true. subst c.
    by rewrite split_cons_slash.
  - intros H. specialize (IH H).
    rewrite split_cons.
    pose proof (split_not_nil Str.slash (String c' s)) as Hne.
    destruct (Str.split Str.slash (String c' s)) as [|piece pieces] eqn:E; [done|].
    case_decide.
    + by rewrite last_cons_cons.
    + destruct pieces as [|piece' pieces]; [|by rewrite last_cons_cons in *].
      pose proof (join_split (String c' s)) as Hjoin.
      rewrite E in Hjoin. simpl in IH, Hjoin. congruence.
Qed.

Lemma plain_not_empty : ¬ plain "".
Proof. by intros (H & _). Qed.

Lemma plain_pieces_not_empty (pieces : list string) :
  Forall plain pieces → "" ∉ pieces.
Proof.
  rewrite Forall_forall. intros H Hin. by apply plain_not_empty, H.
Qed.

Lemma filter_all {A} (P : A → Prop) `{∀ x, Decision (P x)} (l : list A) :
  Forall P l → filter P l = l.
Proof.
  induction 1 as [|x l Hx _ IH]; [done|].
  by rewrite filter_cons_True, IH.
Qed.

(** On a path whose pieces are plain names, normalisation changes
    nothing. *)
Lemma normalize_plain path :
  plain_path path → Posix.normalize path = path.
Proof.
  unfold plain_path. intros Hplain.
  pose proof (plain_pieces_not_empty _ Hplain) as Hempty.
  unfold Posix.normalize.
  rewrite decide_False.
  2:{ intros ->. apply Hempty. left. }
  destruct (Str.starts_with "/" path) eqn:Habs.
  { apply starts_with_slash_split in Habs as [rest Hrest].
    rewrite Hrest in Hempty. destruct Hempty. left. }
  destruct (Str.ends_with_slash path) eqn:Htrail.
  { apply ends_with_slash_split in Htrail.
    destruct Hempty. by apply last_Some_elem_of. }
  unfold Posix.normalizeString. simpl negb.
  rewrite normalizeString_plain by done. simpl app.
  rewrite join_split. cbv zeta.
  rewrite decide_False.
  2:{ intros ->. apply Hempty. left. }
  change ("" +:+ path +:+ "") with (path +:+ "").
  apply string_app_nil_r.
Qed.

Lemma plain_path_join parts :
  parts ≠ [] → Forall plain_path parts → plain_path (Str.join "/" parts).
Proof.
  intros Hne Hparts. unfold plain_path. rewrite split_join by done.
  apply Forall_concat, Forall_fmap. exact Hparts.
Qed.

(** Joining paths in normal form is joining them by [/]. *)
Lemma join_plain parts :
  parts ≠ [] → Forall plain_path parts →
  Posix.join parts = Str.join "/" parts.
Proof.
  intros Hne Hparts. unfold Posix.join.
  rewrite filter_all.
  2:{ eapply Forall_impl; [exact Hparts|].
      intros part Hpart ->. by apply (plain_pieces_not_empty _ Hpart); left. }
  destruct parts as [|part parts]; [done|].
  by apply normalize_plain, plain_path_join.
Qed.

Lemma plain_segment_path seg : plain seg → plain_path seg.
Proof.
  intros Hseg. unfold plain_path.
  destruct Hseg as (? & ? & ? & Hsplit). rewrite Hsplit.
  by repeat constructor.
Qed.

(** For a directory and a name in normal form, the candidate paths are
    literally [<segments>/node_modules/X]. *)
Lemma candidate_paths_literal dir X :
  plain_path dir → plain_path X →
  candidate_paths dir X = literal_candidates dir X.
Proof.
  intros Hdir HX. unfold candidate_paths, literal_candidates.
  apply list_fmap_ext. intros i n Hn.
  apply list_elem_of_lookup_2, elem_of_reverse, elem_of_seq in Hn.
  assert (take n (Str.split Str.slash dir) ≠ []) as Hne.
  { pose proof (split_not_nil Str.slash dir).
    destruct n; [lia|]. by destruct (Str.split Str.slash dir). }
  rewrite join_plain.
  - rewrite join_app by done. f_equal.
  - by destruct (take n _).
  - apply Forall_app. split.
    + apply Forall_take. eapply Forall_impl; [exact Hdir|].
      apply plain_segment_path.
    + apply Forall_cons. split; [|by apply Forall_singleton].
      apply plain_segment_path. by repeat split.
Qed.

(** ** The scan of node_modules *)

Lemma rbind_Ok {A B} (r : result A) (k : A → result B) b :
  rbind r k = Ok b ↔ ∃ a, r = Ok a ∧ k a = Ok b.
Proof.
  destruct r; simpl; (split; [intros H | intros (a' & H1 & H2)]);
    try discriminate; simplify_eq; eauto.
Qed.

Lemma entry_elem f listing n : entry f listing = Some n → (f, n) ∈ listing.
Proof.
  induction listing as [|[g m] listing IH]; simpl; [done|].
  case_decide; [intros [= ->]; subst; left|right; auto].
Qed.

Lemma well_formed_Dir listing :
  well_formed (Dir listing) ↔
  NoDup listing.*1 ∧ Forall (λ fn, plain fn.1 ∧ well_formed fn.2) listing.
Proof.
  simpl. apply and_iff_compat_l.
  induction listing as [|[f child] listing IH]; simpl.
  - split; [constructor|done].
  - rewrite Forall_cons, IH. simpl. tauto.
Qed.

Lemma node_induction (P : node → Prop) :
  (∀ content, P (File content)) →
  (∀ listing, Forall (λ fn, P fn.2) listing → P (Dir listing)) →
  ∀ n, P n.
Proof.
  intros HF HD. fix IH 1. intros [content|listing]; [apply HF|].
  apply HD. induction listing as [|[f child] listing IHl]; constructor.
  - apply IH.
  - exact IHl.
Qed.

Lemma plain_split seg : plain seg → Str.split Str.slash seg = [seg].
Proof. by intros (_ & _ & _ & H). Qed.

Lemma split_join_plain segs :
  segs ≠ [] → Forall plain segs →
  Str.split Str.slash (Str.join "/" segs) = segs.
Proof.
  intros Hne Hsegs. rewrite split_join by done.
  clear Hne. induction Hsegs as [|seg segs Hseg _ IH]; [done|].
  rewrite fmap_cons. cbn [concat]. by rewrite (plain_split _ Hseg), IH.
Qed.

Lemma plain_node_modules : plain "node_modules".
Proof. by repeat split. Qed.

Lemma plain_path_of base : Forall plain base → plain_path (path_of base).
Proof.
  intros Hbase. unfold plain_path, path_of.
  rewrite split_join_plain; [|done|]; constructor; auto using plain_node_modules.
Qed.

Lemma join_path_of base f :
  Forall plain base → plain f →
  Posix.join [path_of base; f] = path_of (base ++ [f]).
Proof.
  intros Hbase Hf. rewrite join_plain; [|done|].
  - unfold path_of.
    change ("node_modules" :: base ++ [f]) with (("node_modules" :: base) ++ [f]).
    by rewrite join_app.
  - repeat constructor; [by apply plain_path_of|by apply plain_segment_path].
Qed.

Lemma dir_path_of r :
  r ≠ [] → Str.strip_prefix "node_modules/" (path_of r) = Str.join "/" r.
Proof.
  intros Hr. unfold path_of. destruct r as [|seg r]; [done|].
  rewrite join_cons. reflexivity.
Qed.

Lemma placed_nil base heads : placed base heads [] [].
Proof. repeat split; constructor. Qed.

Lemma placed_weaken base (H1 H2 : string → Prop) pkgs rs :
  (∀ f, H1 f → H2 f) → placed base H1 pkgs rs → placed base H2 pkgs rs.
Proof.
  intros Himp (Hdirs & Hnd & Hrs). repeat split; [done..|].
  eapply Forall_impl; [exact Hrs|]. intros r (? & f & rest & ? & ?). eauto 6.
Qed.

Lemma placed_rebase base f heads pkgs rs :
  placed (base ++ [f]) heads pkgs rs → placed base (λ g, g = f) pkgs rs.
Proof.
  intros (Hdirs & Hnd & Hrs). repeat split; [done..|].
  eapply Forall_impl; [exact Hrs|]. intros r (? & g & rest & -> & ?).
  split; [done|]. exists f, (g :: rest). by rewrite <- app_assoc.
Qed.

Lemma placed_disjoint base (H1 H2 : string → Prop) a ra b rb r :
  (∀ f, H1 f → H2 f → False) →
  placed base H1 a ra → placed base H2 b rb → r ∈ ra → r ∉ rb.
Proof.
  intros Hdisj (_ & _ & Ha) (_ & _ & Hb) Hra Hrb.
  rewrite Forall_forall in Ha, Hb.
  destruct (Ha r Hra) as (_ & f1 & rest1 & -> & Hf1).
  destruct (Hb _ Hrb) as (_ & f2 & rest2 & Heq & Hf2).
  apply app_inv_head in Heq. simplify_eq. eauto.
Qed.

Lemma placed_app base heads a ra b rb :
  placed base heads a ra → placed base heads b rb →
  (∀ r, r ∈ ra → r ∉ rb) → placed base heads (a ++ b) (ra ++ rb).
Proof.
  intros (Hda & Hna & Ha) (Hdb & Hnb & Hb) Hdisj. repeat split.
  - by rewrite !fmap_app, Hda, Hdb.
  - by apply NoDup_app.
  - by apply Forall_app.
Qed.

Section ScanFacts.

Variable JSON_parse : string → result packageJson.

Local Abbreviation scan := (findPackagesIn JSON_parse).
Local Abbreviation scan_placed := (scan_placed JSON_parse).
Local Abbreviation entries_placed := (entries_placed JSON_parse).

Lemma nestedPackages_entry rec f inside :
  nestedPackages rec f inside =
  match entry "node_modules" inside with
  | Some nested => rec (Posix.join [f; "node_modules"]) nested
  | None => Ok []
  end.
Proof.
  induction inside as [|[n e] inside IH]; [done|]. simpl.
  by case_decide.
Qed.

(** An entry whose package.json or nested packages make the scan throw
    makes the scan of the listing throw. *)
Lemma packagesOf_Failed rec p before f child after :
  Str.starts_with "@" f = false → isPackage child = true →
  (∃ err, parsePackageFile JSON_parse (Posix.join [p; f])
                           (readIn "package.json" child) = Failed err) ∨
  (∃ err, nestedIn rec (Posix.join [p; f]) child = Failed err) →
  ∃ err', packagesOf JSON_parse rec p (before ++ (f, child) :: after)
          = Failed err'.
Proof.
  intros Hf Hchild Hfail.
  induction before as [|[g other] before [err' IH]]; cbn [app packagesOf].
  - rewrite Hf, Hchild. simpl.
    destruct (parsePackageFile JSON_parse (Posix.join [p; f]) _); simpl;
      [|by eauto].
    destruct Hfail as [[err Herr]|[err ->]]; [done|]. simpl. eauto.
  - rewrite IH. destruct (negb _ && _); [|by eauto].
    destruct (parsePackageFile JSON_parse (Posix.join [p; g]) _); simpl;
      [|by eauto].
    destruct (nestedIn rec _ other); simpl; eauto.
Qed.

Lemma scopesOf_Failed rec p before f child after err :
  Str.starts_with "@" f = true → isDirectory child = true →
  rec (Posix.join [p; f]) child = Failed err →
  ∃ err', scopesOf rec p (before ++ (f, child) :: after) = Failed err'.
Proof.
  intros Hf Hchild Hfail.
  induction before as [|[g other] before [err' IH]]; cbn [app scopesOf].
  - rewrite Hf, Hchild, Hfail. simpl. eauto.
  - rewrite IH. destruct (_ && _); [|by eauto].
    destruct (rec _ other); simpl; eauto.
Qed.

(** A package.json that cannot be read or parsed, anywhere the scan
    reads one, makes the scan throw. *)
Lemma findPackagesIn_malformed p here :
  meets_malformed JSON_parse p here →
  ∃ err, findPackagesIn JSON_parse p here = Failed err.
Proof.
  induction 1 as [p listing f child err Hin Hf Hchild Hparse
                 |p listing f inside nested Hin Hf Hchild Hnested _ [err IH]
                 |p listing f child Hin Hf Hchild _ [err IH]];
    apply list_elem_of_split in Hin as (before & after & ->);
    cbn [findPackagesIn].
  - destruct (packagesOf_Failed (findPackagesIn JSON_parse) p
                before f child after Hf Hchild) as [err' ->]; [by eauto|].
    simpl. eauto.
  - destruct (packagesOf_Failed (findPackagesIn JSON_parse) p
                before f (Dir inside) after Hf Hchild) as [err' ->].
    { right. exists err. cbn [nestedIn].
      by rewrite nestedPackages_entry, Hnested. }
    simpl. eauto.
  - destruct (packagesOf JSON_parse _ p _); simpl; [|by eauto].
    destruct (scopesOf_Failed (findPackagesIn JSON_parse) p
                before f child after err Hf Hchild IH) as [err' ->].
    simpl. eauto.
Qed.

Lemma findPackages_malformed cwd here :
  entry "node_modules" cwd = Some here →
  meets_malformed JSON_parse "node_modules" here →
  ∃ err, findPackages JSON_parse cwd = Failed err.
Proof.
  intros Hnm Hbad. unfold findPackages. rewrite Hnm.
  by apply findPackagesIn_malformed.
Qed.

Lemma parsePackageFile_dir p content pkg :
  parsePackageFile JSON_parse p content = Ok pkg →
  _dir pkg = Str.strip_prefix "node_modules/" p.
Proof.
  unfold parsePackageFile. destruct content as [text|]; simpl; [|done].
  destruct (JSON_parse text); simpl; [|done]. by intros [= <-].
Qed.

Lemma nested_placed base f child nested :
  Forall plain base → plain f → well_formed child → entries_placed child →
  nestedIn scan (path_of (base ++ [f])) child = Ok nested →
  ∃ rs, placed (base ++ [f; "node_modules"]) (λ _, True) nested rs.
Proof.
  intros Hbase Hf Hwf Hplaced.
  destruct child as [|inside]; simpl.
  { intros [= <-]. exists []. apply placed_nil. }
  rewrite nestedPackages_entry.
  destruct (entry "node_modules" inside) as [nm|] eqn:Hnm.
  2:{ intros [= <-]. exists []. apply placed_nil. }
  apply entry_elem in Hnm.
  simpl in Hplaced. rewrite Forall_forall in Hplaced.
  apply well_formed_Dir in Hwf as [_ Hwf]. rewrite Forall_forall in Hwf.
  destruct (Hwf _ Hnm) as [_ Hwfnm]. specialize (Hplaced _ Hnm). simpl in *.
  assert (Forall plain (base ++ [f])) as Hbasef.
  { apply Forall_app. split; [done|]. by apply Forall_singleton. }
  rewrite join_path_of; [|done|apply plain_node_modules].
  rewrite <- app_assoc. simpl. apply Hplaced; [done|].
  replace (base ++ [f; "node_modules"])
    with ((base ++ [f]) ++ ["node_modules"]) by (by rewrite <- app_assoc).
  apply Forall_app. split; [done|].
  apply Forall_singleton, plain_node_modules.
Qed.

Lemma packagesOf_placed base l a :
  Forall plain base → NoDup l.*1 →
  Forall (λ fn, plain fn.1 ∧ well_formed fn.2 ∧ entries_placed fn.2) l →
  packagesOf JSON_parse scan (path_of base) l = Ok a →
  ∃ rs, placed base (λ f, f ∈ l.*1 ∧ Str.starts_with "@" f = false) a rs.
Proof.
  intros Hbase. revert a.
  induction l as [|[f child] l IH]; intros a Hnd Hl; cbn [packagesOf].
  { intros [= <-]. exists []. apply placed_nil. }
  rewrite fmap_cons in Hnd. cbn [fst] in Hnd.
  apply NoDup_cons in Hnd as [Hf Hnd].
  apply Forall_cons in Hl as [(Hplain & Hwf & Hplaced) Hl].
  cbn [fst snd] in Hplain, Hwf, Hplaced. rewrite fmap_cons. cbn [fst].
  assert (∀ a', packagesOf JSON_parse scan (path_of base) l = Ok a' →
    ∃ rs, placed base
            (λ g, g ∈ f :: l.*1 ∧ Str.starts_with "@" g = false) a' rs)
    as IH'.
  { intros a' Ha'. destruct (IH a' Hnd Hl Ha') as [rs Hrs].
    exists rs. eapply placed_weaken; [|exact Hrs].
    intros g [? ?]. split; [by right|done]. }
  destruct (Str.starts_with "@" f) eqn:Hat; simpl; [by apply IH'|].
  destruct (isPackage child); [|by apply IH'].
  intros (pkg & Hpkg & (nested & Hnested & (others & Hothers & [= <-])%rbind_Ok)%rbind_Ok)%rbind_Ok.
  rewrite join_path_of in Hpkg, Hnested by done.
  apply parsePackageFile_dir in Hpkg.
  rewrite dir_path_of in Hpkg by (by destruct base).
  destruct (nested_placed base f child nested) as [rn Hrn]; [done..|].
  destruct (IH others Hnd Hl Hothers) as [ro Hro].
  exists ((base ++ [f]) :: rn ++ ro).
  assert (placed base (λ g, g = f) nested rn) as Hrn'.
  { apply placed_rebase with (heads := λ g, g = "node_modules").
    replace (base ++ [f; "node_modules"])
      with ((base ++ [f]) ++ ["node_modules"]) in Hrn
      by (by rewrite <- app_assoc).
    by apply placed_rebase in Hrn. }
  assert (placed base (λ g, g = f) [pkg] [base ++ [f]]) as Hown.
  { repeat split.
    - simpl. by rewrite Hpkg.
    - apply NoDup_singleton.
    - repeat constructor; [apply Forall_app; split; [done|by constructor]|].
      by exists f, []. }
  assert (base ++ [f] ∉ rn) as Hfresh.
  { intros Hin. destruct Hrn as (_ & _ & Hrn). rewrite Forall_forall in Hrn.
    destruct (Hrn _ Hin) as (_ & g & rest & Heq & _).
    rewrite <- app_assoc in Heq. apply app_inv_head in Heq. discriminate. }
  change (pkg :: nested ++ others) with (([pkg] ++ nested) ++ others).
  change ((base ++ [f]) :: rn ++ ro) with (([base ++ [f]] ++ rn) ++ ro).
  apply placed_app.
  - eapply placed_weaken; [|apply placed_app; [exact Hown|exact Hrn'|]].
    + intros g ->. split; [left|done].
    + by intros r ->%list_elem_of_singleton.
  - eapply placed_weaken; [|exact Hro].
    intros g [? ?]. split; [by right|done].
  - intros r Hr. eapply (placed_disjoint base (λ g, g = f)); [| |exact Hro|].
    + intros g -> [? _]. done.
    + apply placed_app; [exact Hown|exact Hrn'|].
      by intros r' ->%list_elem_of_singleton.
    + done.
Qed.

Lemma scopesOf_placed base l b :
  Forall plain base → NoDup l.*1 →
  Forall (λ fn, plain fn.1 ∧ well_formed fn.2 ∧ scan_placed fn.2) l →
  scopesOf scan (path_of base) l = Ok b →
  ∃ rs, placed base (λ f, f ∈ l.*1 ∧ Str.starts_with "@" f = true) b rs.
Proof.
  intros Hbase. revert b.
  induction l as [|[f child] l IH]; intros b Hnd Hl; cbn [scopesOf].
  { intros [= <-]. exists []. apply placed_nil. }
  rewrite fmap_cons in Hnd. cbn [fst] in Hnd.
  apply NoDup_cons in Hnd as [Hf Hnd].
  apply Forall_cons in Hl as [(Hplain & Hwf & Hplaced) Hl].
  cbn [fst snd] in Hplain, Hwf, Hplaced. rewrite fmap_cons. cbn [fst].
  assert (∀ b', scopesOf scan (path_of base) l = Ok b' →
    ∃ rs, placed base
            (λ g, g ∈ f :: l.*1 ∧ Str.starts_with "@" g = true) b' rs)
    as IH'.
  { intros b' Hb'. destruct (IH b' Hnd Hl Hb') as [rs Hrs].
    exists rs. eapply placed_weaken; [|exact Hrs].
    intros g [? ?]. split; [by right|done]. }
  destruct (Str.starts_with "@" f) eqn:Hat; simpl; [|by apply IH'].
  destruct (isDirectory child); [|by apply IH'].
  intros (found & Hfound & (others & Hothers & [= <-])%rbind_Ok)%rbind_Ok.
  rewrite join_path_of in Hfound by done.
  destruct (Hplaced Hwf (base ++ [f]) found) as [rf Hrf]; [|done|].
  { apply Forall_app. split; [done|]. by apply Forall_singleton. }
  apply placed_rebase in Hrf.
  destruct (IH others Hnd Hl Hothers) as [ro Hro].
  exists (rf ++ ro). apply placed_app.
  - eapply placed_weaken; [|exact Hrf]. intros g ->. split; [left|done].
  - eapply placed_weaken; [|exact Hro].
    intros g [? ?]. split; [by right|done].
  - intros r Hr. eapply (placed_disjoint base (λ g, g = f)); [|exact Hrf|exact Hro|done].
    intros g -> [? _]. done.
Qed.

(** The directories of the packages found under a well-formed
    directory are joined from distinct lists of plain names. *)
Lemma scan_placed_all here : scan_placed here ∧ entries_placed here.
Proof.
  induction here as [content|listing IH] using node_induction.
  { split; [|done]. intros _ base pkgs _ [= <-]. exists []. apply placed_nil. }
  assert (entries_placed (Dir listing)) as Hentries.
  { simpl. eapply Forall_impl; [exact IH|]. by intros fn [? _]. }
  split; [|done].
  intros Hwf base pkgs Hbase. cbn [findPackagesIn].
  intros (a & Ha & (b & Hb & [= <-])%rbind_Ok)%rbind_Ok.
  apply well_formed_Dir in Hwf as [Hnd Hwf].
  destruct (packagesOf_placed base listing a) as [ra Hra]; [done..| |done|].
  { rewrite Forall_forall in IH, Hwf. apply Forall_forall.
    intros fn Hfn. destruct (Hwf fn Hfn), (IH fn Hfn). done. }
  destruct (scopesOf_placed base listing b) as [rb Hrb]; [done..| |done|].
  { rewrite Forall_forall in IH, Hwf. apply Forall_forall.
    intros fn Hfn. destruct (Hwf fn Hfn), (IH fn Hfn). done. }
  exists (ra ++ rb). apply placed_app.
  - eapply placed_weaken; [|exact Hra]. done.
  - eapply placed_weaken; [|exact Hrb]. done.
  - intros r Hr. eapply placed_disjoint; [|exact Hra|exact Hrb|done].
    intros f [_ ?] [_ ?]. congruence.
Qed.

(** The packages found in a working directory whose entries are named
    as a file system names them have distinct directories. *)
Lemma findPackages_unique_dirs cwd pkgs :
  well_formed (Dir cwd) →
  findPackages JSON_parse cwd = Ok pkgs → unique_dirs pkgs.
Proof.
  intros Hwf. unfold findPackages, unique_dirs.
  destruct (entry "node_modules" cwd) as [here|] eqn:Hnm.
  2:{ intros [= <-]. constructor. }
  apply entry_elem in Hnm.
  apply well_formed_Dir in Hwf as [_ Hwf]. rewrite Forall_forall in Hwf.
  destruct (Hwf _ Hnm) as [_ Hhere]. intros Hscan.
  destruct (scan_placed_all here) as [Hplaced _].
  destruct (Hplaced Hhere [] pkgs) as (rs & -> & Hnd & Hrs); [constructor|done|].
  rewrite Forall_forall in Hrs.
  apply NoDup_fmap_2_strong; [|done].
  intros r1 r2 Hr1 Hr2 Heq.
  destruct (Hrs _ Hr1) as (Hp1 & f1 & rest1 & -> & _).
  destruct (Hrs _ Hr2) as (Hp2 & f2 & rest2 & -> & _).
  cbn [app] in Heq, Hp1, Hp2 |- *.
  rewrite <- (split_join_plain (f1 :: rest1)) by done.
  rewrite <- (split_join_plain (f2 :: rest2)) by done.
  by rewrite Heq.
Qed.

End ScanFacts.

(** ** Duplicates, order and cycles *)

Lemma unique_dirs_inj pkgs (r1 r2 : ref) :
  unique_dirs pkgs → r1 < length pkgs → r2 < length pkgs →
  _dir (obj pkgs r1) = _dir (obj pkgs r2) → r1 = r2.
Proof.
  intros Hnd H1 H2 Heq.
  destruct (lookup_lt_is_Some_2 _ _ H1) as [p1 Hp1].
  destruct (lookup_lt_is_Some_2 _ _ H2) as [p2 Hp2].
  unfold obj in Heq.
  rewrite (list_lookup_total_correct _ _ _ Hp1),
          (list_lookup_total_correct _ _ _ Hp2) in Heq.
  eapply NoDup_lookup; [exact Hnd|..]; rewrite list_lookup_fmap.
  - by rewrite Hp1.
  - rewrite Hp2. simpl. by rewrite Heq.
Qed.

(** What [resolve] returns refers to objects of the run only. *)
Lemma resolveFrom_valid pkgs deps (pkg : ref) deps' :
  pkg < length pkgs → Forall (λ r, r < length pkgs) deps →
  resolveFrom pkgs deps pkg = Done deps' →
  Forall (λ r, r < length pkgs) deps'.
Proof.
  intros Hpkg Hdeps. eapply flatten_Forall; [|done..].
  intros d r. apply buildMap_valid.
Qed.

(** C3: after resolution has completed over a package list, the
    [_dependencies] of every package contains no package object twice;
    and, directories being unique among the packages, as they are among
    the packages [findPackages] finds, no directory twice.  Every call
    of [flattenDependencies] preserves the first. *)
Theorem no_duplicates pkgs resolved (pkg : ref) deps :
  flattenAll pkgs = Done resolved →
  resolved !! pkg = Some deps →
  NoDup deps ∧
  (unique_dirs pkgs → NoDup ((λ r, _dir (obj pkgs r)) <$> deps)) ∧
  (∀ JSON_parse cwd,
     well_formed (Dir cwd) → findPackages JSON_parse cwd = Ok pkgs →
     NoDup ((λ r, _dir (obj pkgs r)) <$> deps)) ∧
  (∀ pkgsMap fuel deps0 (dep : ref) deps1,
     NoDup deps0 →
     flattenDependencies pkgs pkgsMap fuel deps0 dep = Done deps1 →
     NoDup deps1).
Proof.
  intros [Hlen Hall]%flattenAll_Done Hdeps.
  pose proof (Hall _ _ Hdeps) as Hres.
  assert (pkg < length pkgs) as Hpkg.
  { apply lookup_lt_Some in Hdeps. lia. }
  assert (NoDup deps) as Hnd.
  { eapply flatten_NoDup; [|exact Hres]. constructor. }
  assert (unique_dirs pkgs → NoDup ((λ r, _dir (obj pkgs r)) <$> deps))
    as Hdirs.
  { intros Huniq.
    assert (Forall (λ r, r < length pkgs) deps) as Hvalid.
    { eapply resolveFrom_valid; [exact Hpkg| |exact Hres]. constructor. }
    rewrite Forall_forall in Hvalid.
    apply NoDup_fmap_2_strong; [|done].
    intros r1 r2 Hr1 Hr2. apply unique_dirs_inj; auto. }
  split; [done|]. split; [done|]. split.
  - intros JSON_parse cwd Hwf Hscan.
    by eapply Hdirs, findPackages_unique_dirs.
  - intros pkgsMap fuel deps0 dep deps1. apply flatten_NoDup.
Qed.

(** C9: after resolution, the first element of a package's
    [_dependencies] is the package itself. *)
Theorem self_first pkgs resolved (pkg : ref) deps :
  flattenAll pkgs = Done resolved →
  resolved !! pkg = Some deps →
  head deps = Some pkg.
Proof.
  intros [Hlen Hall]%flattenAll_Done Hdeps.
  pose proof (Hall _ _ Hdeps) as Hres.
  apply flatten_push in Hres as [k ->]; [done|]. apply not_elem_of_nil.
Qed.

(** C6: once the pass over all packages has completed, a second pass
    over the same objects leaves every [_dependencies] as it is: the
    same members in the same order. *)
Theorem resolution_idempotent pkgs resolved :
  flattenAll pkgs = Done resolved →
  flattenAllFrom pkgs resolved = Done resolved ∧
  ∀ (pkg : ref) deps, resolved !! pkg = Some deps →
                      resolveFrom pkgs deps pkg = Done deps.
Proof.
  intros [Hlen Hall]%flattenAll_Done.
  assert (∀ (pkg : ref) deps, resolved !! pkg = Some deps →
                      resolveFrom pkgs deps pkg = Done deps) as Hagain.
  { intros pkg deps Hdeps. apply flatten_visited.
    eapply flatten_elem. by apply Hall. }
  split; [|done].
  apply flattenAllFrom_Done. split; [done|].
  intros pkg deps Hdeps.
  rewrite (list_lookup_total_correct _ _ _ Hdeps). by apply Hagain.
Qed.

Lemma occurrences_NoDup {A} `{EqDecision A} (x : A) (l : list A) :
  NoDup l → x ∈ l → occurrences x l = 1.
Proof.
  unfold occurrences. induction 1 as [|y l Hy Hl IH].
  { by intros ?%elem_of_nil. }
  intros [->|Hx]%elem_of_cons.
  - rewrite filter_cons_True by done. simpl. f_equal.
    destruct (filter _ l) as [|z k] eqn:E; [done|].
    assert (z ∈ filter (λ y', y' = y) l) as Hz by (rewrite E; left).
    apply list_elem_of_filter in Hz as [-> Hz]. done.
  - rewrite filter_cons_False; [by apply IH|]. intros ->. done.
Qed.

Section TwoCycle.

Variable pkgs : list Package.
Variable pkgsMap : gmap string ref.

Local Abbreviation flatten := (flattenDependencies pkgs pkgsMap).

Lemma findDeps_single f dep td required s X (r : ref) :
  keys td = [X] → lookupDep pkgs pkgsMap dep required X = Done (Some r) →
  findDeps pkgs pkgsMap f dep td required s = f s r.
Proof.
  intros Hk Hr. unfold findDeps. rewrite Hk. simpl. rewrite Hr. simpl.
  by destruct (f s r).
Qed.

Lemma findDeps_none f dep td required s :
  keys td = [] → findDeps pkgs pkgsMap f dep td required s = Done s.
Proof. intros Hk. unfold findDeps. by rewrite Hk. Qed.

Lemma flatten_unfold fuel deps (dep : ref) :
  flatten (S fuel) deps dep =
  if decide (dep ∈ deps) then Done deps
  else
    let deps := deps ++ [dep] in
    let* deps := findDeps pkgs pkgsMap (flatten fuel) dep
                   (dependencies (obj pkgs dep)) true deps in
    let* deps := findDeps pkgs pkgsMap (flatten fuel) dep
                   (peerDependencies (obj pkgs dep)) true deps in
    findDeps pkgs pkgsMap (flatten fuel) dep
      (optionalDependencies (obj pkgs dep)) false deps.
Proof. done. Qed.

(** Two packages that declare only each other: flattening the first
    visits it, then the second, and stops at the first again. *)
Lemma flatten_two_cycle (A B : ref) x y :
  A ≠ B →
  only_declares (obj pkgs A) x →
  lookupDep pkgs pkgsMap A true x = Done (Some B) →
  only_declares (obj pkgs B) y →
  lookupDep pkgs pkgsMap B true y = Done (Some A) →
  flatten 3 [] A = Done [A; B].
Proof.
  intros Hne (HA1 & HA2 & HA3) HAx (HB1 & HB2 & HB3) HBy.
  assert (flatten 2 [A] B = Done [A; B]) as Hinner.
  { rewrite flatten_unfold. case_decide as Hin.
    { apply list_elem_of_singleton in Hin. congruence. }
    cbn zeta. rewrite (findDeps_single _ _ _ _ _ _ _ HB1 HBy).
    rewrite flatten_visited;
      [|apply elem_of_app; left; by apply list_elem_of_singleton].
    cbn [bind app]. rewrite (findDeps_none _ _ _ _ _ HB2). cbn [bind].
    by rewrite (findDeps_none _ _ _ _ _ HB3). }
  rewrite flatten_unfold. case_decide as Hin.
  { by apply elem_of_nil in Hin. }
  cbn zeta. rewrite (findDeps_single _ _ _ _ _ _ _ HA1 HAx).
  cbn [app]. rewrite Hinner. cbn [bind].
  rewrite (findDeps_none _ _ _ _ _ HA2). cbn [bind].
  by rewrite (findDeps_none _ _ _ _ _ HA3).
Qed.

End TwoCycle.

(** C4: resolution terminates on every package list, cycles included:
    no call of [main]'s pass lacks fuel, and more fuel changes nothing.
    For two packages that declare only each other, both resolutions
    return, with each package once in the other's list; and whenever
    two packages declare each other and their resolutions return, each
    occurs exactly once in the other's list. *)
Theorem cycles_terminate pkgs :
  (∀ (pkg : ref) deps, pkg < length pkgs →
     resolveFrom pkgs deps pkg ≠ OutOfFuel ∧
     ∀ fuel, enough pkgs ≤ fuel →
       flattenDependencies pkgs (buildMap pkgs) fuel deps pkg
       = resolveFrom pkgs deps pkg) ∧
  flattenAll pkgs ≠ OutOfFuel ∧
  (∀ (A B : ref) x y,
     A ≠ B → A < length pkgs → B < length pkgs →
     only_declares (obj pkgs A) x →
     lookupDep pkgs (buildMap pkgs) A true x = Done (Some B) →
     only_declares (obj pkgs B) y →
     lookupDep pkgs (buildMap pkgs) B true y = Done (Some A) →
     resolve pkgs A = Done [A; B] ∧ resolve pkgs B = Done [B; A]) ∧
  (∀ (A B : ref) x y rx ry dA dB,
     declares (obj pkgs A) x →
     lookupDep pkgs (buildMap pkgs) A rx x = Done (Some B) →
     declares (obj pkgs B) y →
     lookupDep pkgs (buildMap pkgs) B ry y = Done (Some A) →
     resolve pkgs A = Done dA → resolve pkgs B = Done dB →
     occurrences B dA = 1 ∧ occurrences A dA = 1 ∧
     occurrences A dB = 1 ∧ occurrences B dB = 1).
Proof.
  split; [|split; [|split]].
  - intros pkg deps Hpkg. split; [by apply resolveFrom_fuel|].
    intros fuel Hfuel. by apply resolveFrom_more.
  - apply flattenAllFrom_fuel.
  - intros A B x y Hne HA HB HAd HAx HBd HBy.
    assert (3 ≤ enough pkgs) as Hfuel by (unfold enough; lia).
    split; (eapply flatten_more; [exact Hfuel| |done]).
    + by eapply flatten_two_cycle.
    + by eapply flatten_two_cycle.
  - intros A B x y rx ry dA dB HAd HAx HBd HBy HdA HdB.
    assert (NoDup dA) by (eapply flatten_NoDup; [|exact HdA]; constructor).
    assert (NoDup dB) by (eapply flatten_NoDup; [|exact HdB]; constructor).
    repeat split; apply occurrences_NoDup; try done.
    + eapply flatten_direct; [apply not_elem_of_nil|exact HdA|done..].
    + by eapply flatten_elem.
    + eapply flatten_direct; [apply not_elem_of_nil|exact HdB|done..].
    + by eapply flatten_elem.
Qed.

(** ** Nearest-ancestor lookup *)

Lemma first_present_app pkgsMap l1 l2 :
  first_present pkgsMap (l1 ++ l2) =
  match first_present pkgsMap l1 with
  | Some r => Some r
  | None => first_present pkgsMap l2
  end.
Proof.
  unfold first_present. rewrite omap_app.
  by destruct (omap _ l1).
Qed.

Lemma first_present_None pkgsMap l :
  first_present pkgsMap l = None ↔ ∀ path, path ∈ l → pkgsMap !! path = None.
Proof.
  unfold first_present. induction l as [|x l IH]; simpl.
  { split; [by intros _ ? ?%elem_of_nil|done]. }
  destruct (pkgsMap !! x) eqn:E; simpl.
  - split; [done|]. intros H. specialize (H x). rewrite E in H.
    discriminate H. left.
  - rewrite IH. split.
    + intros H path [->|?]%elem_of_cons; auto.
    + intros H path ?. apply H. by right.
Qed.

(** The first present path, by position. *)
Lemma first_present_Some pkgsMap l (r : ref) :
  first_present pkgsMap l = Some r ↔
  ∃ i path, l !! i = Some path ∧ pkgsMap !! path = Some r ∧
            ∀ j path', j < i → l !! j = Some path' → pkgsMap !! path' = None.
Proof.
  unfold first_present. induction l as [|x l IH]; simpl.
  { split; [done|]. by intros (i & path & Hi & _). }
  destruct (pkgsMap !! x) eqn:E; simpl.
  - split.
    + intros [= <-]. exists 0, x. repeat split; [done|]. intros; lia.
    + intros ([|i] & path & Hi & Hr & Hfirst); simpl in Hi.
      * by simplify_eq.
      * specialize (Hfirst 0 x). rewrite E in Hfirst.
        discriminate Hfirst; [lia|done].
  - rewrite IH. split.
    + intros (i & path & Hi & Hr & Hfirst). exists (S i), path.
      repeat split; [done..|]. intros [|j] path' Hj Hpath'; simpl in *.
      * by simplify_eq.
      * eapply Hfirst; [|done]. lia.
    + intros ([|i] & path & Hi & Hr & Hfirst); simpl in Hi.
      * simplify_eq.
      * exists i, path. repeat split; [done..|].
        intros j path' Hj Hpath'. apply (Hfirst (S j)); [lia|done].
Qed.

Section Lookup.

Variable pkgs : list Package.
Variable pkgsMap : gmap string ref.

(** The loop tries the candidate paths, longest first. *)
Lemma lookupNested_first_present segs X n :
  lookupNested pkgsMap segs X n =
  first_present pkgsMap
    ((λ k, Posix.join (take k segs ++ ["node_modules"; X])) <$>
     reverse (seq 1 n)).
Proof.
  induction n as [|n IH]; [done|].
  rewrite seq_S, reverse_app. cbn [lookupNested].
  unfold first_present in *. simpl.
  destruct (pkgsMap !! _); [done|]. exact IH.
Qed.

Lemma lookupDep_first_present (dep : ref) required X :
  lookupDep pkgs pkgsMap dep required X =
  match first_present pkgsMap
          (candidate_paths (_dir (obj pkgs dep)) X ++ [X]) with
  | Some found => Done (Some found)
  | None =>
      if required
      then Throw (missing_dep_message X (_dir (obj pkgs dep)))
      else Done None
  end.
Proof.
  unfold lookupDep. rewrite lookupNested_first_present, first_present_app.
  fold (candidate_paths (_dir (obj pkgs dep)) X).
  destruct (first_present pkgsMap (candidate_paths _ _)); [done|].
  unfold first_present. simpl. by destruct (pkgsMap !! X).
Qed.

End Lookup.

(** C1: a declared name [X] of a package is looked up along the candidate
    paths [<segments>/node_modules/X] of the package's directory, longest
    first, and then at the root; the first path in the index is selected.
    A nested copy is selected whether or not a root-level [X] exists; the
    root-level [X] is selected only when no nested candidate matches; and
    the package selected is in [_dependencies] when the visit of the
    declaring package returns.  For a directory and a name in normal
    form [path.posix.join] yields the paths literally. *)
Theorem nearest_ancestor_lookup pkgs pkgsMap (dep : ref) required X :
  let paths := candidate_paths (_dir (obj pkgs dep)) X in
  let selected := lookupDep pkgs pkgsMap dep required X in
  selected =
    match first_present pkgsMap (paths ++ [X]) with
    | Some found => Done (Some found)
    | None =>
        if required
        then Throw (missing_dep_message X (_dir (obj pkgs dep)))
        else Done None
    end ∧
  (∀ i path (nested : ref),
     paths !! i = Some path → pkgsMap !! path = Some nested →
     (∀ j path', j < i → paths !! j = Some path' → pkgsMap !! path' = None) →
     selected = Done (Some nested)) ∧
  (∀ root : ref,
     (∀ path, path ∈ paths → pkgsMap !! path = None) →
     pkgsMap !! X = Some root →
     selected = Done (Some root)) ∧
  (∀ found : ref,
     selected = Done (Some found) →
     (∃ path, path ∈ paths ∧ pkgsMap !! path = Some found) ∨
     ((∀ path, path ∈ paths → pkgsMap !! path = None) ∧
      pkgsMap !! X = Some found)) ∧
  (∀ fuel deps deps' (found : ref),
     dep ∉ deps → declares (obj pkgs dep) X →
     selected = Done (Some found) →
     flattenDependencies pkgs pkgsMap fuel deps dep = Done deps' →
     found ∈ deps') ∧
  (plain_path (_dir (obj pkgs dep)) → plain_path X →
   paths = literal_candidates (_dir (obj pkgs dep)) X).
Proof.
  intros paths selected.
  assert (selected =
    match first_present pkgsMap (paths ++ [X]) with
    | Some found => Done (Some found)
    | None =>
        if required
        then Throw (missing_dep_message X (_dir (obj pkgs dep)))
        else Done None
    end) as Hsel by apply lookupDep_first_present.
  split; [done|]. rewrite first_present_app in Hsel.
  split; [|split; [|split; [|split]]].
  - intros i path nested Hi Hnested Hfirst.
    rewrite (proj2 (first_present_Some pkgsMap paths nested)) in Hsel; eauto.
  - intros root Hnone Hroot.
    rewrite (proj2 (first_present_None pkgsMap paths)) in Hsel by done.
    unfold first_present in Hsel. simpl in Hsel. by rewrite Hroot in Hsel.
  - intros found Hfound. rewrite Hsel in Hfound.
    destruct (first_present pkgsMap paths) as [r|] eqn:E.
    + left. simplify_eq.
      apply first_present_Some in E as (i & path & Hi & Hr & _).
      exists path. split; [by eapply list_elem_of_lookup_2|done].
    + right. split; [by apply first_present_None|].
      unfold first_present in Hfound. simpl in Hfound.
      destruct (pkgsMap !! X); simpl in Hfound; [by simplify_eq|].
      by destruct required.
  - intros fuel deps deps' found Hin Hdecl Hfound Hflat.
    by eapply flatten_direct.
  - apply candidate_paths_literal.
Qed.

(** ** What resolution computes *)

Section Reachability.

Variable pkgs : list Package.
Variable pkgsMap : gmap string ref.

Local Abbreviation flatten := (flattenDependencies pkgs pkgsMap).
Local Abbreviation lookup_dep := (lookupDep pkgs pkgsMap).
Local Abbreviation edge := (depends_on pkgs pkgsMap).

(** Every package a call adds is closed under [depends_on] when the call
    returns. *)
Lemma flatten_closed fuel :
  ∀ deps (dep : ref) deps',
    flatten fuel deps dep = Done deps' →
    ∀ r : ref, r ∈ deps' → r ∉ deps → ∀ r' : ref, edge r r' → r' ∈ deps'.
Proof.
  induction fuel as [|fuel IH]; [done|].
  intros deps dep deps' Hcall. generalize Hcall. rewrite flatten_unfold.
  destruct (decide (dep ∈ deps)) as [Hin|Hin]; [by intros [= <-]|].
  cbn zeta.
  set (R := λ s s' : list ref,
    s `prefix_of` s' ∧
    ∀ r : ref, r ∈ s' → r ∉ s → ∀ r' : ref, edge r r' → r' ∈ s').
  assert (∀ s, R s s) as Hrefl by (by split).
  assert (∀ s1 s2 s3, R s1 s2 → R s2 s3 → R s1 s3) as Htrans.
  { intros s1 s2 s3 [Hp1 Hc1] [Hp2 Hc2]. split; [by etrans|].
    intros r Hr Hr1 r' He. destruct (decide (r ∈ s2)) as [Hr2|Hr2].
    - destruct Hp2 as [k ->]. apply elem_of_app. left. by eapply Hc1.
    - by eapply Hc2. }
  assert (∀ td required s s',
    findDeps pkgs pkgsMap (flatten fuel) dep td required s = Done s' → R s s')
    as Hfind.
  { intros td required s s' (found & Hfound & Hfold)%findDeps_Done.
    eapply (foldO_rel R); [done..| |exact Hfold].
    intros s1 r s2 _ Hr. split; [by eapply flatten_prefix|by eapply IH]. }
  intros (s1 & H1 & (s2 & H2 & H3)%bind_Done)%bind_Done.
  assert (R (deps ++ [dep]) deps') as [_ Hclosed].
  { eapply Htrans; [by eapply Hfind|]. eapply Htrans; by eapply Hfind. }
  intros r Hr Hnew r' He.
  destruct (decide (r ∈ deps ++ [dep])) as [Hold|Hold]; [|by eapply Hclosed].
  apply elem_of_app in Hold as [?|Hd]; [done|].
  apply list_elem_of_singleton in Hd as ->.
  destruct He as (X & required & HX & Hlook).
  by eapply flatten_direct.
Qed.

(** Every package a call adds is reached from the package flattened. *)
Lemma flatten_reached fuel :
  ∀ deps (dep : ref) deps',
    flatten fuel deps dep = Done deps' →
    ∀ r : ref, r ∈ deps' → r ∈ deps ∨ rtc edge dep r.
Proof.
  induction fuel as [|fuel IH]; [done|].
  intros deps dep deps'. rewrite flatten_unfold.
  destruct (decide (dep ∈ deps)) as [Hin|Hin]; [intros [= <-]; auto|].
  cbn zeta.
  set (R := λ s s' : list ref, ∀ r : ref, r ∈ s' → r ∈ s ∨ rtc edge dep r).
  assert (∀ s, R s s) as Hrefl by (intros s r; auto).
  assert (∀ s1 s2 s3, R s1 s2 → R s2 s3 → R s1 s3) as Htrans.
  { intros s1 s2 s3 H12 H23 r Hr. destruct (H23 r Hr); auto. }
  assert (∀ td required s s',
    keys td ⊆ keys (dependencies (obj pkgs dep))
              ++ keys (peerDependencies (obj pkgs dep))
              ++ keys (optionalDependencies (obj pkgs dep)) →
    findDeps pkgs pkgsMap (flatten fuel) dep td required s = Done s' → R s s')
    as Hfind.
  { intros td required s s' Htd (found & Hfound & Hfold)%findDeps_Done.
    eapply (foldO_rel R); [done..| |exact Hfold].
    intros s1 x s2 Hx Hflat r Hr.
    destruct (IH _ _ _ Hflat r Hr) as [?|Hreach]; [by left|right].
    destruct (found_declared _ _ _ _ _ _ _ Hfound Hx) as (X & HX & Hlook).
    eapply rtc_l; [|exact Hreach]. exists X, required. split; [|done].
    apply Htd in HX. unfold declares.
    rewrite !elem_of_app in HX. tauto. }
  intros (s1 & H1 & (s2 & H2 & H3)%bind_Done)%bind_Done r Hr.
  assert (R (deps ++ [dep]) deps') as Hall.
  { eapply Htrans; [eapply Hfind; [|exact H1]|].
    { intros X HX. apply elem_of_app. by left. }
    eapply Htrans; [eapply Hfind; [|exact H2]|eapply Hfind; [|exact H3]].
    - intros X HX. apply elem_of_app. right. apply elem_of_app. by left.
    - intros X HX. apply elem_of_app. right. apply elem_of_app. by right. }
  destruct (Hall r Hr) as [Hold|?]; [|by right].
  apply elem_of_app in Hold as [?|Hd]; [by left|].
  apply list_elem_of_singleton in Hd as ->. right. apply rtc_refl.
Qed.

End Reachability.

(** What resolution leaves in [_dependencies] of a freshly parsed
    package: the packages reached from it. *)
Lemma resolve_reachable pkgs (pkg : ref) deps :
  resolve pkgs pkg = Done deps →
  ∀ r : ref, r ∈ deps ↔ rtc (depends_on pkgs (buildMap pkgs)) pkg r.
Proof.
  intros Hres r. split.
  - intros Hr.
    destruct (flatten_reached _ _ _ _ _ _ Hres r Hr) as [[]%elem_of_nil|]; done.
  - revert r. apply rtc_ind_r.
    + eapply flatten_elem. exact Hres.
    + intros y z _ Hyz Hy.
      eapply flatten_closed; [exact Hres|exact Hy|apply not_elem_of_nil|done].
Qed.

(** ** Required and optional dependencies *)

Lemma foldO_Throw {A S} (f : S → A → outcome S) l s msg :
  foldO f s l = Throw msg → ∃ s' x, x ∈ l ∧ f s' x = Throw msg.
Proof.
  revert s. induction l as [|x l IH]; intros s; simpl; [done|].
  intros [Hx | (s1 & Hx & Hrest)]%bind_Throw.
  - exists s, x. split; [left|done].
  - destruct (IH _ Hrest) as (s' & x' & ? & ?).
    exists s', x'. split; [by right|done].
Qed.

Section Missing.

Variable pkgs : list Package.
Variable pkgsMap : gmap string ref.

Local Abbreviation flatten := (flattenDependencies pkgs pkgsMap).
Local Abbreviation lookup_dep := (lookupDep pkgs pkgsMap).

Lemma lookupDep_required_missing (dep : ref) X :
  unresolvable pkgsMap (_dir (obj pkgs dep)) X →
  lookup_dep dep true X = Throw (missing_dep_message X (_dir (obj pkgs dep))).
Proof. intros H. rewrite lookupDep_first_present. by rewrite H. Qed.

Lemma lookupDep_optional (dep : ref) X :
  lookup_dep dep false X =
  Done (first_present pkgsMap (candidate_paths (_dir (obj pkgs dep)) X ++ [X])).
Proof.
  rewrite lookupDep_first_present. by destruct (first_present _ _).
Qed.

Lemma lookupDep_Throw (dep : ref) required X msg :
  lookup_dep dep required X = Throw msg →
  required = true ∧ unresolvable pkgsMap (_dir (obj pkgs dep)) X ∧
  msg = missing_dep_message X (_dir (obj pkgs dep)).
Proof.
  rewrite lookupDep_first_present. unfold unresolvable.
  destruct (first_present _ _); [done|]. destruct required; [|done].
  by intros [= <-].
Qed.

(** Every exception of the resolver names a required dependency that
    is not found, and the directory of the package that declares it. *)
Lemma flatten_Throw fuel deps (dep : ref) msg :
  flatten fuel deps dep = Throw msg →
  ∃ (d : ref) Y,
    requires (obj pkgs d) Y ∧ unresolvable pkgsMap (_dir (obj pkgs d)) Y ∧
    msg = missing_dep_message Y (_dir (obj pkgs d)).
Proof.
  revert deps dep. induction fuel as [|fuel IH]; intros deps dep; [done|].
  rewrite flatten_unfold. case_decide; [done|]. cbn zeta.
  assert (∀ td required s,
    findDeps pkgs pkgsMap (flatten fuel) dep td required s = Throw msg →
    (∃ Y, Y ∈ keys td ∧ required = true ∧
          unresolvable pkgsMap (_dir (obj pkgs dep)) Y ∧
          msg = missing_dep_message Y (_dir (obj pkgs dep))) ∨
    ∃ (d : ref) Y,
      requires (obj pkgs d) Y ∧ unresolvable pkgsMap (_dir (obj pkgs d)) Y ∧
      msg = missing_dep_message Y (_dir (obj pkgs d))) as Hfind.
  { intros td required s [Hk | (found & _ & Hfold)]%bind_Throw.
    - apply mapO_Throw in Hk as (Y & HY & HT).
      apply lookupDep_Throw in HT. left. exists Y. tauto.
    - apply foldO_Throw in Hfold as (s' & r & _ & Hr). right. eauto. }
  intros [H1 | (s1 & _ & [H2 | (s2 & _ & H3)]%bind_Throw)]%bind_Throw.
  - apply Hfind in H1 as [(Y & HY & _ & Hun & ->) | ?]; [|done].
    exists dep, Y. split; [by left|done].
  - apply Hfind in H2 as [(Y & HY & _ & Hun & ->) | ?]; [|done].
    exists dep, Y. split; [by right|done].
  - apply Hfind in H3 as [(Y & HY & ? & _) | ?]; done.
Qed.

(** A visit of a package with a required dependency that is not found
    does not return. *)
Lemma flatten_required_missing fuel deps (dep : ref) X deps' :
  requires (obj pkgs dep) X →
  unresolvable pkgsMap (_dir (obj pkgs dep)) X →
  dep ∉ deps → flatten fuel deps dep ≠ Done deps'.
Proof.
  intros Hreq Hun Hin. destruct fuel as [|fuel]; [done|].
  rewrite flatten_unfold. case_decide; [done|]. cbn zeta.
  intros (s1 & H1 & (s2 & H2 & _)%bind_Done)%bind_Done.
  apply findDeps_Done in H1 as (f1 & Hf1 & _).
  apply findDeps_Done in H2 as (f2 & Hf2 & _).
  pose proof (lookupDep_required_missing dep X Hun) as HT.
  destruct Hreq as [HX|HX].
  - apply mapO_Done in Hf1. apply list_elem_of_lookup in HX as [i Hi].
    destruct (Forall2_lookup_l _ _ _ _ _ Hf1 Hi) as (o & _ & Ho). congruence.
  - apply mapO_Done in Hf2. apply list_elem_of_lookup in HX as [i Hi].
    destruct (Forall2_lookup_l _ _ _ _ _ Hf2 Hi) as (o & _ & Ho). congruence.
Qed.

(** The first key of [dependencies] that is not found is the one the
    exception names: all names are looked up before any package found
    is visited. *)
Lemma flatten_first_missing fuel deps (dep : ref) X before after :
  keys (dependencies (obj pkgs dep)) = before ++ X :: after →
  (∀ Y, Y ∈ before → ¬ unresolvable pkgsMap (_dir (obj pkgs dep)) Y) →
  unresolvable pkgsMap (_dir (obj pkgs dep)) X →
  dep ∉ deps →
  flatten (S fuel) deps dep
  = Throw (missing_dep_message X (_dir (obj pkgs dep))).
Proof.
  intros Hkeys Hbefore Hun Hin.
  rewrite flatten_unfold. case_decide; [done|]. cbn zeta.
  unfold findDeps at 1. rewrite Hkeys.
  rewrite (mapO_first_Throw _ _ _ _
             (missing_dep_message X (_dir (obj pkgs dep)))); [done| |].
  - intros Y HY. rewrite lookupDep_first_present.
    specialize (Hbefore Y HY). unfold unresolvable in Hbefore.
    destruct (first_present _ _); [eauto|done].
  - by apply lookupDep_required_missing.
Qed.

(** The first key of [peerDependencies] that is not found is the one
    the exception names when the pass over [dependencies] has
    returned. *)
Lemma flatten_first_missing_peer fuel deps (dep : ref) X before after s1 :
  keys (peerDependencies (obj pkgs dep)) = before ++ X :: after →
  (∀ Y, Y ∈ before → ¬ unresolvable pkgsMap (_dir (obj pkgs dep)) Y) →
  unresolvable pkgsMap (_dir (obj pkgs dep)) X →
  dep ∉ deps →
  findDeps pkgs pkgsMap (flatten fuel) dep
    (dependencies (obj pkgs dep)) true (deps ++ [dep]) = Done s1 →
  flatten (S fuel) deps dep
  = Throw (missing_dep_message X (_dir (obj pkgs dep))).
Proof.
  intros Hkeys Hbefore Hun Hin Hdeps.
  rewrite flatten_unfold. case_decide; [done|]. cbn zeta.
  rewrite Hdeps. cbn [bind]. unfold findDeps at 1. rewrite Hkeys.
  rewrite (mapO_first_Throw _ _ _ _
             (missing_dep_message X (_dir (obj pkgs dep)))); [done| |].
  - intros Y HY. rewrite lookupDep_first_present.
    specialize (Hbefore Y HY). unfold unresolvable in Hbefore.
    destruct (first_present _ _); [eauto|done].
  - by apply lookupDep_required_missing.
Qed.

(** The exception of a visit is that of a required dependency that is
    not found of a package reached from the one visited. *)
Lemma flatten_Throw_reached fuel deps (dep : ref) msg :
  flatten fuel deps dep = Throw msg →
  ∃ (d : ref) Y,
    rtc (depends_on pkgs pkgsMap) dep d ∧
    requires (obj pkgs d) Y ∧ unresolvable pkgsMap (_dir (obj pkgs d)) Y ∧
    msg = missing_dep_message Y (_dir (obj pkgs d)).
Proof.
  revert deps dep. induction fuel as [|fuel IH]; intros deps dep; [done|].
  rewrite flatten_unfold. case_decide; [done|]. cbn zeta.
  assert (∀ td required s,
    (∀ Y, Y ∈ keys td → declares (obj pkgs dep) Y) →
    findDeps pkgs pkgsMap (flatten fuel) dep td required s = Throw msg →
    (∃ Y, Y ∈ keys td ∧ required = true ∧
          unresolvable pkgsMap (_dir (obj pkgs dep)) Y ∧
          msg = missing_dep_message Y (_dir (obj pkgs dep))) ∨
    ∃ (d : ref) Y,
      rtc (depends_on pkgs pkgsMap) dep d ∧
      requires (obj pkgs d) Y ∧ unresolvable pkgsMap (_dir (obj pkgs d)) Y ∧
      msg = missing_dep_message Y (_dir (obj pkgs d))) as Hfind.
  { intros td required s Htd [Hk | (found & Hfound & Hfold)]%bind_Throw.
    - apply mapO_Throw in Hk as (Y & HY & HT).
      apply lookupDep_Throw in HT. left. exists Y. tauto.
    - apply foldO_Throw in Hfold as (s' & r & Hr & HT). right.
      destruct (IH _ _ HT) as (d & Y & Hreach & Hrest).
      destruct (found_declared _ _ _ _ _ _ _ Hfound Hr) as (X & HX & Hlook).
      exists d, Y. split; [|done].
      eapply rtc_l; [|exact Hreach]. exists X, required. auto. }
  intros [H1 | (s1 & _ & [H2 | (s2 & _ & H3)]%bind_Throw)]%bind_Throw.
  - apply Hfind in H1 as [(Y & HY & _ & Hun & ->) | ?]; [|done|].
    + exists dep, Y. split; [apply rtc_refl|]. split; [by left|done].
    + intros Y HY. by left.
  - apply Hfind in H2 as [(Y & HY & _ & Hun & ->) | ?]; [|done|].
    + exists dep, Y. split; [apply rtc_refl|]. split; [by right|done].
    + intros Y HY. right. by left.
  - apply Hfind in H3 as [(Y & HY & ? & _) | ?]; [done..|].
    intros Y HY. right. by right.
Qed.

(** The required names of every package a call adds are found. *)
Lemma flatten_new_resolvable fuel :
  ∀ deps (dep : ref) deps',
    flatten fuel deps dep = Done deps' →
    ∀ d : ref, d ∈ deps' → d ∉ deps →
      ∀ Y, requires (obj pkgs d) Y →
           ¬ unresolvable pkgsMap (_dir (obj pkgs d)) Y.
Proof.
  induction fuel as [|fuel IH]; [done|].
  intros deps dep deps' Hcall. generalize Hcall. rewrite flatten_unfold.
  destruct (decide (dep ∈ deps)) as [Hin|Hin]; [by intros [= <-]|].
  cbn zeta.
  set (R := λ s s' : list ref,
    s `prefix_of` s' ∧
    ∀ d : ref, d ∈ s' → d ∉ s →
      ∀ Y, requires (obj pkgs d) Y →
           ¬ unresolvable pkgsMap (_dir (obj pkgs d)) Y).
  assert (∀ s, R s s) as Hrefl by (by split).
  assert (∀ s1 s2 s3, R s1 s2 → R s2 s3 → R s1 s3) as Htrans.
  { intros s1 s2 s3 [Hp1 Hc1] [Hp2 Hc2]. split; [by etrans|].
    intros d Hd Hd1. destruct (decide (d ∈ s2)); [by apply Hc1|by apply Hc2]. }
  assert (∀ td required s s',
    findDeps pkgs pkgsMap (flatten fuel) dep td required s = Done s' → R s s')
    as Hfind.
  { intros td required s s' (found & Hfound & Hfold)%findDeps_Done.
    eapply (foldO_rel R); [done..| |exact Hfold].
    intros s1 r s2 _ Hr. split; [by eapply flatten_prefix|by eapply IH]. }
  intros (s1 & H1 & (s2 & H2 & H3)%bind_Done)%bind_Done.
  assert (R (deps ++ [dep]) deps') as [_ Hnew].
  { eapply Htrans; [by eapply Hfind|]. eapply Htrans; by eapply Hfind. }
  intros d Hd Hfresh Y Hreq Hun.
  destruct (decide (d ∈ deps ++ [dep])) as [Hold|Hold]; [|by eapply Hnew].
  apply elem_of_app in Hold as [?|Hd']; [done|].
  apply list_elem_of_singleton in Hd' as ->.
  by eapply flatten_required_missing.
Qed.

(** Only a package of [pkgs] declares a name. *)
Lemma depends_on_valid (a b : ref) :
  depends_on pkgs pkgsMap a b → a < length pkgs.
Proof.
  intros (X & required & Hdecl & _).
  destruct (decide (a < length pkgs)) as [|Ha]; [done|].
  unfold obj in Hdecl.
  rewrite list_lookup_total_alt, lookup_ge_None_2 in Hdecl by lia.
  destruct Hdecl as [[]%elem_of_nil|[[]%elem_of_nil|[]%elem_of_nil]].
Qed.

End Missing.

(** A required dependency that is not found makes resolution of every
    package that reaches the package requiring it throw. *)
Lemma resolve_reached_missing pkgs (pkg dep : ref) X :
  dep < length pkgs →
  rtc (depends_on pkgs (buildMap pkgs)) pkg dep →
  requires (obj pkgs dep) X →
  unresolvable (buildMap pkgs) (_dir (obj pkgs dep)) X →
  ∃ (d : ref) Y,
    rtc (depends_on pkgs (buildMap pkgs)) pkg d ∧
    requires (obj pkgs d) Y ∧
    unresolvable (buildMap pkgs) (_dir (obj pkgs d)) Y ∧
    resolve pkgs pkg = Throw (missing_dep_message Y (_dir (obj pkgs d))).
Proof.
  intros Hdep Hreach Hreq Hun.
  assert (pkg < length pkgs) as Hpkg.
  { destruct Hreach as [|a b c Hab _]; [done|]. by eapply depends_on_valid. }
  destruct (resolve pkgs pkg) as [deps|msg|] eqn:E.
  - apply (resolve_reachable _ _ _ E) in Hreach.
    destruct (flatten_new_resolvable _ _ _ _ _ _ E dep Hreach
                (not_elem_of_nil _) X Hreq Hun).
  - apply flatten_Throw_reached in E as (d & Y & ? & ? & ? & ->). eauto 6.
  - by apply resolveFrom_fuel in E.
Qed.

Lemma obj_insert pkgs (dep d : ref) p :
  dep < length pkgs →
  obj (<[dep := p]> pkgs) d = if decide (d = dep) then p else obj pkgs d.
Proof.
  intros Hdep. unfold obj. case_decide as Hd.
  - subst d. by apply list_lookup_total_insert_eq.
  - by apply list_lookup_total_insert_ne.
Qed.

Lemma keys_without_optional X p :
  keys (optionalDependencies (without_optional X p))
  = filter (λ Y, Y ≠ X) (keys (optionalDependencies p)).
Proof.
  unfold keys. simpl. destruct (optionalDependencies p) as [od|]; [|done].
  simpl. induction od as [|[k v] od IH]; [done|].
  rewrite fmap_cons, !filter_cons. simpl.
  destruct (decide (k ≠ X)); simpl; [f_equal|]; exact IH.
Qed.

Lemma omap_filter_None {A B} (g : A → option B) (P : A → Prop)
    `{∀ x, Decision (P x)} (l : list A) :
  (∀ x, ¬ P x → g x = None) → omap g (filter P l) = omap g l.
Proof.
  intros Hg. induction l as [|x l IH]; [done|].
  rewrite filter_cons. case_decide as HP; simpl.
  - destruct (g x); [f_equal|]; exact IH.
  - rewrite (Hg x HP). exact IH.
Qed.

Lemma mapO_pure {A B} (g : A → B) (f : A → outcome B) l :
  (∀ x, f x = Done (g x)) → mapO f l = Done (g <$> l).
Proof.
  intros Hf. induction l as [|x l IH]; simpl; [done|].
  by rewrite Hf, IH.
Qed.

(** For optional names [findDeps] visits the packages found and
    nothing else happens. *)
Lemma findDeps_optional pkgs pkgsMap f (dep : ref) td s :
  findDeps pkgs pkgsMap f dep td false s =
  foldO f s
    (omap (λ X, first_present pkgsMap
                  (candidate_paths (_dir (obj pkgs dep)) X ++ [X]))
          (keys td)).
Proof.
  unfold findDeps.
  rewrite (mapO_pure
    (λ X, first_present pkgsMap
            (candidate_paths (_dir (obj pkgs dep)) X ++ [X])))
    by apply lookupDep_optional.
  simpl. f_equal. induction (keys td) as [|X l IH]; simpl; [done|].
  destruct (first_present _ _); simpl; [f_equal|]; exact IH.
Qed.

Lemma findDeps_ext pkgs pkgs' pkgsMap f f' (dep : ref) td td' required s :
  (∀ s r, f s r = f' s r) →
  _dir (obj pkgs dep) = _dir (obj pkgs' dep) →
  keys td = keys td' →
  findDeps pkgs pkgsMap f dep td required s
  = findDeps pkgs' pkgsMap f' dep td' required s.
Proof.
  intros Hf Hdir Hkeys. unfold findDeps, lookupDep. rewrite Hdir, Hkeys.
  destruct (mapO _ _); simpl; [|done..]. by apply foldO_ext.
Qed.

(** An optional name that is not found may as well not be declared. *)
Lemma flatten_without_optional pkgs pkgsMap (dep : ref) X :
  dep < length pkgs →
  unresolvable pkgsMap (_dir (obj pkgs dep)) X →
  ∀ fuel deps (d : ref),
    flattenDependencies (<[dep := without_optional X (obj pkgs dep)]> pkgs)
      pkgsMap fuel deps d
    = flattenDependencies pkgs pkgsMap fuel deps d.
Proof.
  intros Hdep Hun. set (pkgs' := <[dep := _]> pkgs).
  assert (∀ d : ref, _dir (obj pkgs' d) = _dir (obj pkgs d)) as Hdir.
  { intros d. unfold pkgs'. rewrite obj_insert by done.
    case_decide; by subst. }
  induction fuel as [|fuel IH]; intros deps d; [done|].
  rewrite !flatten_unfold. case_decide; [done|]. cbn zeta.
  rewrite (findDeps_ext pkgs' pkgs pkgsMap _
             (flattenDependencies pkgs pkgsMap fuel) d
             (dependencies (obj pkgs' d)) (dependencies (obj pkgs d)));
    [|done|done|].
  2:{ unfold pkgs'. rewrite obj_insert by done. case_decide; by subst. }
  destruct (findDeps pkgs _ _ _ _ _ _) as [s1| |]; simpl; [|done..].
  rewrite (findDeps_ext pkgs' pkgs pkgsMap _
             (flattenDependencies pkgs pkgsMap fuel) d
             (peerDependencies (obj pkgs' d)) (peerDependencies (obj pkgs d)));
    [|done|done|].
  2:{ unfold pkgs'. rewrite obj_insert by done. case_decide; by subst. }
  destruct (findDeps pkgs _ _ _ _ _ _) as [s2| |]; simpl; [|done..].
  destruct (decide (d = dep)) as [->|Hne].
  - rewrite !findDeps_optional, Hdir.
    unfold pkgs' at 2. rewrite obj_insert, decide_True by done.
    rewrite keys_without_optional, omap_filter_None.
    + by apply foldO_ext.
    + intros Y HY. destruct (decide (Y = X)) as [->|]; [exact Hun|].
      by destruct HY.
  - apply findDeps_ext; [done..|].
    unfold pkgs'. rewrite obj_insert by done. by rewrite decide_False.
Qed.

Lemma buildMap_dirs_from (l l' : list Package) (h : nat → nat)
    (m : gmap string ref) :
  _dir <$> l = _dir <$> l' →
  fold_left (λ m ipkg, <[_dir ipkg.2 := ipkg.1]> m)
            (imap (λ i p, (h i, p)) l) m
  = fold_left (λ (m : gmap string ref) (ipkg : nat * Package),
                 <[_dir ipkg.2 := ipkg.1]> m)
              (imap (λ i p, (h i, p)) l') m.
Proof.
  revert l' h m.
  induction l as [|p l IH]; intros [|p' l'] h m Heq; simplify_eq/=; [done|].
  rewrite H. by apply (IH l' (h ∘ S)).
Qed.

(** The index depends on the directories of the packages only. *)
Lemma buildMap_dirs pkgs pkgs' :
  _dir <$> pkgs = _dir <$> pkgs' → buildMap pkgs = buildMap pkgs'.
Proof. apply (buildMap_dirs_from pkgs pkgs' id). Qed.

Lemma buildMap_without_optional pkgs (dep : ref) X :
  buildMap (<[dep := without_optional X (obj pkgs dep)]> pkgs) = buildMap pkgs.
Proof.
  apply buildMap_dirs. rewrite list_fmap_insert. simpl.
  destruct (decide (dep < length pkgs)) as [Hlt|Hge].
  - apply list_insert_id. rewrite list_lookup_fmap.
    destruct (lookup_lt_is_Some_2 _ _ Hlt) as [q Hq]. rewrite Hq. simpl.
    unfold obj. by rewrite (list_lookup_total_correct _ _ _ Hq).
  - apply list_insert_ge. rewrite length_fmap. lia.
Qed.

(** ** [main]: failures and the file written *)

Section MainFacts.

Variable JSON_parse : string → result packageJson.
Variable JSON_stringify : Package → list string → string.

Local Abbreviation run_main := (run JSON_parse JSON_stringify).
Local Abbreviation document := (generated JSON_stringify).

Lemma run_unfold cwd :
  run_main cwd =
  match findPackages JSON_parse cwd with
  | Failed err => (Throw err, [])
  | Ok pkgs =>
      match flattenAll pkgs with
      | Done resolved =>
          (Done (),
           [("BUILD.bazel",
             append_manual (document pkgs resolved (findScopes cwd))
               (readFileSync "manual_build_file_contents" cwd))])
      | Throw msg => (Throw msg, [])
      | OutOfFuel => (OutOfFuel, [])
      end
  end.
Proof.
  unfold run, main, io_bind, io_lift, writeFileSync.
  destruct (findPackages JSON_parse cwd) as [pkgs|]; simpl; [|done].
  by destruct (flattenAll pkgs).
Qed.

(** A package with a required dependency that is not found makes the
    pass over all packages throw. *)
Lemma flattenAll_required_missing pkgs (dep : ref) X :
  dep < length pkgs → requires (obj pkgs dep) X →
  unresolvable (buildMap pkgs) (_dir (obj pkgs dep)) X →
  ∃ msg, flattenAll pkgs = Throw msg.
Proof.
  intros Hdep Hreq Hun.
  destruct (flattenAll pkgs) as [resolved|msg|] eqn:E; [|by eauto|].
  - apply flattenAll_Done in E as [Hlen Hall].
    destruct (lookup_lt_is_Some_2 resolved dep) as [deps Hdeps]; [lia|].
    apply Hall in Hdeps.
    apply flatten_required_missing with (X := X) in Hdeps; [done..|].
    apply not_elem_of_nil.
  - by apply flattenAllFrom_fuel in E.
Qed.

End MainFacts.

Lemma requires_valid pkgs (d : ref) Y :
  requires (obj pkgs d) Y → d < length pkgs.
Proof.
  intros Hreq. destruct (decide (d < length pkgs)) as [|Hd]; [done|].
  unfold obj in Hreq. rewrite list_lookup_total_alt, lookup_ge_None_2 in Hreq by lia.
  destruct Hreq as [[]%elem_of_nil|[]%elem_of_nil].
Qed.

(** C2: let [X] be found neither by the nearest-ancestor lookup from a
    package nor at the root of the index.  Looked up as a required name
    it throws the error that names [X] and the directory of the package;
    looked up as an optional name it gives no package.  If the package
    requires [X] (in [dependencies] or [peerDependencies]), resolution
    of the package, resolution of every package from which it is
    reached and the pass of [main] over all packages throw; the error
    names a required name that is not found and the directory of the
    package requiring it, a package reached from the one being
    resolved.  It names [X] and the
    package itself when [X] is the first key of [dependencies] that is
    not found, and when [X] is the first key of [peerDependencies] that
    is not found and the pass over [dependencies] has returned.  In
    [optionalDependencies], [X] changes nothing: every resolution is what
    it is without [X] declared there. *)
Theorem missing_dependency pkgs (dep : ref) X :
  dep < length pkgs →
  unresolvable (buildMap pkgs) (_dir (obj pkgs dep)) X →
  let dir := _dir (obj pkgs dep) in
  let reaches := rtc (depends_on pkgs (buildMap pkgs)) in
  let missing (d : ref) Y :=
    requires (obj pkgs d) Y ∧
    unresolvable (buildMap pkgs) (_dir (obj pkgs d)) Y in
  let error (d : ref) Y : outcome (list ref) :=
    Throw (missing_dep_message Y (_dir (obj pkgs d))) in
  lookupDep pkgs (buildMap pkgs) dep true X
    = Throw (missing_dep_message X dir) ∧
  lookupDep pkgs (buildMap pkgs) dep false X = Done None ∧
  (requires (obj pkgs dep) X →
   (∀ deps, dep ∉ deps →
      ∃ (d : ref) Y,
        reaches dep d ∧ missing d Y ∧ resolveFrom pkgs deps dep = error d Y) ∧
   (∀ pkg : ref, reaches pkg dep →
      ∃ (d : ref) Y,
        reaches pkg d ∧ missing d Y ∧ resolve pkgs pkg = error d Y) ∧
   (∃ (d : ref) Y,
      d < length pkgs ∧ missing d Y ∧
      flattenAll pkgs = Throw (missing_dep_message Y (_dir (obj pkgs d))))) ∧
  (∀ before after,
     keys (dependencies (obj pkgs dep)) = before ++ X :: after →
     (∀ Y, Y ∈ before → ¬ unresolvable (buildMap pkgs) dir Y) →
     ∀ deps, dep ∉ deps →
       resolveFrom pkgs deps dep = Throw (missing_dep_message X dir)) ∧
  (∀ before after,
     keys (peerDependencies (obj pkgs dep)) = before ++ X :: after →
     (∀ Y, Y ∈ before → ¬ unresolvable (buildMap pkgs) dir Y) →
     ∀ deps deps1, dep ∉ deps →
       findDeps pkgs (buildMap pkgs)
         (flattenDependencies pkgs (buildMap pkgs) (length pkgs)) dep
         (dependencies (obj pkgs dep)) true (deps ++ [dep]) = Done deps1 →
       resolveFrom pkgs deps dep = Throw (missing_dep_message X dir)) ∧
  (let pkgs' := <[dep := without_optional X (obj pkgs dep)]> pkgs in
   ∀ deps (pkg : ref), resolveFrom pkgs' deps pkg = resolveFrom pkgs deps pkg).
Proof.
  intros Hdep Hun dir reaches missing error.
  split; [|split; [|split; [|split; [|split]]]].
  - by apply lookupDep_required_missing.
  - rewrite lookupDep_optional. by rewrite Hun.
  - intros Hreq. split; [|split].
    + intros deps Hin.
      destruct (resolveFrom pkgs deps dep) as [deps'|msg|] eqn:E.
      * by apply flatten_required_missing with (X := X) in E.
      * apply flatten_Throw_reached in E as (d & Y & ? & ? & ? & ->).
        exists d, Y. by repeat split.
      * by apply resolveFrom_fuel in E.
    + intros pkg Hreach.
      destruct (resolve_reached_missing pkgs pkg dep X)
        as (d & Y & ? & ? & ? & ?); [done..|].
      exists d, Y. by repeat split.
    + destruct (flattenAll_required_missing pkgs dep X) as [msg Hmsg];
        [done..|].
      pose proof Hmsg as (pkg & _ & Hpkg)%mapO_Throw.
      apply flatten_Throw in Hpkg as (d & Y & Hreq' & Hun' & ->).
      exists d, Y. split; [by eapply requires_valid|]. by repeat split.
  - intros before after Hkeys Hbefore deps Hin.
    by eapply flatten_first_missing.
  - intros before after Hkeys Hbefore deps deps1 Hin Hdeps.
    by eapply flatten_first_missing_peer.
  - intros pkgs' deps pkg. unfold resolveFrom, pkgs'.
    rewrite buildMap_without_optional.
    unfold enough. rewrite length_insert.
    by apply flatten_without_optional.
Qed.

(** C8: when scanning throws, as it does when it reads a package.json
    that cannot be read or parsed, or when a required dependency of some
    package is not found, [main] ends with an exception and has written
    nothing.
    However [main] ends, either it has returned and written BUILD.bazel
    once, in full, or it has written nothing. *)
Theorem output_all_or_nothing JSON_parse JSON_stringify cwd :
  let run := run JSON_parse JSON_stringify in
  (∀ err, findPackages JSON_parse cwd = Failed err →
          run cwd = (Throw err, [])) ∧
  (∀ here,
     entry "node_modules" cwd = Some here →
     meets_malformed JSON_parse "node_modules" here →
     ∃ err, run cwd = (Throw err, [])) ∧
  (∀ pkgs (dep : ref) X,
     findPackages JSON_parse cwd = Ok pkgs →
     dep < length pkgs → requires (obj pkgs dep) X →
     unresolvable (buildMap pkgs) (_dir (obj pkgs dep)) X →
     ∃ msg, run cwd = (Throw msg, [])) ∧
  (∀ pkgs msg,
     findPackages JSON_parse cwd = Ok pkgs → flattenAll pkgs = Throw msg →
     run cwd = (Throw msg, [])) ∧
  ((run cwd).1 ≠ OutOfFuel) ∧
  ((run cwd).1 ≠ Done () → (run cwd).2 = []) ∧
  ((run cwd).1 = Done () →
   ∃ buildFile, (run cwd).2 = [("BUILD.bazel", buildFile)]).
Proof.
  intros run. unfold run. rewrite !run_unfold.
  split; [|split; [|split; [|split; [|split; [|split]]]]].
  - by intros err ->.
  - intros here Hnm Hbad.
    destruct (findPackages_malformed JSON_parse cwd here Hnm Hbad)
      as [err ->]. eauto.
  - intros pkgs dep X -> Hdep Hreq Hun.
    destruct (flattenAll_required_missing pkgs dep X) as [msg ->]; [done..|].
    eauto.
  - by intros pkgs msg -> ->.
  - destruct (findPackages JSON_parse cwd) as [pkgs|]; [|done].
    destruct (flattenAll pkgs) eqn:E; [done..|].
    by apply flattenAllFrom_fuel in E.
  - destruct (findPackages JSON_parse cwd) as [pkgs|]; [|done].
    by destruct (flattenAll pkgs).
  - destruct (findPackages JSON_parse cwd) as [pkgs|]; [|done].
    destruct (flattenAll pkgs); [eauto|done..].
Qed.

(** C10: whatever the error of reading manual_build_file_contents, it
    is swallowed: [main] returns and writes the generated document as it
    is, without the fragment and without the two newlines that precede
    the fragment when the read succeeds. *)
Theorem manual_read_errors_swallowed
    JSON_parse JSON_stringify cwd pkgs resolved :
  let run := run JSON_parse JSON_stringify in
  let document := generated JSON_stringify pkgs resolved (findScopes cwd) in
  findPackages JSON_parse cwd = Ok pkgs →
  flattenAll pkgs = Done resolved →
  (∀ err, readFileSync "manual_build_file_contents" cwd = Failed err →
          run cwd = (Done (), [("BUILD.bazel", document)])) ∧
  (∀ manualContents,
     readFileSync "manual_build_file_contents" cwd = Ok manualContents →
     run cwd = (Done (),
                [("BUILD.bazel",
                  (document +:+ Str.nl +:+ Str.nl) +:+ manualContents)])).
Proof.
  intros run document Hpkgs Hres. unfold run.
  rewrite run_unfold, Hpkgs, Hres.
  split; [intros err ->|intros manualContents ->]; done.
Qed.

(** ** Strings as character lists *)

Lemma to_list_app s t :
  String.list_ascii_of_string (s +:+ t)
  = String.list_ascii_of_string s ++ String.list_ascii_of_string t.
Proof.
  induction s as [|c s IH]; [done|].
  change (String c s +:+ t) with (String c (s +:+ t)). simpl. by rewrite IH.
Qed.

Lemma to_list_inj s t :
  String.list_ascii_of_string s = String.list_ascii_of_string t → s = t.
Proof.
  intros H. rewrite <- (String.string_of_list_ascii_of_string s),
                    <- (String.string_of_list_ascii_of_string t).
  by rewrite H.
Qed.

Lemma app_inj_r s1 s2 t : s1 +:+ t = s2 +:+ t → s1 = s2.
Proof.
  intros H%(f_equal String.list_ascii_of_string).
  rewrite !to_list_app in H. apply to_list_inj. by eapply app_inv_tail.
Qed.

Lemma files_entry_inj d1 d2 : files_entry d1 = files_entry d2 → d1 = d2.
Proof.
  unfold files_entry. intros H.
  do 2 apply (inj (String.app _)) in H. by apply app_inj_r in H.
Qed.

(** ** The aggregate target *)

Lemma join_empty_cons x l : Str.join "" (x :: l) = x +:+ Str.join "" l.
Proof. destruct l; [by rewrite string_app_nil_r|done]. Qed.

(** A text put together from pieces contains each of them. *)
Lemma join_empty_elem {A} (f : A → string) (l : list A) x :
  x ∈ l → ∃ before after, Str.join "" (f <$> l) = before +:+ f x +:+ after.
Proof.
  induction l as [|y l IH]; [by intros ?%elem_of_nil|].
  rewrite fmap_cons, join_empty_cons. intros [->|Hx]%elem_of_cons.
  - by exists "", (Str.join "" (f <$> l)).
  - destruct (IH Hx) as (before & after & ->).
    exists (f y +:+ before), after. by rewrite string_app_assoc.
Qed.

(** C5: for a package that is not nested, [main] writes the text that
    [printPackage] prints for the package and its [_dependencies], and
    in it the target [filegroup] named after the directory of the
    package has as its [srcs] the package's own files-target
    [":<dir>__files",] followed by the files-targets of the records of
    [_dependencies] that are not the package and are not nested, in the
    order of [_dependencies]; no entry occurs twice, the package's own
    occurs once, and the files-target of a nested package does not
    occur.  The text written is the header, then what [printPackage]
    prints for every package that is not nested with its own
    [_dependencies], in the order of [pkgs], then the scopes and the
    manual fragment.
    (Directories are unique among the packages [findPackages] finds:
    [findPackages_unique_dirs].) *)
Theorem aggregate_inputs pkgs resolved (pkg : ref) deps :
  unique_dirs pkgs →
  flattenAll pkgs = Done resolved →
  resolved !! pkg = Some deps →
  _isNested (obj pkgs pkg) = false →
  let files_target (dir : string) : string :=
    String "034" (":" +:+ dir +:+ "__files" +:+ String "034" ",") in
  let dir := _dir (obj pkgs pkg) in
  let own := files_target dir in
  let srcs :=
    own :: ((λ dep, files_target (_dir (obj pkgs dep))) <$>
            filter (λ dep, _isNested (obj pkgs dep) = false ∧ dep ≠ pkg)
                   deps) in
  aggregate_srcs pkgs pkg deps = srcs ∧
  NoDup srcs ∧
  occurrences own srcs = 1 ∧
  (∀ nested : ref,
     nested < length pkgs → _isNested (obj pkgs nested) = true →
     files_target (_dir (obj pkgs nested)) ∉ srcs) ∧
  (∀ JSON_stringify, ∃ before after executables,
     printPackage JSON_stringify pkgs pkg deps
     = lines (before ++
              [ "filegroup(";
                "    name = " +:+ String "034" (dir +:+ String "034" ",") ]
              ++ srcs_attribute dir srcs ++ after)
       +:+ executables) ∧
  (∀ JSON_parse JSON_stringify cwd,
     findPackages JSON_parse cwd = Ok pkgs →
     let targets :=
       Str.join ""
         ((λ p : ref, printPackage JSON_stringify pkgs p (resolved !!! p)) <$>
          filter (λ p : ref, _isNested (obj pkgs p) = false)
                 (seq 0 (length pkgs))) in
     ∃ manual before after,
       run JSON_parse JSON_stringify cwd
       = (Done (),
          [("BUILD.bazel",
            (BUILD_FILE_HEADER +:+ targets
             +:+ Str.join "" (printScope pkgs <$> findScopes cwd))
            +:+ manual)]) ∧
       targets
       = before +:+ printPackage JSON_stringify pkgs pkg deps +:+ after).
Proof.
  intros Huniq Hall Hdeps Hroot files_target dir own srcs.
  pose proof Hall as [Hlen Hres]%flattenAll_Done.
  specialize (Hres _ _ Hdeps).
  assert (NoDup deps) as Hnd.
  { eapply flatten_NoDup; [|exact Hres]. constructor. }
  assert (pkg < length pkgs) as Hpkg.
  { apply lookup_lt_Some in Hdeps. lia. }
  assert (Forall (λ r, r < length pkgs) deps) as Hvalid.
  { eapply resolveFrom_valid; [exact Hpkg| |exact Hres]. constructor. }
  rewrite Forall_forall in Hvalid.
  assert (∀ d1 d2, files_target d1 = files_target d2 → d1 = d2) as Hinj.
  { intros d1 d2 Heq. by apply files_entry_inj. }
  assert (aggregate_srcs pkgs pkg deps = srcs) as Hagg.
  { unfold srcs, aggregate_srcs, dependency_entries.
    by rewrite list_filter_filter. }
  assert (∀ (r : ref) e,
    r < length pkgs → e = files_target (_dir (obj pkgs r)) →
    e ∈ (λ dep, files_target (_dir (obj pkgs dep))) <$>
        filter (λ dep, _isNested (obj pkgs dep) = false ∧ dep ≠ pkg) deps →
    _isNested (obj pkgs r) = false ∧ r ≠ pkg) as Hrest.
  { intros r e Hr -> (r' & Heq & Hr')%list_elem_of_fmap.
    apply list_elem_of_filter in Hr' as [Hkeep Hr'].
    apply Hinj in Heq.
    apply unique_dirs_inj in Heq; [by subst|auto..]. }
  assert (NoDup srcs) as Hnodup.
  { constructor.
    - intros Hown. by destruct (Hrest pkg own Hpkg eq_refl Hown).
    - apply NoDup_fmap_2_strong; [|by apply NoDup_filter].
      intros r1 r2 [_ Hr1]%list_elem_of_filter [_ Hr2]%list_elem_of_filter Heq.
      apply Hinj in Heq. apply unique_dirs_inj in Heq; auto. }
  split; [done|]. split; [done|]. split; [|split; [|split]].
  - apply occurrences_NoDup; [done|]. left.
  - intros nested Hvalidn Hnested.
    intros [Heq|Hin]%elem_of_cons.
    + apply Hinj, unique_dirs_inj in Heq; [|done..].
      subst. congruence.
    + destruct (Hrest nested _ Hvalidn eq_refl Hin). congruence.
  - intros JSON_stringify. rewrite <- Hagg. unfold printPackage.
    eexists [_; _; _], _, _. reflexivity.
  - intros JSON_parse JSON_stringify cwd Hscan targets.
    rewrite run_unfold, Hscan, Hall.
    destruct (join_empty_elem
                (λ p : ref, printPackage JSON_stringify pkgs p (resolved !!! p))
                (filter (λ p : ref, _isNested (obj pkgs p) = false)
                        (seq 0 (length pkgs))) pkg)
      as (before & after & Hblock).
    { apply list_elem_of_filter. split; [done|]. apply elem_of_seq. lia. }
    cbn beta in Hblock.
    rewrite (list_lookup_total_correct _ _ _ Hdeps) in Hblock.
    unfold generated.
    destruct (readFileSync "manual_build_file_contents" cwd)
      as [manualContents|err]; cbn [append_manual].
    + exists ((Str.nl +:+ Str.nl) +:+ manualContents), before, after.
      split; [|exact Hblock]. by rewrite !string_app_assoc.
    + exists "", before, after.
      split; [|exact Hblock]. by rewrite string_app_nil_r.
Qed.

(** ** Executables *)

Lemma replace_all_get c d s i :
  String.get i (Str.replace_all c d s)
  = (λ a, if decide (a = c) then d else a) <$> String.get i s.
Proof.
  revert i. induction s as [|a s IH]; intros [|i]; simpl; auto.
Qed.

Lemma replace_all_length c d s :
  String.length (Str.replace_all c d s) = String.length s.
Proof. induction s; simpl; auto. Qed.

(** No backslash is left in a normalised path. *)
Lemma replace_all_gone c d s i :
  c ≠ d → String.get i (Str.replace_all c d s) ≠ Some c.
Proof.
  intros Hcd. rewrite replace_all_get.
  destruct (String.get i s) as [a|]; simpl; [|done].
  case_decide; congruence.
Qed.

Lemma cleanupBinPath_normalized s : cleanupBinPath s = normalized_path s.
Proof.
  unfold cleanupBinPath, normalized_path.
  destruct (Str.replace_all _ _ s) as [|a [|b rest]];
    cbn [Str.starts_with Str.drop]; [done| |].
  - destruct a as [[] [] [] [] [] [] [] []]; by case_decide.
  - case_decide as Ha; [subst a|].
    + case_decide as Hb; [by subst b|].
      destruct b as [[] [] [] [] [] [] [] []]; done.
    + destruct a as [[] [] [] [] [] [] [] []]; done.
Qed.

Lemma smap_set_fresh k v (m : list (string * string)) :
  k ∉ m.*1 → smap_set k v m = m ++ [(k, v)].
Proof.
  induction m as [|[k' v'] m IH]; simpl; [done|].
  intros Hk. apply not_elem_of_cons in Hk as [Hne Hk].
  case_decide; [congruence|]. by rewrite IH.
Qed.

(** The [for ... in] loop over an object adds one entry per key, in
    the order of the keys. *)
Lemma set_executables_fresh (entries m : list (string * string)) :
  NoDup entries.*1 →
  (∀ k, k ∈ entries.*1 → k ∉ m.*1) →
  set_executables entries m
  = m ++ ((λ kv, (kv.1, cleanupBinPath kv.2)) <$> entries).
Proof.
  unfold set_executables. revert m.
  induction entries as [|[k v] entries IH]; intros m Hnd Hfresh; simpl.
  { by rewrite app_nil_r. }
  apply NoDup_cons in Hnd as [Hk Hnd].
  rewrite smap_set_fresh by (apply Hfresh; left).
  rewrite IH; [by rewrite <- app_assoc|done|].
  intros k' Hk'. rewrite fmap_app. simpl.
  intros [Hm|Heq%list_elem_of_singleton]%elem_of_app; [|by subst].
  by apply (Hfresh k'); [right|].
Qed.

(** C7, as the program has it: the single-string form of [bin] gives one
    executable, keyed by the package's directory ([_dir], its path under
    the install root; the declared [name] is not used), whose path is the
    string with every backslash replaced by a forward slash and one
    leading [./] removed; the object form gives one executable per key,
    in order, with the path normalised the same way; a nested package
    has no executables, and neither has a package whose [bin] is an array
    or absent. *)
Theorem executables_of_package p json :
  let pkg := parsePackage p json in
  (_isNested pkg = true → _executables pkg = []) ∧
  (_isNested pkg = false →
   (∀ s, json_bin json = BinString s →
         _executables pkg = [(_dir pkg, normalized_path s)]) ∧
   (∀ entries, json_bin json = BinObject entries → NoDup entries.*1 →
         _executables pkg
         = (λ kv, (kv.1, normalized_path kv.2)) <$> entries) ∧
   (∀ items, json_bin json = BinArray items → _executables pkg = []) ∧
   (json_bin json = BinAbsent → _executables pkg = [])).
Proof.
  intros pkg. unfold pkg, parsePackage. cbn [_isNested _executables _dir].
  split; [by intros ->|]. intros ->.
  split; [|split; [|split]].
  - intros s ->. simpl. by rewrite cleanupBinPath_normalized.
  - intros entries -> Hnd.
    rewrite set_executables_fresh; [|done|by intros ? _ ?%elem_of_nil].
    simpl. apply list_fmap_ext. intros _ [k v] _. simpl.
    by rewrite cleanupBinPath_normalized.
  - by intros items ->.
  - by intros ->.
Qed.

(** ** The resolved lists *)

(** X1: when resolution of a freshly parsed package returns, its
    [_dependencies] holds exactly the packages reached from it by going,
    any number of times, from a package to the package that one of its
    declared names (of [dependencies], [peerDependencies] or
    [optionalDependencies]) resolves to; all of them are objects of
    [pkgs]. *)
Theorem dependencies_are_the_reachable_packages pkgs (pkg : ref) deps :
  resolve pkgs pkg = Done deps →
  (∀ r : ref, r ∈ deps ↔ rtc (depends_on pkgs (buildMap pkgs)) pkg r) ∧
  (pkg < length pkgs → Forall (λ r, r < length pkgs) deps).
Proof.
  intros Hres. split; [by apply resolve_reachable|].
  intros Hpkg. eapply resolveFrom_valid; [done| |exact Hres]. constructor.
Qed.

(** X2: after the pass of [main] over all packages, the list of a
    package that is in the list of another is included in that list;
    two packages that are in each other's lists have the same packages
    in their lists. *)
Theorem dependency_lists_nest pkgs resolved (pkg r : ref) deps deps_r :
  flattenAll pkgs = Done resolved →
  resolved !! pkg = Some deps → resolved !! r = Some deps_r →
  r ∈ deps →
  deps_r ⊆ deps ∧ (pkg ∈ deps_r → deps ≡ₚ deps_r).
Proof.
  intros [_ Hall]%flattenAll_Done Hpkg Hr Hin.
  pose proof (Hall _ _ Hpkg) as Hdeps. pose proof (Hall _ _ Hr) as Hdeps_r.
  assert (∀ (a b : ref) da db,
    resolve pkgs a = Done da → resolve pkgs b = Done db → b ∈ da →
    db ⊆ da) as Hnest.
  { intros a b da db Ha Hb Hba x Hx. apply (resolve_reachable _ _ _ Ha).
    etrans; [by apply (resolve_reachable _ _ _ Ha)|].
    by apply (resolve_reachable _ _ _ Hb). }
  split; [by eapply Hnest|]. intros Hback.
  apply NoDup_Permutation.
  - eapply flatten_NoDup; [|exact Hdeps]. constructor.
  - eapply flatten_NoDup; [|exact Hdeps_r]. constructor.
  - intros x. split; [by eapply Hnest|]. by eapply (Hnest pkg r).
Qed.

(** X3: the package selected for a declared name [X] of a package is
    an object of [pkgs] whose directory is one of the candidate paths or
    [X] itself: for a directory and a name in normal form, [X] at the
    root or [<first n segments>/node_modules/X] for some [n] between one
    and the number of segments of the directory of the package. *)
Theorem selected_package_is_installed_under_the_name
    pkgs (dep : ref) required X (r : ref) :
  lookupDep pkgs (buildMap pkgs) dep required X = Done (Some r) →
  let dir := _dir (obj pkgs dep) in
  r < length pkgs ∧
  (_dir (obj pkgs r) ∈ candidate_paths dir X ∨ _dir (obj pkgs r) = X) ∧
  (plain_path dir → plain_path X →
   _dir (obj pkgs r) = X ∨
   ∃ n, 0 < n ≤ length (Str.split Str.slash dir) ∧
        _dir (obj pkgs r)
        = Str.join "/" (take n (Str.split Str.slash dir))
          +:+ "/node_modules/" +:+ X).
Proof.
  cbv zeta. rewrite lookupDep_first_present.
  destruct (first_present _ _) as [found|] eqn:Hfirst;
    [|by destruct required].
  intros [= ->].
  apply first_present_Some in Hfirst as (i & path & Hi & Hpath & _).
  apply list_elem_of_lookup_2 in Hi.
  rewrite (buildMap_dir _ _ _ Hpath).
  split; [by eapply buildMap_valid|].
  assert (path ∈ candidate_paths (_dir (obj pkgs dep)) X ∨ path = X) as Hwhere.
  { apply elem_of_app in Hi as [?|Hi]; [by left|right].
    by apply list_elem_of_singleton in Hi. }
  split; [done|]. intros Hdir HX.
  destruct Hwhere as [Hin|?]; [right|by left].
  rewrite candidate_paths_literal in Hin by done.
  apply list_elem_of_fmap in Hin as (n & -> & Hn).
  apply elem_of_reverse, elem_of_seq in Hn. exists n. split; [lia|done].
Qed.

Section Discovery.

Variable pkgs : list Package.
Variable pkgsMap : gmap string ref.

Local Abbreviation flatten := (flattenDependencies pkgs pkgsMap).
Local Abbreviation brought_in := (brought_in pkgs pkgsMap).

Lemma brought_in_prefix deps deps' i :
  deps `prefix_of` deps' → brought_in deps i → brought_in deps' i.
Proof.
  intros Hpre (j & d & r & Hj & Hd & Hr & He). exists j, d, r.
  split; [done|]. split; [by eapply prefix_lookup_Some|].
  split; [by eapply prefix_lookup_Some|done].
Qed.

(** Every package a call adds after the one flattened was brought in
    by a package before it. *)
Lemma flatten_brought_in fuel :
  ∀ deps (dep : ref) deps',
    flatten fuel deps dep = Done deps' →
    ∀ i, length deps < i < length deps' → brought_in deps' i.
Proof.
  induction fuel as [|fuel IH]; [done|].
  intros deps dep deps'. rewrite flatten_unfold.
  destruct (decide (dep ∈ deps)) as [Hin|Hin]; [intros [= <-] i; lia|].
  cbn zeta.
  set (R := λ s s' : list ref,
    s `prefix_of` s' ∧
    (s !! length deps = Some dep →
     ∀ i, length s ≤ i < length s' → brought_in s' i)).
  assert (∀ s, R s s) as Hrefl by (split; [done|intros _ i; lia]).
  assert (∀ s1 s2 s3, R s1 s2 → R s2 s3 → R s1 s3) as Htrans.
  { intros s1 s2 s3 [Hp1 Hc1] [Hp2 Hc2]. split; [by etrans|].
    intros Hdep i Hi. destruct (decide (i < length s2)).
    - eapply brought_in_prefix; [exact Hp2|]. apply Hc1; [done|lia].
    - apply Hc2; [by eapply prefix_lookup_Some|lia]. }
  assert (∀ td required s s',
    keys td ⊆ keys (dependencies (obj pkgs dep))
              ++ keys (peerDependencies (obj pkgs dep))
              ++ keys (optionalDependencies (obj pkgs dep)) →
    findDeps pkgs pkgsMap (flatten fuel) dep td required s = Done s' → R s s')
    as Hfind.
  { intros td required s s' Htd (found & Hfound & Hfold)%findDeps_Done.
    eapply (foldO_rel R); [done..| |exact Hfold].
    intros s1 x s2 Hx Hflat.
    pose proof (flatten_prefix _ _ _ _ _ _ Hflat) as Hpre.
    split; [done|]. intros Hdep i Hi.
    destruct (decide (x ∈ s1)) as [Hx1|Hx1].
    { destruct fuel as [|fuel']; [done|].
      rewrite flatten_visited in Hflat by done. simplify_eq. lia. }
    destruct (decide (i = length s1)) as [->|Hne].
    - pose proof (flatten_push _ _ _ _ _ _ Hx1 Hflat) as Hpush.
      exists (length deps), dep, x. split.
      { apply lookup_lt_Some in Hdep. lia. }
      split; [by eapply prefix_lookup_Some|]. split.
      { eapply prefix_lookup_Some; [|exact Hpush].
        by apply list_lookup_middle. }
      destruct (found_declared _ _ _ _ _ _ _ Hfound Hx) as (X & HX & Hlook).
      exists X, required. split; [|done].
      apply Htd in HX. unfold declares. rewrite !elem_of_app in HX. tauto.
    - apply (IH _ _ _ Hflat). lia. }
  intros (s1 & H1 & (s2 & H2 & H3)%bind_Done)%bind_Done.
  assert (R (deps ++ [dep]) deps') as [_ Hall].
  { eapply Htrans; [eapply Hfind; [|exact H1]|].
    { intros X HX. apply elem_of_app. by left. }
    eapply Htrans; [eapply Hfind; [|exact H2]|eapply Hfind; [|exact H3]].
    - intros X HX. apply elem_of_app. right. apply elem_of_app. by left.
    - intros X HX. apply elem_of_app. right. apply elem_of_app. by right. }
  intros i Hi. apply Hall; [by apply list_lookup_middle|].
  rewrite length_app. simpl. lia.
Qed.

End Discovery.

(** X17: when resolution of a freshly parsed package returns, every
    package in its [_dependencies] other than the first was found for a
    name declared by a package that stands before it in the array. *)
Theorem every_dependency_is_brought_in pkgs (pkg : ref) deps :
  resolve pkgs pkg = Done deps →
  ∀ i (r : ref), deps !! i = Some r → 0 < i →
    ∃ (j : nat) (d : ref),
      j < i ∧ deps !! j = Some d ∧ depends_on pkgs (buildMap pkgs) d r.
Proof.
  intros Hres i r Hr Hi.
  destruct (flatten_brought_in _ _ _ _ _ _ Hres i)
    as (j & d & r' & Hj & Hd & Hr' & He).
  { apply lookup_lt_Some in Hr. simpl. lia. }
  simplify_eq. eauto.
Qed.

(** ** What the scan returns *)

(** *** Prefixes and occurrences *)

Lemma starts_with_app p s : Str.starts_with p (p +:+ s) = true.
Proof.
  induction p as [|c p IH]; [done|].
  rewrite string_app_cons. cbn [Str.starts_with]. by rewrite decide_True.
Qed.

Lemma starts_with_drop p s :
  Str.starts_with p s = true → s = p +:+ Str.drop (String.length p) s.
Proof.
  revert s. induction p as [|c p IH]; intros s; [done|].
  destruct s as [|b s]; [done|]. cbn [Str.starts_with].
  case_decide as Hc; [|done]. subst b. intros Hp.
  rewrite string_app_cons. cbn [String.length Str.drop]. by rewrite <- IH.
Qed.

Lemma includes_app p a b : Str.includes p (a +:+ p +:+ b) = true.
Proof.
  induction a as [|c a IH].
  - change ("" +:+ p +:+ b) with (p +:+ b).
    destruct (p +:+ b) eqn:E; cbn [Str.includes]; rewrite <- E;
      by rewrite starts_with_app.
  - rewrite string_app_cons. cbn [Str.includes]. rewrite IH.
    apply orb_true_r.
Qed.

Lemma includes_split p s :
  Str.includes p s = true → ∃ a b, s = a +:+ p +:+ b.
Proof.
  induction s as [|c s IH]; cbn [Str.includes].
  - rewrite orb_false_r. intros Hp%starts_with_drop.
    by exists "", (Str.drop (String.length p) "").
  - intros [Hp%starts_with_drop|Hs]%orb_true_iff.
    + by exists "", (Str.drop (String.length p) (String c s)).
    + destruct (IH Hs) as (a & b & ->). by exists (String c a), b.
Qed.

(** [/node_modules/] occurs in a path exactly when one of its pieces,
    neither the first nor the last, is [node_modules]. *)
Lemma includes_node_modules p :
  Str.includes "/node_modules/" p = true ↔
  ∃ l1 l2, l1 ≠ [] ∧ l2 ≠ [] ∧
           Str.split Str.slash p = l1 ++ "node_modules" :: l2.
Proof.
  split.
  - intros (a & b & ->)%includes_split.
    exists (Str.split Str.slash a), (Str.split Str.slash b).
    split; [apply split_not_nil|]. split; [apply split_not_nil|].
    change (a +:+ "/node_modules/" +:+ b)
      with (a +:+ "/" +:+ ("node_modules" +:+ "/" +:+ b)).
    by rewrite !split_app_slash.
  - intros (l1 & l2 & H1 & H2 & Hsplit).
    rewrite <- (join_split p), Hsplit, join_app by done.
    destruct l2 as [|y l2]; [done|]. rewrite join_cons.
    apply (includes_app "/node_modules/" (Str.join "/" l1)
             (Str.join "/" (y :: l2))).
Qed.

(** *** The packages found *)

Lemma rbind_Failed {A B} (r : result A) (k : A → result B) err :
  rbind r k = Failed err ↔ r = Failed err ∨ ∃ a, r = Ok a ∧ k a = Failed err.
Proof.
  destruct r as [a|e]; simpl; split.
  - eauto.
  - by intros [?|(a' & [= <-] & ?)].
  - intros [= ->]. by left.
  - intros [[= ->]|(a' & ? & ?)]; done.
Qed.

Lemma node_induction_entries (P : node → Prop) :
  (∀ content, P (File content)) →
  (∀ listing, Forall (λ fn, and_entries P fn.2) listing → P (Dir listing)) →
  ∀ n, P n.
Proof.
  intros HF HD n. cut (and_entries P n); [by intros [? _]|].
  induction n as [content|listing IH] using node_induction.
  { split; [apply HF|done]. }
  split; [by apply HD|]. eapply Forall_impl; [exact IH|]. by intros fn [? _].
Qed.

Section ScanResults.

Variable JSON_parse : string → result packageJson.
Variable rec : string → node → result (list Package).

Local Abbreviation parse_at p f child :=
  (parsePackageFile JSON_parse (Posix.join [p; f])
                    (readIn "package.json" child)).

(** Where the packages of the first half of a listing come from. *)
Lemma packagesOf_elem p l a pkg :
  packagesOf JSON_parse rec p l = Ok a →
  pkg ∈ a ↔
  ∃ f child, (f, child) ∈ l ∧ Str.starts_with "@" f = false ∧
    isPackage child = true ∧
    (parse_at p f child = Ok pkg ∨
     ∃ nested, nestedIn rec (Posix.join [p; f]) child = Ok nested ∧
               pkg ∈ nested).
Proof.
  revert a. induction l as [|[f child] l IH]; intros a; cbn [packagesOf].
  { intros [= <-]. split; [by intros ?%elem_of_nil|].
    by intros (? & ? & ?%elem_of_nil & _). }
  destruct (negb (Str.starts_with "@" f) && isPackage child) eqn:Hsel.
  - intros (own & Hown & (nested & Hnested
      & (others & Hothers & [= <-])%rbind_Ok)%rbind_Ok)%rbind_Ok.
    apply andb_true_iff in Hsel as [Hat%negb_true_iff Hpkg].
    rewrite elem_of_cons, elem_of_app, (IH others Hothers). split.
    + intros [->|[Hin|(g & other & Hg & ?)]].
      * exists f, child. rewrite elem_of_cons. eauto 6.
      * exists f, child. rewrite elem_of_cons. eauto 8.
      * exists g, other. rewrite elem_of_cons. eauto.
    + intros (g & other & [[= -> ->]|Hg]%elem_of_cons & Hg1 & Hg2 & Hfrom).
      * destruct Hfrom as [Hparse|(nested' & Hn & Hin)]; [left; congruence|].
        right. left. congruence.
      * right. right. eauto 6.
  - intros Hrest. rewrite (IH a Hrest). split.
    + intros (g & other & Hg & ?). exists g, other.
      rewrite elem_of_cons. eauto.
    + intros (g & other & [[= -> ->]|Hg]%elem_of_cons & Hg1 & Hg2 & Hfrom).
      * rewrite Hg1, Hg2 in Hsel. done.
      * eauto 6.
Qed.

(** Where the packages of the second half come from. *)
Lemma scopesOf_elem p l b pkg :
  scopesOf rec p l = Ok b →
  pkg ∈ b ↔
  ∃ f child found, (f, child) ∈ l ∧ Str.starts_with "@" f = true ∧
    isDirectory child = true ∧
    rec (Posix.join [p; f]) child = Ok found ∧ pkg ∈ found.
Proof.
  revert b. induction l as [|[f child] l IH]; intros b; cbn [scopesOf].
  { intros [= <-]. split; [by intros ?%elem_of_nil|].
    by intros (? & ? & ? & ?%elem_of_nil & _). }
  destruct (Str.starts_with "@" f && isDirectory child) eqn:Hsel.
  - intros (found & Hfound & (others & Hothers & [= <-])%rbind_Ok)%rbind_Ok.
    apply andb_true_iff in Hsel as [Hat Hdir].
    rewrite elem_of_app, (IH others Hothers). split.
    + intros [Hin|(g & other & found' & Hg & ?)].
      * exists f, child, found. rewrite elem_of_cons. eauto 6.
      * exists g, other, found'. rewrite elem_of_cons. eauto.
    + intros (g & other & found' & [[= -> ->]|Hg]%elem_of_cons
                & Hg1 & Hg2 & Hrec & Hin).
      * left. congruence.
      * right. eauto 8.
  - intros Hrest. rewrite (IH b Hrest). split.
    + intros (g & other & found' & Hg & ?). exists g, other, found'.
      rewrite elem_of_cons. eauto.
    + intros (g & other & found' & [[= -> ->]|Hg]%elem_of_cons
                & Hg1 & Hg2 & Hrec & Hin).
      * rewrite Hg1, Hg2 in Hsel. done.
      * eauto 8.
Qed.

(** The entry at which the first half of a listing throws. *)
Lemma packagesOf_Failed_inv p l err :
  packagesOf JSON_parse rec p l = Failed err →
  ∃ f child, (f, child) ∈ l ∧ Str.starts_with "@" f = false ∧
    isPackage child = true ∧
    (parse_at p f child = Failed err ∨
     nestedIn rec (Posix.join [p; f]) child = Failed err).
Proof.
  induction l as [|[f child] l IH]; cbn [packagesOf]; [done|].
  destruct (negb (Str.starts_with "@" f) && isPackage child) eqn:Hsel.
  - apply andb_true_iff in Hsel as [Hat%negb_true_iff Hpkg].
    intros [Hown|(own & _ & [Hnested|(nested & _
      & [Hothers|(others & _ & [=])]%rbind_Failed)]%rbind_Failed)]%rbind_Failed.
    + exists f, child. rewrite elem_of_cons. auto 6.
    + exists f, child. rewrite elem_of_cons. auto 6.
    + destruct (IH Hothers) as (g & other & Hg & ?).
      exists g, other. rewrite elem_of_cons. auto.
  - intros Hrest. destruct (IH Hrest) as (g & other & Hg & ?).
    exists g, other. rewrite elem_of_cons. auto.
Qed.

Lemma scopesOf_Failed_inv p l err :
  scopesOf rec p l = Failed err →
  ∃ f child, (f, child) ∈ l ∧ Str.starts_with "@" f = true ∧
    isDirectory child = true ∧ rec (Posix.join [p; f]) child = Failed err.
Proof.
  induction l as [|[f child] l IH]; cbn [scopesOf]; [done|].
  destruct (Str.starts_with "@" f && isDirectory child) eqn:Hsel.
  - apply andb_true_iff in Hsel as [Hat Hdir].
    intros [Hfound|(found & _
      & [Hothers|(others & _ & [=])]%rbind_Failed)]%rbind_Failed.
    + exists f, child. rewrite elem_of_cons. auto 6.
    + destruct (IH Hothers) as (g & other & Hg & ?).
      exists g, other. rewrite elem_of_cons. auto.
  - intros Hrest. destruct (IH Hrest) as (g & other & Hg & ?).
    exists g, other. rewrite elem_of_cons. auto.
Qed.

(** What [findPackages(path.posix.join(f, 'node_modules'))] returns for
    a package directory, other than nothing. *)
Lemma nestedIn_inv f child (o : result (list Package)) :
  nestedIn rec f child = o → o ≠ Ok [] →
  ∃ inside nested, child = Dir inside ∧
    entry "node_modules" inside = Some nested ∧
    rec (Posix.join [f; "node_modules"]) nested = o.
Proof.
  destruct child as [content|inside]; cbn [nestedIn]; [by intros <-|].
  rewrite nestedPackages_entry.
  destruct (entry "node_modules" inside) as [nested|] eqn:Hnm; [|by intros <-].
  eauto.
Qed.

End ScanResults.

Section ScanComplete.

Variable JSON_parse : string → result packageJson.

Local Abbreviation scan := (findPackagesIn JSON_parse).

Lemma findPackagesIn_finds here :
  ∀ p pkgs, scan p here = Ok pkgs →
            ∀ pkg, pkg ∈ pkgs ↔ finds JSON_parse p here pkg.
Proof.
  induction here as [content|listing IH] using node_induction_entries.
  { intros p pkgs [= <-] pkg. split; [by intros ?%elem_of_nil|].
    inversion 1. }
  rewrite Forall_forall in IH.
  intros p pkgs.
  cbn [findPackagesIn].
  intros (a & Ha & (b & Hb & [= <-])%rbind_Ok)%rbind_Ok pkg.
  rewrite elem_of_app, (packagesOf_elem _ _ _ _ _ _ Ha),
    (scopesOf_elem _ _ _ _ _ Hb).
  split.
  - intros [(f & child & Hin & Hat & Hpkg & [Hparse|(nested & Hnested & Hmem)])
           |(f & child & found & Hin & Hat & Hdir & Hfound & Hmem)].
    + by eapply finds_package.
    + apply nestedIn_inv in Hnested as (inside & nm & -> & Hnm & Hrec).
      2:{ intros [= ->]. by apply elem_of_nil in Hmem. }
      eapply finds_nested; [done..|].
      destruct (IH _ Hin) as [_ Hinside]. cbn [snd] in Hinside.
      rewrite Forall_forall in Hinside.
      apply (Hinside _ (entry_elem _ _ _ Hnm) _ _ Hrec). done.
    + eapply finds_scoped; [done..|].
      destruct (IH _ Hin) as [Hchild _]. by apply (Hchild _ _ Hfound).
  - inversion 1 as [p' listing' f child pkg' Hin Hat Hpkg Hparse
                   |p' listing' f inside nested pkg' Hin Hat Hpkg Hnm Hsub
                   |p' listing' f child pkg' Hin Hat Hdir Hsub]; subst.
    + left. eauto 8.
    + left. exists f, (Dir inside). do 3 (split; [done|]). right.
      destruct (IH _ Hin) as [_ Hinside]. cbn [snd] in Hinside.
      rewrite Forall_forall in Hinside.
      pose proof (Hinside _ (entry_elem _ _ _ Hnm)) as IHnm. cbn [snd] in IHnm.
      cbn [nestedIn]. rewrite nestedPackages_entry, Hnm.
      destruct (scan (Posix.join [Posix.join [p; f]; "node_modules"]) nested)
        as [found|err] eqn:Hrec.
      * exists found. split; [done|]. by apply (IHnm _ _ Hrec).
      * exfalso.
        assert (∃ e, packagesOf JSON_parse scan p listing = Failed e) as [e He].
        { apply list_elem_of_split in Hin as (before & after & ->).
          apply packagesOf_Failed; [done..|]. right. exists err.
          cbn [nestedIn]. by rewrite nestedPackages_entry, Hnm. }
        congruence.
    + right. destruct (scan (Posix.join [p; f]) child) as [found|err] eqn:Hrec.
      * exists f, child, found. do 4 (split; [done|]).
        destruct (IH _ Hin) as [Hchild _]. by apply (Hchild _ _ Hrec).
      * exfalso.
        assert (∃ e, scopesOf scan p listing = Failed e) as [e He].
        { apply list_elem_of_split in Hin as (before & after & ->).
          by eapply scopesOf_Failed. }
        congruence.
Qed.

Lemma findPackagesIn_Failed here :
  ∀ p err, scan p here = Failed err → meets_malformed JSON_parse p here.
Proof.
  induction here as [content|listing IH] using node_induction_entries; [done|].
  rewrite Forall_forall in IH. intros p err. cbn [findPackagesIn].
  intros [Ha|(a & _ & [Hb|(b & _ & [=])]%rbind_Failed)]%rbind_Failed.
  - apply packagesOf_Failed_inv in Ha
      as (f & child & Hin & Hat & Hpkg & [Hparse|Hnested]).
    + by eapply malformed_package.
    + apply nestedIn_inv in Hnested as (inside & nm & -> & Hnm & Hrec); [|done].
      eapply malformed_nested; [done..|].
      destruct (IH _ Hin) as [_ Hinside]. cbn [snd] in Hinside.
      rewrite Forall_forall in Hinside.
      by apply (Hinside _ (entry_elem _ _ _ Hnm) _ _ Hrec).
  - apply scopesOf_Failed_inv in Hb as (f & child & Hin & Hat & Hdir & Hrec).
    eapply malformed_scoped; [done..|].
    destruct (IH _ Hin) as [Hchild _]. by apply (Hchild _ _ Hrec).
Qed.

End ScanComplete.

(** X4: on a tree of files and of directories that can be listed
    (every [fs.statSync] and [fs.readdirSync] of the scan returns), and
    with package.json objects whose [bin] entries are strings,
    [findPackages] throws exactly when node_modules exists and the scan
    reads a package.json that cannot be read or parsed to an object;
    stray files, directories without a package.json and an absent
    node_modules do not make it throw. *)
Theorem scan_throws_only_on_metadata JSON_parse cwd :
  (∃ err, findPackages JSON_parse cwd = Failed err) ↔
  ∃ here, entry "node_modules" cwd = Some here ∧
          meets_malformed JSON_parse "node_modules" here.
Proof.
  split.
  - intros [err Herr]. unfold findPackages in Herr.
    destruct (entry "node_modules" cwd) as [here|]; [|done].
    exists here. split; [done|]. by eapply findPackagesIn_Failed.
  - intros (here & Hnm & Hbad). by eapply findPackages_malformed.
Qed.

(** X5: when [findPackages] returns, it returns exactly the packages
    the scan comes upon: those of the package directories among the
    entries of node_modules whose names do not start with [@], those
    under the node_modules of such a directory, and those under the
    directories whose names start with [@], each parsed from its
    package.json under its joined path. *)
Theorem scan_finds_the_installed_packages JSON_parse cwd pkgs :
  findPackages JSON_parse cwd = Ok pkgs →
  ∀ pkg, pkg ∈ pkgs ↔
         ∃ here, entry "node_modules" cwd = Some here ∧
                 finds JSON_parse "node_modules" here pkg.
Proof.
  unfold findPackages. intros Hscan pkg.
  destruct (entry "node_modules" cwd) as [here|].
  - rewrite (findPackagesIn_finds _ _ _ _ Hscan). split; [by eauto|].
    by intros (? & [= <-] & ?).
  - simplify_eq. split; [by intros ?%elem_of_nil|]. by intros (? & ? & _).
Qed.

Lemma parsePackageFile_Ok JSON_parse p content pkg :
  parsePackageFile JSON_parse p content = Ok pkg →
  ∃ json, pkg = parsePackage p json.
Proof.
  intros (text & _ & (json & _ & [= <-])%rbind_Ok)%rbind_Ok. eauto.
Qed.

(** The object parsed for the directory reached from node_modules by
    plain names. *)
Lemma parsePackage_path_of r json :
  r ≠ [] → Forall plain r →
  _dir (parsePackage (path_of r) json) = Str.join "/" r ∧
  (_isNested (parsePackage (path_of r) json) = true ↔ inner_node_modules r).
Proof.
  intros Hne Hr. split; [by apply dir_path_of|].
  change (_isNested (parsePackage (path_of r) json))
    with (Str.includes "/node_modules/" (path_of r)).
  rewrite includes_node_modules. unfold path_of.
  rewrite split_join_plain; [|done|by constructor; [apply plain_node_modules|]].
  split.
  - intros (l1 & l2 & H1 & H2 & Heq).
    destruct l1 as [|x l1]; [done|]. simplify_eq/=. by exists l1, l2.
  - intros (before & after & Hafter & ->).
    by exists ("node_modules" :: before), after.
Qed.

Lemma well_formed_entry listing f child :
  well_formed (Dir listing) → (f, child) ∈ listing →
  plain f ∧ well_formed child.
Proof.
  intros [_ Hwf]%well_formed_Dir Hin. rewrite Forall_forall in Hwf.
  apply (Hwf _ Hin).
Qed.

Section ScannedPackages.

Variable JSON_parse : string → result packageJson.

(** What the scan of a well-formed directory comes upon was parsed for
    a directory reached by plain names. *)
Lemma finds_path_of p here pkg :
  finds JSON_parse p here pkg →
  ∀ base, p = path_of base → Forall plain base → well_formed here →
    ∃ r json, r ≠ [] ∧ Forall plain (base ++ r) ∧
              pkg = parsePackage (path_of (base ++ r)) json.
Proof.
  induction 1 as [p listing f child pkg Hin Hat Hpkg Hparse
                 |p listing f inside nested pkg Hin Hat Hpkg Hnm _ IH
                 |p listing f child pkg Hin Hat Hdir _ IH];
    intros base -> Hbase Hwf;
    destruct (well_formed_entry _ _ _ Hwf Hin) as [Hf Hchild].
  - rewrite join_path_of in Hparse by done.
    apply parsePackageFile_Ok in Hparse as [json ->].
    exists [f], json. split; [done|]. split; [|done].
    apply Forall_app. split; [done|]. by apply Forall_singleton.
  - apply entry_elem in Hnm.
    destruct (well_formed_entry _ _ _ Hchild Hnm) as [_ Hnested].
    assert (Forall plain (base ++ [f; "node_modules"])) as Hbase'.
    { apply Forall_app. split; [done|].
      apply Forall_cons_2; [done|].
      apply Forall_singleton, plain_node_modules. }
    destruct (IH (base ++ [f; "node_modules"])) as (r & json & Hr & Hplain & ->);
      [|done..|].
    { rewrite !join_path_of;
        [by rewrite <- app_assoc|..|done|done]; [|apply plain_node_modules].
      apply Forall_app. split; [done|]. by apply Forall_singleton. }
    exists (f :: "node_modules" :: r), json.
    rewrite <- app_assoc in Hplain. rewrite <- app_assoc. done.
  - assert (Forall plain (base ++ [f])) as Hbase'.
    { apply Forall_app. split; [done|]. by apply Forall_singleton. }
    destruct (IH (base ++ [f])) as (r & json & Hr & Hplain & ->); [|done..|].
    { by rewrite join_path_of. }
    exists (f :: r), json.
    rewrite <- app_assoc in Hplain. rewrite <- app_assoc. done.
Qed.

Lemma findPackages_path_of cwd pkgs pkg :
  well_formed (Dir cwd) → findPackages JSON_parse cwd = Ok pkgs →
  pkg ∈ pkgs →
  ∃ r json, r ≠ [] ∧ Forall plain r ∧ pkg = parsePackage (path_of r) json.
Proof.
  intros Hwf Hscan Hpkg. unfold findPackages in Hscan.
  destruct (entry "node_modules" cwd) as [here|] eqn:Hnm.
  2:{ simplify_eq. by apply elem_of_nil in Hpkg. }
  apply entry_elem in Hnm.
  destruct (well_formed_entry _ _ _ Hwf Hnm) as [_ Hhere].
  apply (findPackagesIn_finds _ _ _ _ Hscan) in Hpkg.
  by apply (finds_path_of _ _ _ Hpkg []).
Qed.

(** In a scan that returns, the package.json of every package directory
    among the entries was parsed, and what it gave was returned. *)
Lemma findPackagesIn_entry p listing pkgs f child :
  findPackagesIn JSON_parse p (Dir listing) = Ok pkgs →
  (f, child) ∈ listing →
  Str.starts_with "@" f = false → isPackage child = true →
  ∃ json, parsePackage (Posix.join [p; f]) json ∈ pkgs.
Proof.
  intros Hscan Hin Hat Hpkg.
  destruct (parsePackageFile JSON_parse (Posix.join [p; f])
              (readIn "package.json" child)) as [pkg|err] eqn:Hparse.
  - destruct (parsePackageFile_Ok _ _ _ _ Hparse) as [json ->].
    exists json. apply (findPackagesIn_finds _ _ _ _ Hscan).
    by eapply finds_package.
  - destruct (findPackagesIn_malformed JSON_parse p (Dir listing)) as [e He];
      [by eapply malformed_package|congruence].
Qed.

(** Under a scope directory. *)
Lemma findPackagesIn_scoped p listing pkgs s inside :
  findPackagesIn JSON_parse p (Dir listing) = Ok pkgs →
  (s, Dir inside) ∈ listing → Str.starts_with "@" s = true →
  ∃ found, findPackagesIn JSON_parse (Posix.join [p; s]) (Dir inside) = Ok found
           ∧ found ⊆ pkgs.
Proof.
  intros Hscan Hin Hat.
  destruct (findPackagesIn JSON_parse (Posix.join [p; s]) (Dir inside))
    as [found|err] eqn:Hsub.
  - exists found. split; [done|]. intros pkg Hpkg.
    apply (findPackagesIn_finds _ _ _ _ Hscan).
    eapply finds_scoped; [done..|].
    by apply (findPackagesIn_finds _ _ _ _ Hsub).
  - destruct (findPackagesIn_malformed JSON_parse p (Dir listing)) as [e He];
      [|congruence].
    eapply malformed_scoped; [done..|]. by eapply findPackagesIn_Failed.
Qed.

(** Under the node_modules of a package directory. *)
Lemma findPackagesIn_nested p listing pkgs f inside nested :
  findPackagesIn JSON_parse p (Dir listing) = Ok pkgs →
  (f, Dir inside) ∈ listing →
  Str.starts_with "@" f = false → isPackage (Dir inside) = true →
  entry "node_modules" inside = Some nested →
  ∃ found,
    findPackagesIn JSON_parse
      (Posix.join [Posix.join [p; f]; "node_modules"]) nested = Ok found
    ∧ found ⊆ pkgs.
Proof.
  intros Hscan Hin Hat Hpkg Hnm.
  destruct (findPackagesIn JSON_parse
              (Posix.join [Posix.join [p; f]; "node_modules"]) nested)
    as [found|err] eqn:Hsub.
  - exists found. split; [done|]. intros pkg Hfound.
    apply (findPackagesIn_finds _ _ _ _ Hscan).
    eapply finds_nested; [done..|].
    by apply (findPackagesIn_finds _ _ _ _ Hsub).
  - destruct (findPackagesIn_malformed JSON_parse p (Dir listing)) as [e He];
      [|congruence].
    eapply malformed_nested; [done..|]. by eapply findPackagesIn_Failed.
Qed.

End ScannedPackages.

Lemma not_inner_singleton f : ¬ inner_node_modules [f].
Proof.
  intros (before & after & Hafter & Heq).
  destruct before as [|x [|y before]], after; simplify_eq/=.
Qed.

Lemma not_inner_scoped s f :
  Str.starts_with "@" s = true → ¬ inner_node_modules [s; f].
Proof.
  intros Hs (before & after & Hafter & Heq).
  destruct before as [|x [|y [|z before]]], after; simplify_eq/=.
Qed.

(** X7: in such a working directory, the directory of every package
    found is a relative path in normal form, the package is nested
    exactly when a segment of its directory other than the last is
    [node_modules], and the candidate paths for a name in normal form
    are literally [<segments>/node_modules/X]. *)
Theorem scanned_packages_in_normal_form JSON_parse cwd pkgs pkg :
  well_formed (Dir cwd) → findPackages JSON_parse cwd = Ok pkgs →
  pkg ∈ pkgs →
  plain_path (_dir pkg) ∧
  (_isNested pkg = true ↔
   inner_node_modules (Str.split Str.slash (_dir pkg))) ∧
  (∀ X, plain_path X →
        candidate_paths (_dir pkg) X = literal_candidates (_dir pkg) X).
Proof.
  intros Hwf Hscan Hpkg.
  destruct (findPackages_path_of _ _ _ _ Hwf Hscan Hpkg)
    as (r & json & Hne & Hr & ->).
  destruct (parsePackage_path_of r json Hne Hr) as [-> Hnested].
  assert (plain_path (Str.join "/" r)) as Hdir.
  { unfold plain_path. by rewrite split_join_plain. }
  split; [done|]. split.
  - by rewrite split_join_plain.
  - intros X HX. by apply candidate_paths_literal.
Qed.

(** X6: in a working directory whose entries are named as a file
    system names them, a scan that returns has found a package with
    directory [f] for every package directory [f] of node_modules, one
    with directory [s/f] for every package directory [f] of a scope
    directory [s], both not nested, and a nested one with directory
    [f/node_modules/g] for every package directory [g] of the
    node_modules of a package directory [f]. *)
Theorem installed_packages_are_found JSON_parse cwd listing pkgs :
  well_formed (Dir cwd) →
  entry "node_modules" cwd = Some (Dir listing) →
  findPackages JSON_parse cwd = Ok pkgs →
  (∀ f child,
     (f, child) ∈ listing →
     Str.starts_with "@" f = false → isPackage child = true →
     ∃ pkg, pkg ∈ pkgs ∧ _dir pkg = f ∧ _isNested pkg = false) ∧
  (∀ s inside f child,
     (s, Dir inside) ∈ listing → Str.starts_with "@" s = true →
     (f, child) ∈ inside →
     Str.starts_with "@" f = false → isPackage child = true →
     ∃ pkg, pkg ∈ pkgs ∧ _dir pkg = s +:+ "/" +:+ f ∧ _isNested pkg = false) ∧
  (∀ f inside nested g child,
     (f, Dir inside) ∈ listing →
     Str.starts_with "@" f = false → isPackage (Dir inside) = true →
     entry "node_modules" inside = Some (Dir nested) →
     (g, child) ∈ nested →
     Str.starts_with "@" g = false → isPackage child = true →
     ∃ pkg, pkg ∈ pkgs ∧ _dir pkg = f +:+ "/node_modules/" +:+ g ∧
            _isNested pkg = true).
Proof.
  intros Hwf Hnm Hscan. unfold findPackages in Hscan. rewrite Hnm in Hscan.
  destruct (well_formed_entry _ _ _ Hwf (entry_elem _ _ _ Hnm)) as [_ Hroot].
  change "node_modules" with (path_of []) in Hscan.
  split; [|split].
  - intros f child Hin Hat Hpkg.
    destruct (well_formed_entry _ _ _ Hroot Hin) as [Hf _].
    destruct (findPackagesIn_entry _ _ _ _ _ _ Hscan Hin Hat Hpkg)
      as [json Hjson].
    rewrite join_path_of in Hjson by done.
    destruct (parsePackage_path_of [f] json) as [Hdir Hnested];
      [done|by apply Forall_singleton|].
    eexists. split; [exact Hjson|]. split; [done|].
    apply not_true_is_false. rewrite Hnested. apply not_inner_singleton.
  - intros s inside f child Hs Hat Hin Hatf Hpkg.
    destruct (well_formed_entry _ _ _ Hroot Hs) as [Hplain Hinside].
    destruct (well_formed_entry _ _ _ Hinside Hin) as [Hf _].
    destruct (findPackagesIn_scoped _ _ _ _ _ _ Hscan Hs Hat)
      as (found & Hfound & Hsub).
    destruct (findPackagesIn_entry _ _ _ _ _ _ Hfound Hin Hatf Hpkg)
      as [json Hjson].
    rewrite (join_path_of [] s) in Hjson by done. cbn [app] in Hjson.
    rewrite (join_path_of [s] f) in Hjson by (done || by apply Forall_cons_2).
    cbn [app] in Hjson.
    destruct (parsePackage_path_of [s; f] json) as [Hdir Hnested];
      [done|by apply Forall_cons_2; [|apply Forall_singleton]|].
    eexists. split; [apply Hsub, Hjson|]. split; [done|].
    apply not_true_is_false. rewrite Hnested. by apply not_inner_scoped.
  - intros f inside nested g child Hin Hat Hpkg Hinner Hg Hatg Hpkgg.
    destruct (well_formed_entry _ _ _ Hroot Hin) as [Hf Hinside].
    destruct (well_formed_entry _ _ _ Hinside (entry_elem _ _ _ Hinner))
      as [_ Hnested].
    destruct (well_formed_entry _ _ _ Hnested Hg) as [Hplain _].
    destruct (findPackagesIn_nested _ _ _ _ _ _ _ Hscan Hin Hat Hpkg Hinner)
      as (found & Hfound & Hsub).
    assert (Forall plain [f; "node_modules"]) as Hfn.
    { apply Forall_cons_2; [done|].
      apply Forall_singleton, plain_node_modules. }
    rewrite (join_path_of [] f) in Hfound by done. cbn [app] in Hfound.
    rewrite (join_path_of [f] "node_modules") in Hfound
      by (apply plain_node_modules || by apply Forall_cons_2).
    cbn [app] in Hfound.
    destruct (findPackagesIn_entry _ _ _ _ _ _ Hfound Hg Hatg Hpkgg)
      as [json Hjson].
    rewrite (join_path_of [f; "node_modules"] g) in Hjson by done.
    cbn [app] in Hjson.
    destruct (parsePackage_path_of [f; "node_modules"; g] json)
      as [Hdir Hnest].
    { done. }
    { apply Forall_cons_2; [done|]. apply Forall_cons_2;
        [apply plain_node_modules|by apply Forall_singleton]. }
    eexists. split; [apply Hsub, Hjson|]. split.
    + rewrite Hdir. rewrite 2!join_cons. done.
    + apply Hnest. by exists [f], [g].
Qed.

(** X8: for the path [node_modules/d] that [findPackages] passes,
    [parsePackage] sets [_dir] to [d], and [_isNested] is true exactly
    when a piece of [d] other than the last is [node_modules]. *)
Theorem nested_iff_inner_node_modules d json :
  let pkg := parsePackage ("node_modules/" +:+ d) json in
  _dir pkg = d ∧
  (_isNested pkg = true ↔
   ∃ before after, after ≠ [] ∧
     Str.split Str.slash d = before ++ "node_modules" :: after).
Proof.
  cbv zeta. split; [reflexivity|].
  change (_isNested (parsePackage ("node_modules/" +:+ d) json))
    with (Str.includes "/node_modules/" ("node_modules" +:+ "/" +:+ d)).
  rewrite includes_node_modules, split_app_slash.
  change (Str.split Str.slash "node_modules") with ["node_modules"].
  split.
  - intros (l1 & l2 & H1 & H2 & Heq).
    destruct l1 as [|x l1]; [done|]. simplify_eq/=. eauto.
  - intros (before & after & Hafter & ->).
    exists ("node_modules" :: before), after. done.
Qed.

(** ** Scopes *)

Lemma NoDup_fst_filter {A B} (P : A * B → Prop) `{∀ x, Decision (P x)}
    (l : list (A * B)) :
  NoDup l.*1 → NoDup (filter P l).*1.
Proof.
  induction l as [|[a b] l IH]; [done|]. rewrite fmap_cons. cbn [fst].
  intros [Ha Hl]%NoDup_cons. destruct (decide (P (a, b))).
  - rewrite filter_cons_True, fmap_cons by done. cbn [fst].
    apply NoDup_cons. split; [|auto]. intros Hin. apply Ha.
    apply list_elem_of_fmap in Hin as ([a' b'] & -> & [_ Hin]%list_elem_of_filter).
    apply list_elem_of_fmap. by exists (a', b').
  - rewrite filter_cons_False by done. auto.
Qed.

Lemma findScopes_plain cwd :
  well_formed (Dir cwd) →
  findScopes cwd =
    match entry "node_modules" cwd with
    | Some (Dir listing) => scope_names listing
    | _ => []
    end.
Proof.
  intros Hwf. unfold findScopes, scope_names.
  destruct (entry "node_modules" cwd) as [[content|listing]|] eqn:Hnm; [done| |done].
  destruct (well_formed_entry _ _ _ Hwf (entry_elem _ _ _ Hnm)) as [_ Hroot].
  etrans; [|apply list_fmap_id].
  apply list_fmap_ext. intros i f Hf.
  apply list_elem_of_lookup_2, list_elem_of_fmap in Hf as ([g child] & -> & Hin).
  apply list_elem_of_filter in Hin as [_ Hin].
  destruct (well_formed_entry _ _ _ Hroot Hin) as [Hg _]. cbn [fst].
  change "node_modules" with (path_of []).
  rewrite join_path_of by done. by rewrite dir_path_of.
Qed.

Lemma scope_names_elem listing scope :
  scope ∈ scope_names listing ↔
  Str.starts_with "@" scope = true ∧ ∃ inside, (scope, Dir inside) ∈ listing.
Proof.
  unfold scope_names. rewrite list_elem_of_fmap. split.
  - intros ([f child] & -> & [[Hat Hdir] Hin]%list_elem_of_filter).
    cbn [fst snd] in *. destruct child as [|inside]; [done|]. eauto.
  - intros (Hat & inside & Hin). exists (scope, Dir inside).
    split; [done|]. by apply list_elem_of_filter.
Qed.

(** A name without [/], followed by [/], begins a path exactly when it
    is the first piece of the path and not the last. *)
Lemma starts_with_segment s d :
  Str.split Str.slash s = [s] →
  Str.starts_with (s +:+ "/") d = true ↔
  ∃ rest, rest ≠ [] ∧ Str.split Str.slash d = s :: rest.
Proof.
  intros Hs. split.
  - intros Hd%starts_with_drop. rewrite string_app_assoc in Hd.
    exists (Str.split Str.slash (Str.drop (String.length (s +:+ "/")) d)).
    split; [apply split_not_nil|].
    rewrite Hd at 1. by rewrite split_app_slash, Hs.
  - intros (rest & Hrest & Hsplit).
    rewrite <- (join_split d), Hsplit.
    destruct rest as [|y rest]; [done|].
    rewrite join_cons, <- string_app_assoc. apply starts_with_app.
Qed.

(** X9: in a working directory whose entries are named as a file
    system names them, [findScopes] returns exactly the names starting
    with [@] of the directories among the entries of node_modules
    (joining the name to node_modules and stripping the prefix again
    gives the name back), none of them twice, each a plain name. *)
Theorem findScopes_lists_the_scope_directories cwd :
  well_formed (Dir cwd) →
  (∀ scope,
     scope ∈ findScopes cwd ↔
     Str.starts_with "@" scope = true ∧
     ∃ listing inside, entry "node_modules" cwd = Some (Dir listing) ∧
                       (scope, Dir inside) ∈ listing) ∧
  NoDup (findScopes cwd) ∧
  Forall plain (findScopes cwd).
Proof.
  intros Hwf. rewrite findScopes_plain by done.
  destruct (entry "node_modules" cwd) as [[content|listing]|] eqn:Hnm.
  - split; [|split; constructor]. intros scope. split; [by intros ?%elem_of_nil|].
    by intros (_ & ? & ? & ? & _).
  - destruct (well_formed_entry _ _ _ Hwf (entry_elem _ _ _ Hnm)) as [_ Hroot].
    split; [|split].
    + intros scope. rewrite scope_names_elem. split.
      * intros (? & inside & ?). eauto.
      * intros (? & ? & inside & [= <-] & ?). eauto.
    + apply well_formed_Dir in Hroot as [Hnd _]. unfold scope_names.
      by apply NoDup_fst_filter.
    + apply Forall_forall. intros scope (_ & inside & Hin)%scope_names_elem.
      by destruct (well_formed_entry _ _ _ Hroot Hin).
  - split; [|split; constructor]. intros scope. split; [by intros ?%elem_of_nil|].
    by intros (_ & ? & ? & ? & _).
Qed.

(** X10: the target printed for a scope that [findScopes] returned
    lists the entries of the packages of [scopePkgs]: the packages that
    are not nested and whose directory has the scope as its first piece
    and at least one more; no package is listed by the targets of two
    scopes. *)
Theorem scope_target_members cwd pkgs scope :
  well_formed (Dir cwd) → scope ∈ findScopes cwd →
  (∀ pkg,
     pkg ∈ scopePkgs pkgs scope ↔
     pkg ∈ pkgs ∧ _isNested pkg = false ∧
     ∃ rest, rest ≠ [] ∧ Str.split Str.slash (_dir pkg) = scope :: rest) ∧
  (∀ other pkg,
     other ∈ findScopes cwd →
     pkg ∈ scopePkgs pkgs scope → pkg ∈ scopePkgs pkgs other →
     other = scope) ∧
  (∃ before after,
     printScope pkgs scope =
     lines (before ++
            [ "        " +:+
              Str.join (Str.nl +:+ "        ")
                       (scope_entry <$> (_dir <$> scopePkgs pkgs scope)) ]
            ++ after)).
Proof.
  intros Hwf Hscope.
  assert (∀ s, s ∈ findScopes cwd → Str.split Str.slash s = [s]) as Hplain.
  { intros s Hs. rewrite findScopes_plain in Hs by done.
    destruct (entry "node_modules" cwd) as [[content|listing]|] eqn:Hnm;
      [by apply elem_of_nil in Hs| |by apply elem_of_nil in Hs].
    destruct (well_formed_entry _ _ _ Hwf (entry_elem _ _ _ Hnm)) as [_ Hroot].
    apply scope_names_elem in Hs as (_ & inside & Hin).
    destruct (well_formed_entry _ _ _ Hroot Hin) as [Hs _].
    by apply plain_split. }
  assert (∀ s pkg, s ∈ findScopes cwd →
    pkg ∈ scopePkgs pkgs s ↔
    pkg ∈ pkgs ∧ _isNested pkg = false ∧
    ∃ rest, rest ≠ [] ∧ Str.split Str.slash (_dir pkg) = s :: rest) as Hmem.
  { intros s pkg Hs. unfold scopePkgs.
    rewrite list_elem_of_filter, starts_with_segment by auto. tauto. }
  split; [|split].
  - intros pkg. by apply Hmem.
  - intros other pkg Hother (_ & _ & r1 & _ & H1)%Hmem (_ & _ & r2 & _ & H2)%Hmem;
      [|done..].
    congruence.
  - eexists [_; _; _; _; _], [_; _; _; _; _]. unfold printScope, scopePkgs.
    rewrite <- list_fmap_compose. reflexivity.
Qed.

(** ** The index of [main] *)

Lemma buildMap_snoc pkgs p :
  buildMap (pkgs ++ [p]) = <[_dir p := length pkgs]> (buildMap pkgs).
Proof.
  unfold buildMap. rewrite imap_app, fold_left_app. simpl.
  by rewrite Nat.add_0_r.
Qed.

(** What the index holds for a directory: the last package with it. *)
Lemma buildMap_last pkgs d :
  match buildMap pkgs !! d with
  | Some i =>
      (∃ p, pkgs !! i = Some p ∧ _dir p = d) ∧
      ∀ j q, i < j → pkgs !! j = Some q → _dir q ≠ d
  | None => ∀ p, p ∈ pkgs → _dir p ≠ d
  end.
Proof.
  induction pkgs as [|p pkgs IH] using rev_ind.
  { unfold buildMap. simpl. rewrite lookup_empty. by intros p ?%elem_of_nil. }
  rewrite buildMap_snoc. destruct (decide (_dir p = d)) as [Hd|Hd].
  - rewrite Hd, lookup_insert_eq. split.
    + exists p. split; [|done]. by apply list_lookup_middle.
    + intros j q Hj Hq. apply lookup_lt_Some in Hq.
      rewrite length_app in Hq. simpl in Hq. lia.
  - rewrite lookup_insert_ne by done.
    destruct (buildMap pkgs !! d) as [i|].
    + destruct IH as [(q & Hq & Hqd) Hlast]. split.
      * exists q. split; [|done]. by apply lookup_app_l_Some.
      * intros j r Hj Hr. apply lookup_app_Some in Hr as [Hr|[_ Hr]]; [by eauto|].
        apply list_lookup_singleton_Some in Hr as [_ <-]. done.
    + intros q [Hq|Hq%list_elem_of_singleton]%elem_of_app; [by auto|by subst].
Qed.

(** X11: [pkgsMap] holds, for a directory, the position of the last
    package of [pkgs] with that directory (a later [set] overwrites an
    earlier), and holds nothing for a directory that no package has. *)
Theorem index_keeps_the_last_package pkgs d :
  (∀ i : ref,
     buildMap pkgs !! d = Some i ↔
     (∃ p, pkgs !! i = Some p ∧ _dir p = d) ∧
     ∀ j q, i < j → pkgs !! j = Some q → _dir q ≠ d) ∧
  (buildMap pkgs !! d = None ↔ ∀ p, p ∈ pkgs → _dir p ≠ d).
Proof.
  pose proof (buildMap_last pkgs d) as Hlast.
  destruct (buildMap pkgs !! d) as [i|] eqn:Hd.
  - destruct Hlast as [(p & Hp & Hpd) Hafter]. split.
    + intros k. split.
      * intros [= <-]. eauto.
      * intros [(q & Hq & Hqd) Hlater]. f_equal.
        destruct (Nat.lt_trichotomy i k) as [Hlt|[->|Hlt]]; [|done|].
        -- by destruct (Hafter k q Hlt Hq).
        -- by destruct (Hlater i p Hlt Hp).
    + split; [done|]. intros Hnone. destruct (Hnone p); [|done].
      by eapply list_elem_of_lookup_2.
  - split; [|done]. intros i. split; [done|].
    intros [(p & Hp & Hpd) _]. destruct (Hlast p); [|done].
    by eapply list_elem_of_lookup_2.
Qed.

(** X12: for the packages [findPackages] returns from a working
    directory whose entries are named as a file system names them,
    [pkgsMap] maps the directory of every package to that very package,
    and whatever it holds for a directory is a package with that
    directory. *)
Theorem scanned_packages_are_indexed JSON_parse cwd pkgs :
  well_formed (Dir cwd) → findPackages JSON_parse cwd = Ok pkgs →
  (∀ (i : ref) pkg,
     pkgs !! i = Some pkg → buildMap pkgs !! _dir pkg = Some i) ∧
  (∀ d (i : ref),
     buildMap pkgs !! d = Some i → ∃ pkg, pkgs !! i = Some pkg ∧ _dir pkg = d) ∧
  (∀ (i : ref), i < length pkgs →
     buildMap pkgs !! _dir (obj pkgs i) = Some i).
Proof.
  intros Hwf Hscan.
  pose proof (findPackages_unique_dirs _ _ _ Hwf Hscan) as Hunique.
  assert (∀ (i : ref) pkg,
    pkgs !! i = Some pkg → buildMap pkgs !! _dir pkg = Some i) as Hround.
  { intros i pkg Hi. pose proof (buildMap_last pkgs (_dir pkg)) as Hlast.
    destruct (buildMap pkgs !! _dir pkg) as [k|].
    - destruct Hlast as [(q & Hq & Hqd) _]. f_equal.
      eapply NoDup_lookup; [exact Hunique| |].
      + by rewrite list_lookup_fmap, Hq.
      + rewrite list_lookup_fmap, Hi. simpl. by rewrite Hqd.
    - destruct (Hlast pkg); [|done]. by eapply list_elem_of_lookup_2. }
  split; [done|]. split.
  - intros d i Hd. by apply buildMap_lookup.
  - intros i Hi. apply Hround. unfold obj.
    by apply list_lookup_lookup_total_lt.
Qed.

(** ** What [main] does *)

(** X13: the pass of [main] over all packages returns exactly when no
    key of [dependencies] or [peerDependencies] of any package is
    unresolvable; when it throws, the error is [Could not find required
    dep X of dir] for such a key [X] of a package of [pkgs] with the
    directory [dir].
    For the packages [findPackages] has returned, [main] hands a text
    to [fs.writeFileSync] in exactly that case, and calls it not at all
    otherwise. *)
Theorem resolution_pass_returns_iff pkgs :
  let resolvable :=
    ∀ (dep : ref) X, requires (obj pkgs dep) X →
      ¬ unresolvable (buildMap pkgs) (_dir (obj pkgs dep)) X in
  ((∃ resolved, flattenAll pkgs = Done resolved) ↔ resolvable) ∧
  (∀ msg, flattenAll pkgs = Throw msg →
     ∃ (dep : ref) X,
       dep < length pkgs ∧ requires (obj pkgs dep) X ∧
       unresolvable (buildMap pkgs) (_dir (obj pkgs dep)) X ∧
       msg = missing_dep_message X (_dir (obj pkgs dep))) ∧
  (∀ JSON_parse JSON_stringify cwd,
     findPackages JSON_parse cwd = Ok pkgs →
     let written := (run JSON_parse JSON_stringify cwd).2 in
     ((∃ text, written = [("BUILD.bazel", text)]) ↔ resolvable) ∧
     (¬ resolvable → written = [])).
Proof.
  intros resolvable.
  assert (∀ msg, flattenAll pkgs = Throw msg →
    ∃ (dep : ref) X, dep < length pkgs ∧ requires (obj pkgs dep) X ∧
      unresolvable (buildMap pkgs) (_dir (obj pkgs dep)) X ∧
      msg = missing_dep_message X (_dir (obj pkgs dep))) as Hthrow.
  { intros msg (pkg & _ & Hpkg)%mapO_Throw.
    apply flatten_Throw in Hpkg as (d & Y & Hreq & Hun & ->).
    exists d, Y. eauto using requires_valid. }
  assert ((∃ resolved, flattenAll pkgs = Done resolved) ↔ resolvable)
    as Hreturns.
  { split.
    - intros [resolved Hall] dep X Hreq Hun.
      destruct (flattenAll_required_missing pkgs dep X) as [msg Hmsg];
        [by eapply requires_valid|done..|congruence].
    - intros Hok. destruct (flattenAll pkgs) as [resolved|msg|] eqn:Hall.
      + eauto.
      + destruct (Hthrow _ eq_refl) as (dep & X & _ & Hreq & Hun & _).
        by destruct (Hok dep X).
      + by destruct (flattenAllFrom_fuel pkgs ((λ _, []) <$> pkgs)). }
  split; [done|]. split; [done|].
  intros JSON_parse JSON_stringify cwd Hscan written. unfold written.
  rewrite run_unfold, Hscan. rewrite <- Hreturns.
  destruct (flattenAll pkgs) as [resolved|msg|]; cbn [snd].
  - split; [|by intros []; eauto]. split; eauto.
  - split; [|done]. split; [by intros [? ?]|by intros [? ?]].
  - split; [|done]. split; [by intros [? ?]|by intros [? ?]].
Qed.

(** X14: whatever [main] writes is written to BUILD.bazel and begins
    with [BUILD_FILE_HEADER]; when node_modules is absent, is a file, or
    is an empty directory, [main] returns and the text written is the
    header, followed by two newlines and the manual fragment if that can
    be read. *)
Theorem build_file_starts_with_the_header JSON_parse JSON_stringify cwd :
  let run := run JSON_parse JSON_stringify in
  (∀ file text,
     (file, text) ∈ (run cwd).2 →
     file = "BUILD.bazel" ∧ Str.starts_with BUILD_FILE_HEADER text = true) ∧
  ((∀ listing, entry "node_modules" cwd = Some (Dir listing) → listing = []) →
   run cwd =
   (Done (),
    [("BUILD.bazel",
      append_manual BUILD_FILE_HEADER
        (readFileSync "manual_build_file_contents" cwd))])).
Proof.
  cbv zeta. rewrite run_unfold. split.
  - intros file text.
    destruct (findPackages JSON_parse cwd) as [pkgs|err];
      [|by intros ?%elem_of_nil].
    destruct (flattenAll pkgs) as [resolved|msg|];
      [|by intros ?%elem_of_nil..].
    cbn [snd]. intros [= -> ->]%list_elem_of_singleton. split; [done|].
    unfold generated.
    destruct (readFileSync _ cwd); cbn [append_manual];
      rewrite ?string_app_assoc; apply starts_with_app.
  - intros Hempty.
    assert (findPackages JSON_parse cwd = Ok [] ∧ findScopes cwd = [])
      as [-> ->].
    { unfold findPackages, findScopes.
      destruct (entry "node_modules" cwd) as [[content|listing]|]; [done| |done].
      by rewrite (Hempty listing). }
    change (flattenAll []) with (Done ([] : list (list ref))).
    unfold generated. cbn [length seq filter fmap list_fmap Str.join concat].
    by rewrite !string_app_nil_r.
Qed.

(** ** Paths of executables and the comment of a package *)

Lemma get_drop n s i : String.get i (Str.drop n s) = String.get (n + i) s.
Proof.
  revert s. induction n as [|n IH]; intros s; [done|].
  destruct s as [|c s]; [by destruct i|]. simpl. apply IH.
Qed.

Lemma length_drop n s : String.length (Str.drop n s) ≤ String.length s.
Proof.
  revert s. induction n as [|n IH]; intros s; [done|].
  destruct s as [|c s]; [done|]. simpl. specialize (IH s). lia.
Qed.

Lemma replace_all_id c d s :
  (∀ i, String.get i s ≠ Some c) → Str.replace_all c d s = s.
Proof.
  induction s as [|a s IH]; intros Hs; [done|]. simpl.
  rewrite decide_False by (intros ->; by apply (Hs 0)).
  rewrite IH; [done|]. intros i. apply (Hs (S i)).
Qed.

(** X15: the result of [cleanupBinPath] contains no backslash and is
    not longer than the path; one leading [./] is removed, and so is
    one leading [.\] (the backslashes are replaced first); a path
    without a backslash that does not start with [./] is returned as it
    is. *)
Theorem cleanupBinPath_facts s :
  (∀ i, String.get i (cleanupBinPath s) ≠ Some Str.backslash) ∧
  String.length (cleanupBinPath s) ≤ String.length s ∧
  cleanupBinPath ("./" +:+ s) = Str.replace_all Str.backslash Str.slash s ∧
  cleanupBinPath (".\" +:+ s) = Str.replace_all Str.backslash Str.slash s ∧
  ((∀ i, String.get i s ≠ Some Str.backslash) →
   Str.starts_with "./" s = false → cleanupBinPath s = s).
Proof.
  unfold cleanupBinPath. repeat split.
  - intros i. destruct (Str.starts_with _ _).
    + rewrite get_drop. by apply replace_all_gone.
    + by apply replace_all_gone.
  - pose proof (replace_all_length Str.backslash Str.slash s) as Hlen.
    destruct (Str.starts_with _ _); [|lia].
    pose proof (length_drop 2 (Str.replace_all Str.backslash Str.slash s)). lia.
  - intros Hs Hdot. rewrite replace_all_id by done. by rewrite Hdot.
Qed.

Lemma split_pieces sep s :
  Forall (λ x, Str.split sep x = [x]) (Str.split sep s).
Proof.
  induction s as [|c s IH]; [by constructor|]. rewrite split_cons.
  pose proof (split_not_nil sep s) as Hne.
  destruct (Str.split sep s) as [|piece pieces]; [done|].
  case_decide as Hc; [by constructor|].
  apply Forall_cons in IH as [Hpiece Hpieces]. constructor; [|done].
  rewrite split_cons, Hpiece. by rewrite decide_False.
Qed.

Lemma split_app_sep sep a b :
  Str.split sep (a +:+ String sep b) = Str.split sep a ++ Str.split sep b.
Proof.
  induction a as [|c a IH].
  - change ("" +:+ String sep b) with (String sep b).
    rewrite split_cons. by rewrite decide_True.
  - rewrite string_app_cons, !split_cons, IH.
    pose proof (split_not_nil sep a) as Hne.
    case_decide; [done|]. by destruct (Str.split sep a).
Qed.

Lemma split_join_sep sep l :
  l ≠ [] → Forall (λ x, Str.split sep x = [x]) l →
  Str.split sep (Str.join (String sep "") l) = l.
Proof.
  induction l as [|x [|y l] IH]; intros Hne Hl; [done| |].
  - apply Forall_cons in Hl as [Hx _]. exact Hx.
  - apply Forall_cons in Hl as [Hx Hl]. rewrite join_cons.
    change (x +:+ String sep "" +:+ Str.join (String sep "") (y :: l))
      with (x +:+ String sep (Str.join (String sep "") (y :: l))).
    by rewrite split_app_sep, Hx, IH.
Qed.

Lemma split_prefixed sep p x :
  Str.split sep p = [p] → Str.split sep x = [x] →
  Str.split sep (p +:+ x) = [p +:+ x].
Proof.
  induction p as [|c p IH]; [done|]. rewrite string_app_cons, !split_cons.
  case_decide; [done|].
  pose proof (split_not_nil sep p) as Hne.
  destruct (Str.split sep p) as [|q qs] eqn:E; [done|].
  intros [= -> ->] Hx. by rewrite IH.
Qed.

(** X16: every line of what [printJson] returns starts with [# ]:
    the text consists of the lines of the JSON text, each preceded by
    [# ]. *)
Theorem printJson_comment_lines JSON_stringify pkgs (pkg : ref) deps :
  let json :=
    JSON_stringify (obj pkgs pkg) ((λ dep, _dir (obj pkgs dep)) <$> deps) in
  let printed := Str.split "010" (printJson JSON_stringify pkgs pkg deps) in
  printed = (λ line, "# " +:+ line) <$> Str.split "010" json ∧
  Forall (λ line, Str.starts_with "# " line = true) printed.
Proof.
  cbv zeta. unfold printJson.
  assert (∀ l, l ≠ [] → Forall (λ x, Str.split "010" x = [x]) l →
            Str.split "010" (Str.join Str.nl ((λ line, "# " +:+ line) <$> l))
            = (λ line, "# " +:+ line) <$> l) as Hlines.
  { intros l Hne Hl. apply (split_join_sep "010").
    - by destruct l.
    - apply Forall_fmap. eapply Forall_impl; [exact Hl|].
      intros x Hx. by apply split_prefixed. }
  rewrite Hlines; [|apply split_not_nil|apply split_pieces].
  split; [done|]. apply Forall_fmap, Forall_forall. intros line _.
  apply starts_with_app.
Qed.

(** * The properties on the sample trees *)

Import Samples.

Lemma nearest_ancestor_lookup_witness :
  lookupDep shadow_tree (buildMap shadow_tree) 0 true "x" = Done (Some 1) ∧
  buildMap shadow_tree !! "x" = Some 2.
Proof.
  split; [|reflexivity].
  pose proof (nearest_ancestor_lookup shadow_tree (buildMap shadow_tree)
                0 true "x") as H.
  cbv zeta in H. destruct H as (_ & Hnested & _).
  apply (Hnested 0 "a/node_modules/x" 1); [reflexivity|reflexivity|].
  intros j path' Hj. lia.
Defined.

Lemma missing_dependency_witness :
  resolveFrom broken_tree [] 0 = Throw "Could not find required dep y of a" ∧
  lookupDep broken_tree (buildMap broken_tree) 0 false "z" = Done None ∧
  resolveFrom peer_missing [] 0 = Throw "Could not find required dep p of a".
Proof.
  split; [|split].
  - assert (0 < length broken_tree) as Hdep by (simpl; lia).
    assert (unresolvable (buildMap broken_tree)
              (_dir (obj broken_tree 0)) "y") as Hun by reflexivity.
    pose proof (missing_dependency broken_tree 0 "y" Hdep Hun) as H.
    cbv zeta in H. destruct H as (_ & _ & _ & Hfirst & _).
    apply (Hfirst ["x"] []); [reflexivity| |apply not_elem_of_nil].
    intros Y HY. apply list_elem_of_singleton in HY as ->. discriminate.
  - assert (0 < length broken_tree) as Hdep by (simpl; lia).
    assert (unresolvable (buildMap broken_tree)
              (_dir (obj broken_tree 0)) "z") as Hun by reflexivity.
    pose proof (missing_dependency broken_tree 0 "z" Hdep Hun) as H.
    cbv zeta in H. by destruct H as (_ & Hopt & _).
  - assert (0 < length peer_missing) as Hdep by (simpl; lia).
    assert (unresolvable (buildMap peer_missing)
              (_dir (obj peer_missing 0)) "p") as Hun by reflexivity.
    pose proof (missing_dependency peer_missing 0 "p" Hdep Hun) as H.
    cbv zeta in H. destruct H as (_ & _ & _ & _ & Hpeer & _).
    apply (Hpeer [] [] eq_refl) with (deps1 := [0; 1]);
      [|apply not_elem_of_nil|reflexivity].
    intros Y HY. by apply elem_of_nil in HY.
Defined.

(** C2 as stated fails: the error of a failed resolution need not name
    the missing name at hand.  With [x] and [y] both missing, the error
    names [x], not [y]; with [p] missing for [a] and [q] for its
    dependency [b], the error names [q] and [b]. *)
Lemma missing_name_is_not_always_the_one_named :
  (requires (obj both_missing 0) "y" ∧
   unresolvable (buildMap both_missing) (_dir (obj both_missing 0)) "y" ∧
   resolve both_missing 0 = Throw "Could not find required dep x of a" ∧
   resolve both_missing 0 ≠ Throw (missing_dep_message "y" "a")) ∧
  (requires (obj deep_missing 0) "p" ∧
   unresolvable (buildMap deep_missing) (_dir (obj deep_missing 0)) "p" ∧
   resolve deep_missing 0 = Throw "Could not find required dep q of b" ∧
   resolve deep_missing 0 ≠ Throw (missing_dep_message "p" "a") ∧
   flattenAll deep_missing = Throw "Could not find required dep q of b").
Proof.
  split.
  - split; [|split; [reflexivity|split; [reflexivity|discriminate]]].
    left. apply list_elem_of_further, list_elem_of_here.
  - split; [|split; [reflexivity|split; [reflexivity|split;
                                           [discriminate|reflexivity]]]].
    right. apply list_elem_of_here.
Qed.

Lemma no_duplicates_witness :
  flattenAll cycle_tree = Done [[0; 1]; [1; 0]] ∧
  NoDup [0; 1] ∧ NoDup ((λ r, _dir (obj cycle_tree r)) <$> [0; 1]).
Proof.
  assert (flattenAll cycle_tree = Done [[0; 1]; [1; 0]]) as Hall
    by reflexivity.
  assert ([[0; 1]; [1; 0]] !! 0 = Some [0; 1]) as Hdeps by reflexivity.
  destruct (no_duplicates cycle_tree _ 0 _ Hall Hdeps) as (Hnd & Hdirs & _ & _).
  split; [exact Hall|]. split; [exact Hnd|]. apply Hdirs.
  unfold unique_dirs. apply (bool_decide_unpack _). reflexivity.
Defined.

Lemma cycles_terminate_witness :
  resolve cycle_tree 0 = Done [0; 1] ∧ resolve cycle_tree 1 = Done [1; 0].
Proof.
  destruct (cycles_terminate cycle_tree) as (_ & _ & Hcycle & _).
  apply (Hcycle 0 1 "b" "a"); try reflexivity; try (simpl; lia).
  all: repeat split.
Defined.

Lemma aggregate_inputs_witness :
  let left_files := String "034" (":left__files" +:+ String "034" ",") in
  let right_files := String "034" (":right__files" +:+ String "034" ",") in
  aggregate_srcs left_right 0 [0; 1] = [left_files; right_files] ∧
  aggregate_srcs left_right 1 [1] = [right_files] ∧
  (∃ before after executables,
     printPackage stringify_stub left_right 0 [0; 1]
     = lines (before ++
              [ "filegroup(";
                "    name = " +:+ String "034" ("left" +:+ String "034" ",");
                "    srcs = [";
                "        # left package contents (and contents of nested node_modules)";
                "        " +:+ left_files;
                "        # direct or transitive dependencies hoisted to root by the package manager";
                "        " +:+ right_files;
                "    ]," ] ++ after)
       +:+ executables) ∧
  (∃ before after,
     run parse_stub stringify_stub unreadable_disk
     = (Done (),
        [("BUILD.bazel",
          before +:+ printPackage stringify_stub left_right 0 [0; 1]
          +:+ after)])).
Proof.
  cbv zeta.
  assert (unique_dirs left_right) as Huniq.
  { unfold unique_dirs. apply (bool_decide_unpack _). reflexivity. }
  assert (flattenAll left_right = Done [[0; 1]; [1]]) as Hall by reflexivity.
  pose proof (aggregate_inputs left_right _ 0 [0; 1] Huniq Hall
                eq_refl eq_refl) as H0.
  pose proof (aggregate_inputs left_right _ 1 [1] Huniq Hall
                eq_refl eq_refl) as H1.
  cbv zeta in H0, H1.
  destruct H0 as (Hsrcs0 & _ & _ & _ & Hprinted & Hmain).
  destruct H1 as (Hsrcs1 & _).
  split; [exact Hsrcs0|]. split; [exact Hsrcs1|]. split.
  - destruct (Hprinted stringify_stub) as (before & after & executables & ->).
    by exists before, after, executables.
  - destruct (Hmain parse_stub stringify_stub unreadable_disk eq_refl)
      as (manual & before & after & -> & ->).
    eexists (BUILD_FILE_HEADER +:+ before), _.
    rewrite !string_app_assoc. reflexivity.
Defined.

Lemma resolution_idempotent_witness :
  flattenAllFrom cycle_tree [[0; 1]; [1; 0]] = Done [[0; 1]; [1; 0]].
Proof.
  assert (flattenAll cycle_tree = Done [[0; 1]; [1; 0]]) as Hall
    by reflexivity.
  exact (proj1 (resolution_idempotent cycle_tree _ Hall)).
Defined.

Lemma executables_of_package_witness :
  _executables (parsePackage "node_modules/foo" aliased) = [("foo", "cli.js")].
Proof.
  pose proof (executables_of_package "node_modules/foo" aliased) as H.
  cbv zeta in H. destruct H as (_ & Hroot).
  destruct (Hroot eq_refl) as (Hstring & _).
  exact (Hstring "./cli.js" eq_refl).
Defined.

(** C7 as stated fails: for [bar] installed as [foo], the one
    executable is keyed [foo], not by the package's name. *)
Lemma executable_key_is_not_the_name :
  let pkg := parsePackage "node_modules/foo" aliased in
  _isNested pkg = false ∧ bin pkg = BinString "./cli.js" ∧
  name pkg = "bar" ∧
  _executables pkg ≠ [(name pkg, normalized_path "./cli.js")] ∧
  smap_get (name pkg) (_executables pkg) = None.
Proof. repeat split. discriminate. Qed.

Lemma output_all_or_nothing_witness :
  (∃ err, run parse_stub stringify_stub malformed_disk = (Throw err, [])) ∧
  (∃ msg, run parse_stub stringify_stub broken_disk = (Throw msg, [])).
Proof.
  split.
  - pose proof (output_all_or_nothing parse_stub stringify_stub
                  malformed_disk) as H.
    cbv zeta in H. destruct H as (_ & Hmalformed & _).
    eapply Hmalformed; [reflexivity|].
    eapply (malformed_package _ _ _ "left" (package_dir "{" []));
      [|reflexivity..].
    apply list_elem_of_lookup. by exists 1.
  - pose proof (output_all_or_nothing parse_stub stringify_stub
                  broken_disk) as H.
    cbv zeta in H. destruct H as (_ & _ & Hmissing & _).
    apply (Hmissing broken_tree 0 "y"); [reflexivity|simpl; lia| |reflexivity].
    left. apply list_elem_of_lookup. by exists 1.
Defined.

Lemma self_first_witness :
  flattenAll cycle_tree = Done [[0; 1]; [1; 0]] ∧ head [1; 0] = Some 1.
Proof.
  assert (flattenAll cycle_tree = Done [[0; 1]; [1; 0]]) as Hall
    by reflexivity.
  split; [exact Hall|].
  exact (self_first cycle_tree _ 1 [1; 0] Hall eq_refl).
Defined.

Lemma manual_read_errors_swallowed_witness :
  run parse_stub stringify_stub unreadable_disk
  = (Done (),
     [("BUILD.bazel", generated stringify_stub left_right [[0; 1]; [1]] [])]).
Proof.
  pose proof (manual_read_errors_swallowed parse_stub stringify_stub
                unreadable_disk left_right [[0; 1]; [1]] eq_refl eq_refl) as H.
  cbv zeta in H. destruct H as (Hfailed & _).
  exact (Hfailed "EACCES: permission denied" eq_refl).
Defined.

(** The scan of the sample disks gives the sample trees. *)
Example scan_shadow_disk :
  findPackages parse_stub shadow_disk = Ok shadow_tree ∧
  findScopes shadow_disk = ["@s"].
Proof. split; reflexivity. Qed.

Example scan_broken_disk : findPackages parse_stub broken_disk = Ok broken_tree.
Proof. reflexivity. Qed.

Example shadow_disk_well_formed : well_formed (Dir shadow_disk).
Proof.
  simpl. repeat split; try done; apply (bool_decide_unpack _); reflexivity.
Qed.

(** The further properties on the sample trees. *)

Lemma dependencies_are_the_reachable_packages_witness :
  rtc (depends_on cycle_tree (buildMap cycle_tree)) 0 1.
Proof.
  assert (resolve cycle_tree 0 = Done [0; 1]) as Hres by reflexivity.
  destruct (dependencies_are_the_reachable_packages cycle_tree 0 _ Hres)
    as [Hreach _].
  apply Hreach. apply list_elem_of_further, list_elem_of_here.
Defined.

Lemma dependency_lists_nest_witness : [1] ⊆ [0; 1].
Proof.
  assert (flattenAll shadow_tree = Done [[0; 1]; [1]; [2]]) as Hall
    by reflexivity.
  assert (1 ∈ [0; 1]) as Hin by apply list_elem_of_further, list_elem_of_here.
  destruct (dependency_lists_nest shadow_tree _ 0 1 [0; 1] [1] Hall
              eq_refl eq_refl Hin) as [Hnest _].
  exact Hnest.
Defined.

Lemma scan_finds_the_installed_packages_witness :
  ∃ here, entry "node_modules" shadow_disk = Some here ∧
          finds parse_stub "node_modules" here (package "x" [] [] []).
Proof.
  assert (findPackages parse_stub shadow_disk = Ok shadow_tree) as Hscan
    by reflexivity.
  apply (scan_finds_the_installed_packages _ _ _ Hscan).
  do 2 apply list_elem_of_further. apply list_elem_of_here.
Defined.

Lemma installed_packages_are_found_witness :
  ∃ pkg, pkg ∈ shadow_tree ∧ _dir pkg = "a/node_modules/x" ∧
         _isNested pkg = true.
Proof.
  assert (findPackages parse_stub shadow_disk = Ok shadow_tree) as Hscan
    by reflexivity.
  destruct (installed_packages_are_found parse_stub shadow_disk _ shadow_tree
              shadow_disk_well_formed eq_refl Hscan) as (_ & _ & Hnested).
  apply (Hnested "a"
           [ ("package.json", File (Ok "{a: x}"));
             ("node_modules", Dir [("x", package_dir "{a/node_modules/x}" [])]) ]
           [("x", package_dir "{a/node_modules/x}" [])]
           "x" (package_dir "{a/node_modules/x}" []));
    [|reflexivity|reflexivity|reflexivity| |reflexivity|reflexivity].
  - do 2 apply list_elem_of_further. apply list_elem_of_here.
  - apply list_elem_of_here.
Defined.

Lemma scanned_packages_in_normal_form_witness :
  plain_path "a/node_modules/x".
Proof.
  assert (findPackages parse_stub shadow_disk = Ok shadow_tree) as Hscan
    by reflexivity.
  assert (package "a/node_modules/x" [] [] [] ∈ shadow_tree) as Hin.
  { apply list_elem_of_further, list_elem_of_here. }
  destruct (scanned_packages_in_normal_form parse_stub shadow_disk shadow_tree
              _ shadow_disk_well_formed Hscan Hin) as (Hplain & _).
  exact Hplain.
Defined.

Example scoped_disk_well_formed : well_formed (Dir scoped_disk).
Proof.
  simpl. repeat split; try done; apply (bool_decide_unpack _); reflexivity.
Qed.

Example scan_scoped_disk :
  findPackages parse_name scoped_disk = Ok scoped_tree ∧
  findScopes scoped_disk = ["@s"].
Proof. split; reflexivity. Qed.

Lemma findScopes_lists_the_scope_directories_witness :
  "@s" ∈ findScopes scoped_disk ∧ NoDup (findScopes scoped_disk).
Proof.
  destruct (findScopes_lists_the_scope_directories scoped_disk
              scoped_disk_well_formed) as (Hmem & Hnd & _).
  split; [|exact Hnd]. apply Hmem. split; [reflexivity|].
  eexists _, _. split; [reflexivity|]. apply list_elem_of_here.
Defined.

Lemma scope_target_members_witness :
  package "@s/a" [] [] [] ∈ scopePkgs scoped_tree "@s" ∧
  package "c" [] [] [] ∉ scopePkgs scoped_tree "@s".
Proof.
  assert ("@s" ∈ findScopes scoped_disk) as Hscope by apply list_elem_of_here.
  destruct (scope_target_members scoped_disk scoped_tree "@s"
              scoped_disk_well_formed Hscope) as (Hmem & _).
  split.
  - apply Hmem. split; [apply list_elem_of_further, list_elem_of_here|].
    split; [reflexivity|]. by exists ["a"].
  - intros (_ & _ & rest & _ & Hrest)%Hmem. discriminate.
Defined.

Lemma scanned_packages_are_indexed_witness :
  buildMap shadow_tree !! "a/node_modules/x" = Some 1.
Proof.
  assert (findPackages parse_stub shadow_disk = Ok shadow_tree) as Hscan
    by reflexivity.
  destruct (scanned_packages_are_indexed parse_stub shadow_disk shadow_tree
              shadow_disk_well_formed Hscan) as (Hround & _).
  exact (Hround 1 (package "a/node_modules/x" [] [] []) eq_refl).
Defined.

Lemma cleanupBinPath_facts_witness : cleanupBinPath "bin/cli.js" = "bin/cli.js".
Proof.
  destruct (cleanupBinPath_facts "bin/cli.js") as (_ & _ & _ & _ & Hclean).
  apply Hclean; [|reflexivity].
  intros i. do 10 (destruct i as [|i]; [discriminate|]). discriminate.
Defined.

Lemma resolution_pass_returns_iff_witness :
  ∃ (dep : ref) X,
    dep < length broken_tree ∧ requires (obj broken_tree dep) X ∧
    unresolvable (buildMap broken_tree) (_dir (obj broken_tree dep)) X ∧
    "Could not find required dep y of a"
    = missing_dep_message X (_dir (obj broken_tree dep)).
Proof.
  pose proof (resolution_pass_returns_iff broken_tree) as H.
  cbv zeta in H. destruct H as (_ & Hthrow & _).
  exact (Hthrow "Could not find required dep y of a" eq_refl).
Defined.

Lemma build_file_starts_with_the_header_witness :
  run parse_stub stringify_stub []
  = (Done (), [("BUILD.bazel", BUILD_FILE_HEADER)]).
Proof.
  pose proof (build_file_starts_with_the_header parse_stub stringify_stub [])
    as H.
  cbv zeta in H. destruct H as (_ & Hempty). apply Hempty. discriminate.
Defined.

Lemma selected_package_is_installed_under_the_name_witness :
  _dir (obj shadow_tree 1) ∈ candidate_paths "a" "x" ∨
  _dir (obj shadow_tree 1) = "x".
Proof.
  pose proof (selected_package_is_installed_under_the_name
                shadow_tree 0 true "x" 1 eq_refl) as H.
  cbv zeta in H. destruct H as (_ & Hwhere & _). exact Hwhere.
Defined.

Lemma every_dependency_is_brought_in_witness :
  ∃ (j : nat) (d : ref),
    j < 1 ∧ [0; 1] !! j = Some d ∧
    depends_on cycle_tree (buildMap cycle_tree) d 1.
Proof.
  assert (resolve cycle_tree 0 = Done [0; 1]) as Hres by reflexivity.
  apply (every_dependency_is_brought_in cycle_tree 0 [0; 1] Hres 1 1);
    [reflexivity|lia].
Defined.
